(** * Remote-access gateway (server.js): connection registry and file-operation
    coordinator.

    The development embeds the Socket.IO handlers and the HTTP endpoints of
    [src/server.js] that own the table [sshConnections] and that run the
    SFTP-then-shell two-tier file operations.  Handlers become functions
    from the request, the registry and the outcome reported by the remote
    side to the list of effects they perform, in order. *)

From Stdlib Require Import String Ascii List ZArith NArith Bool Lia DecimalString.
From stdpp Require Import base gmap strings.
Import ListNotations.

Local Open Scope string_scope.
Local Open Scope stdpp_scope.
Local Open Scope list_scope.

(* stdpp freezes string append under [simpl]; the templates below are easier
   to read off when it unfolds on a constructor. *)
#[local] Arguments String.append !_ _ / : simpl nomatch.

(** ** Buffers

    A chunk of bytes as a stream of the ssh2 library delivers it.  The
    handlers do one thing with a chunk, [data.toString('utf8')] (utf8 is
    also what [toString()] without argument decodes), and never look at its
    bytes, so a chunk is kept as the text that call returns for it.  That
    text is decoded from the chunk alone: where the bytes of one character
    are divided between two chunks, each text ends or starts with
    replacement characters, and joining the texts does not give the
    character back. *)

Module Buffer.

Record t := of_text { toString : string }.

End Buffer.

(** ** JavaScript string primitives used by the handlers *)

Module Js.

Definition dq : ascii := "034"%char.
Definition sq : ascii := "039"%char.
Definition backslash : ascii := "092"%char.
Definition slash : ascii := "047"%char.
Definition semicolon : ascii := "059"%char.

(** [s.startsWith(p)] *)
Fixpoint starts_with (p s : string) : bool :=
  match p, s with
  | EmptyString, _ => true
  | String a p', String b s' => Ascii.eqb a b && starts_with p' s'
  | String _ _, EmptyString => false
  end.

(** [hay.includes(needle)] *)
Fixpoint includes (hay needle : string) : bool :=
  starts_with needle hay ||
  match hay with
  | EmptyString => false
  | String _ rest => includes rest needle
  end.

(** [s.replace(/"/g, '\\"')]: every double quote gets a backslash in front. *)
Fixpoint escape_dq (s : string) : string :=
  match s with
  | EmptyString => EmptyString
  | String c rest =>
      if Ascii.eqb c dq then String backslash (String dq (escape_dq rest))
      else String c (escape_dq rest)
  end.

(** [s.split(sep)] for a one-character separator; never the empty list. *)
Fixpoint split (sep : ascii) (s : string) : list string :=
  match s with
  | EmptyString => [EmptyString]
  | String c rest =>
      if Ascii.eqb c sep then EmptyString :: split sep rest
      else match split sep rest with
           | h :: tl => String c h :: tl
           | [] => [String c EmptyString]
           end
  end.

(** [arr.pop()] read as a value: the last element. *)
Definition pop (l : list string) : string := List.last l EmptyString.

(** [s.lastIndexOf(c)], -1 when [c] does not occur. *)
Fixpoint lastIndexOf (c : ascii) (s : string) : Z :=
  match s with
  | EmptyString => (-1)%Z
  | String a rest =>
      let r := lastIndexOf c rest in
      if (0 <=? r)%Z then (r + 1)%Z
      else if Ascii.eqb a c then 0%Z else (-1)%Z
  end.

(** [s.substring(0, n)] *)
Definition substring_to (n : Z) (s : string) : string :=
  String.substring 0 (Z.to_nat n) s.

(** [s || dflt] on strings: the empty string is falsy. *)
Definition or_else (s dflt : string) : string :=
  match s with
  | EmptyString => dflt
  | _ => s
  end.

(** A string used as a condition. *)
Definition truthy (s : string) : bool :=
  match s with
  | EmptyString => false
  | _ => true
  end.

(** Template interpolation of a non-negative number such as [Date.now()]. *)
Definition of_number (n : N) : string :=
  NilEmpty.string_of_uint (N.to_uint n).

(** The accumulation the data callbacks perform, [acc += data.toString()]
    for each chunk in turn, starting from the empty string. *)
Definition collect (chunks : list Buffer.t) : string :=
  fold_left (fun acc data => acc +:+ Buffer.toString data) chunks EmptyString.

(** A double-quoted shell word as the templates write it. *)
Definition quoted (s : string) : string :=
  String dq (s +:+ String dq EmptyString).

End Js.

(** ** Data model *)

(** Handles stand for the objects the ssh2 library hands out: a [Client], a
    shell channel, an SFTP session. *)
Definition handle := nat.

(** The value stored in [sshConnections[sessionId]]: the literal
    [{ conn, stream }] of connect-ssh or [{ conn, sftp }] of connect-sftp.
    A field the literal does not mention reads as [undefined]. *)
Record conn_record := ConnRecord {
  conn : handle;
  stream : option handle;
  sftp : option handle
}.

(** [sshConnections], a plain object used as a map keyed by session id.
    The map holds what the handlers have assigned.  The session id comes
    from the client, and an assignment under the key [__proto__] does not
    create a property: the setter of [Object.prototype] makes the record
    the prototype of [sshConnections].  The entry of the map under that
    key, if there is one, is that prototype; every other entry is a
    property of the object itself. *)
Abbreviation registry := (gmap string conn_record).

(** Reading and deleting properties of [sshConnections]. *)
Module JsObject.

Definition proto_key : string := "__proto__".

(** The property names of [Object.prototype] besides [__proto__]. *)
Definition object_prototype_names : list string :=
  ["constructor"; "__defineGetter__"; "__defineSetter__"; "hasOwnProperty";
   "__lookupGetter__"; "__lookupSetter__"; "isPrototypeOf"; "propertyIsEnumerable";
   "toString"; "valueOf"; "toLocaleString"].

(** What [sshConnections[key]] can evaluate to. *)
Inductive value :=
| Undefined
| Stored (r : conn_record)      (* a record a connect handler has assigned *)
| ClientObject (c : handle)     (* the ssh2 Client held by the prototype record *)
| ChannelObject (h : handle)    (* the shell stream held by the prototype record *)
| SftpObject (h : handle)       (* the SFTP session held by the prototype record *)
| Builtin.                      (* [Object.prototype] or one of its functions *)

Definition from_object_prototype (key : string) : value :=
  if existsb (String.eqb key) object_prototype_names then Builtin else Undefined.

(** A key the object does not have, found on a record that has become its
    prototype: the fields of the literal, then [Object.prototype]. *)
Definition from_record (p : conn_record) (key : string) : value :=
  if String.eqb key "conn" then ClientObject (conn p)
  else if String.eqb key "stream" then
    match stream p with
    | Some h => ChannelObject h
    | None => Undefined
    end
  else if String.eqb key "sftp" then
    match sftp p with
    | Some h => SftpObject h
    | None => Undefined
    end
  else from_object_prototype key.

(** [sshConnections[key]]: the property of the object itself, or for
    [__proto__] the prototype (the getter of [Object.prototype]), or what
    the prototype chain has under the key. *)
Definition get (reg : registry) (key : string) : value :=
  match reg !! key with
  | Some r => Stored r
  | None =>
      if String.eqb key proto_key then Builtin
      else match reg !! proto_key with
           | Some p => from_record p key
           | None => from_object_prototype key
           end
  end.

(** [sshConnections[key] = r] *)
Definition set (reg : registry) (key : string) (r : conn_record) : registry :=
  <[key := r]> reg.

(** [delete sshConnections[key]]: a property of the object itself goes;
    [__proto__] is none, and the prototype stays. *)
Definition delete (reg : registry) (key : string) : registry :=
  if String.eqb key proto_key then reg else base.delete key reg.

(** A value used as a condition. *)
Definition truthy (v : value) : bool :=
  match v with
  | Undefined => false
  | _ => true
  end.

(** [v.stream] as the command handler uses it: the stream of a stored
    record.  The objects ssh2 hands out are taken to have no member named
    [conn], [stream] or [sftp], other than the method [sftp] of a Client
    that connect-sftp calls. *)
Definition stream_of (v : value) : option handle :=
  match v with
  | Stored r => stream r
  | _ => None
  end.

(** The field names of the records: the keys a record that has become
    the prototype answers to. *)
Definition field_name (key : string) : bool :=
  existsb (String.eqb key) ["conn"; "stream"; "sftp"].

(** A key under which the object can only have a property of its own: not
    [__proto__], not a field name of the records, not a property name of
    [Object.prototype]. *)
Definition plain (key : string) : bool :=
  negb (existsb (String.eqb key)
          (proto_key :: "conn" :: "stream" :: "sftp" :: object_prototype_names)).

End JsObject.

(** One item of an SFTP [readdir] result and of the listing sent back. *)
Record dir_entry := DirEntry {
  filename : string;
  attr_size : N;
  attr_is_directory : bool;
  attr_mtime : N;
  attr_mode : N;
  attr_uid : N
}.

Record file_item := FileItem {
  name : string;
  size : N;
  isDirectory : bool;
  modifyTime : N;
  permissions : N;
  owner : N
}.

(** Second argument of [socket.emit] or body of an HTTP reply. *)
Inductive payload :=
| NoPayload
| Text (msg : string)
| Fields (kv : list (string * string))
| Listing (path : string) (files : list file_item).

Inductive sftp_call :=
| Readdir (path : string)
| Rmdir (path : string)
| Unlink (path : string)
| Rename (oldPath newPath : string)
| Mkdir (path : string)
| Stat (path : string)
| CreateReadStream (path : string)
| CreateWriteStream (path : string) (mode : N) (content : string).

(** The effects a handler performs, in program order.  Console logging is
    not client visible and is left out. *)
Inductive action :=
| Emit (event : string) (p : payload)
| Sftp (s : handle) (call : sftp_call)
| Exec (c : handle) (cmd : string)
| StreamWrite (s : handle) (data : string)
| ConnEnd (c : handle)
| HttpReply (status : N) (body : payload)
| Redirect (location : string)
| Raise (site : string).   (* a TypeError leaves the callback; [site] is the
                              expression whose evaluation throws *)

(** What the remote side answers. *)

(** Callback error of a structured call, or the error event of an SFTP
    stream: [Some err.message], [None] when the call goes through.  A
    stream is taken to finish with one of its error and close (or end)
    events, not both. *)
Definition sftp_outcome := option string.

(** Exit status passed to the close callback of an exec channel: a number,
    or nothing when the remote side reports none. *)
Definition exit_code := option Z.

(** [conn.exec(cmd, cb)]: either [cb] gets an error, or it gets a channel
    that delivers stdout and stderr chunks and then closes with a code. *)
Inductive exec_outcome :=
| ExecRefused (msg : string)
| ExecClosed (code : exit_code) (stdout stderr : list Buffer.t).

Inductive read_outcome :=
| ReadEnd (chunks : list Buffer.t)
| ReadError (msg : string)
| ReadThrows (msg : string).

(** [code !== 0] *)
Definition code_nonzero (code : exit_code) : bool :=
  match code with
  | Some 0%Z => false
  | _ => true
  end.

Definition nl : string := String "010"%char EmptyString.

(** [0o644] *)
Definition default_mode : N := 420%N.

(** The guard every file handler starts with,
    [!sshConnections[sessionId] || !sshConnections[sessionId].sftp],
    followed by the reads of [.sftp] and [.conn].  On a stored record with
    an SFTP session the handler goes on with that session and the record's
    transport.  When the key is [conn] and a record is the prototype, the
    value is the ssh2 Client of that record: its member [sftp] is the
    method connect-sftp calls, a function, so the guard passes although no
    session is registered; [sftp] is then that function and [conn] is
    undefined.  Every other value has no [sftp] member. *)
Inductive guard :=
| Refused
| Granted (s c : handle)
| Misled.

Definition file_guard (reg : registry) (sessionId : string) : guard :=
  match JsObject.get reg sessionId with
  | JsObject.Stored r =>
      match sftp r with
      | Some s => Granted s (conn r)
      | None => Refused
      end
  | JsObject.ClientObject _ => Misled
  | _ => Refused
  end.

(** The SFTP session and the transport registered for the session id. *)
Definition sftp_session (reg : registry) (sessionId : string)
  : option (handle * handle) :=
  match file_guard reg sessionId with
  | Granted s c => Some (s, c)
  | _ => None
  end.

Definition no_sftp : list action :=
  [Emit "sftp-error" (Text "No active SFTP connection")].

(** ** Shell command templates (the template literals passed to [conn.exec]) *)

Definition rm_rf_command (path : string) : string :=
  "rm -rf " +:+ Js.quoted (Js.escape_dq path) +:+ " || echo " +:+ Js.quoted "RM_FAILED".

Definition rm_command (path : string) : string :=
  "rm " +:+ Js.quoted (Js.escape_dq path) +:+ " || echo " +:+ Js.quoted "RM_FAILED".

Definition mv_command (oldPath newPath : string) : string :=
  "mv " +:+ Js.quoted (Js.escape_dq oldPath) +:+ " " +:+
  Js.quoted (Js.escape_dq newPath) +:+ " || echo " +:+ Js.quoted "MV_FAILED".

Definition mkdir_command (path : string) : string :=
  "mkdir -p " +:+ Js.quoted (Js.escape_dq path) +:+ " || echo " +:+
  Js.quoted "MKDIR_FAILED".

Definition cat_command (path : string) : string :=
  "cat " +:+ Js.quoted (Js.escape_dq path).

Definition write_command (tempPath content path : string) : string :=
  "cat > " +:+ Js.quoted tempPath +:+ " << 'SFTPEOF'" +:+ nl +:+ content +:+ nl +:+
  "SFTPEOF" +:+ nl +:+ " && mv " +:+ Js.quoted tempPath +:+ " " +:+
  Js.quoted (Js.escape_dq path) +:+ " || echo " +:+ Js.quoted "WRITE_FAILED".

Definition zip_command (zipPath path : string) : string :=
  "zip -r " +:+ Js.quoted zipPath +:+ " " +:+ Js.quoted path +:+
  " || echo " +:+ Js.quoted "ZIP_FAILED".

Definition temp_zip_command (tempZipPath path currentDir : string) : string :=
  "zip -r " +:+ Js.quoted tempZipPath +:+ " " +:+ Js.quoted path +:+
  " && cp " +:+ Js.quoted tempZipPath +:+ " " +:+ Js.quoted currentDir +:+
  " && rm " +:+ Js.quoted tempZipPath +:+ " || echo " +:+ Js.quoted "TEMP_ZIP_FAILED".

(** [cd ${data.initialPath}\n], written to the shell after connect-ssh. *)
Definition cd_command (initialPath : string) : string :=
  "cd " +:+ initialPath +:+ nl.

(** ** File-operation handlers (the [socket.on] callbacks)

    A handler is run against the registry as it is when the request
    arrives; the handles it reads then are captured by its callbacks. *)

(** [socket.on('list-directory')] *)
Definition list_directory (reg : registry) (sessionId path : string)
    (err : sftp_outcome) (entries : list dir_entry) : list action :=
  match file_guard reg sessionId with
  | Refused => no_sftp
  | Misled => [Raise "sftp.readdir"]
  | Granted s _ =>
      Sftp s (Readdir path) ::
      match err with
      | Some msg => [Emit "sftp-error" (Text ("Failed to read directory: " +:+ msg))]
      | None =>
          let files :=
            map (fun item =>
                   {| name := filename item;
                      size := attr_size item;
                      isDirectory := attr_is_directory item;
                      modifyTime := (attr_mtime item * 1000)%N;
                      permissions := attr_mode item;
                      owner := attr_uid item |}) entries in
          [Emit "directory-list" (Listing path files)]
      end
  end.

(** [socket.on('zip-directory')]; [now] is [Date.now()]. *)
Definition zip_directory (reg : registry) (sessionId path : string) (now : N)
    (first retry : exec_outcome) : list action :=
  match file_guard reg sessionId with
  | Refused => no_sftp
  | Misled =>
      [Emit "zip-started" (Fields [("path", path); ("message", "Creating zip file...")]);
       Raise "conn.exec"]
  | Granted _ c =>
      let dirName := Js.or_else (Js.pop (Js.split Js.slash path)) "folder" in
      let zipFileName := dirName +:+ "-" +:+ Js.of_number now +:+ ".zip" in
      let currentDir :=
        Js.or_else (Js.substring_to (Js.lastIndexOf Js.slash path + 1) path) "/" in
      let zipPath := currentDir +:+ zipFileName in
      Emit "zip-started" (Fields [("path", path); ("message", "Creating zip file...")]) ::
      Exec c (zip_command zipPath path) ::
      match first with
      | ExecRefused msg => [Emit "sftp-error" (Text ("Failed to create zip: " +:+ msg))]
      | ExecClosed code stdout stderr =>
          let commandOutput := Js.collect stdout in
          let errorOutput := Js.collect stderr in
          if code_nonzero code || Js.includes commandOutput "ZIP_FAILED" then
            let tempZipPath := "/tmp/" +:+ zipFileName in
            Exec c (temp_zip_command tempZipPath path currentDir) ::
            match retry with
            | ExecRefused msg =>
                [Emit "sftp-error" (Text ("Failed to create zip: " +:+ msg))]
            | ExecClosed sudoCode sudoStdout _ =>
                let sudoOutput := Js.collect sudoStdout in
                if code_nonzero sudoCode || Js.includes sudoOutput "TEMP_ZIP_FAILED" then
                  [Emit "sftp-error" (Text ("Failed to create zip file: " +:+ errorOutput))]
                else
                  let finalZipPath := currentDir +:+ zipFileName in
                  [Emit "zip-complete" (Fields [("path", finalZipPath)])]
            end
          else [Emit "zip-complete" (Fields [("path", zipPath)])]
      end
  end.

(** [socket.on('upload-file')].  The error callback announces a retry; the
    source stops there (its comment: the temp file approach is not
    implemented), so no command follows.  That callback reads
    [sshConnections[sessionId].conn] again; the entry is taken to be still
    in place. *)
Definition upload_file (reg : registry) (sessionId path fileData : string)
    (err : sftp_outcome) : list action :=
  match file_guard reg sessionId with
  | Refused => no_sftp
  | Misled => [Raise "sftp.createWriteStream"]
  | Granted s _ =>
      Sftp s (CreateWriteStream path default_mode fileData) ::
      match err with
      | Some msg =>
          [Emit "sftp-error" (Text ("Upload failed: " +:+ msg));
           Emit "message" (Text "Retrying upload with alternate method...")]
      | None => [Emit "upload-complete" NoPayload]
      end
  end.

(** [socket.on('delete-file')] *)
Definition delete_file (reg : registry) (sessionId path : string)
    (isDirectory : bool) (err : sftp_outcome) (shell : exec_outcome)
  : list action :=
  match file_guard reg sessionId with
  | Refused => no_sftp
  | Misled => [Raise (if isDirectory then "sftp.rmdir" else "sftp.unlink")]
  | Granted s c =>
      if isDirectory then
        Sftp s (Rmdir path) ::
        match err with
        | Some msg =>
            Exec c (rm_rf_command path) ::
            match shell with
            | ExecRefused shellMsg =>
                [Emit "sftp-error"
                   (Text ("Failed to delete directory: " +:+ msg +:+
                          ". Shell command also failed: " +:+ shellMsg))]
            | ExecClosed code stdout stderr =>
                let commandOutput := Js.collect stdout in
                let errorOutput := Js.collect stderr in
                if code_nonzero code || Js.includes commandOutput "RM_FAILED" then
                  [Emit "sftp-error"
                     (Text ("Failed to delete directory with rm command: " +:+ errorOutput))]
                else [Emit "delete-complete" NoPayload]
            end
        | None => [Emit "delete-complete" NoPayload]
        end
      else
        Sftp s (Unlink path) ::
        match err with
        | Some msg =>
            Exec c (rm_command path) ::
            match shell with
            | ExecRefused shellMsg =>
                [Emit "sftp-error"
                   (Text ("Failed to delete file: " +:+ msg +:+
                          ". Shell command also failed: " +:+ shellMsg))]
            | ExecClosed code stdout stderr =>
                let commandOutput := Js.collect stdout in
                let errorOutput := Js.collect stderr in
                if code_nonzero code || Js.includes commandOutput "RM_FAILED" then
                  [Emit "sftp-error"
                     (Text ("Failed to delete file with rm command: " +:+ errorOutput))]
                else [Emit "delete-complete" NoPayload]
            end
        | None => [Emit "delete-complete" NoPayload]
        end
  end.

(** [socket.on('rename-file')] *)
Definition rename_file (reg : registry) (sessionId oldPath newPath : string)
    (err : sftp_outcome) (shell : exec_outcome) : list action :=
  match file_guard reg sessionId with
  | Refused => no_sftp
  | Misled => [Raise "sftp.rename"]
  | Granted s c =>
      Sftp s (Rename oldPath newPath) ::
      match err with
      | Some msg =>
          Exec c (mv_command oldPath newPath) ::
          match shell with
          | ExecRefused shellMsg =>
              [Emit "sftp-error"
                 (Text ("Failed to rename: " +:+ msg +:+
                        ". Shell command also failed: " +:+ shellMsg))]
          | ExecClosed code stdout stderr =>
              let commandOutput := Js.collect stdout in
              let errorOutput := Js.collect stderr in
              if code_nonzero code || Js.includes commandOutput "MV_FAILED" then
                [Emit "sftp-error"
                   (Text ("Failed to rename with mv command: " +:+ errorOutput))]
              else [Emit "rename-complete" NoPayload]
          end
      | None => [Emit "rename-complete" NoPayload]
      end
  end.

(** [socket.on('create-folder')] *)
Definition create_folder (reg : registry) (sessionId path : string)
    (err : sftp_outcome) (shell : exec_outcome) : list action :=
  match file_guard reg sessionId with
  | Refused => no_sftp
  | Misled => [Raise "sftp.mkdir"]
  | Granted s c =>
      Sftp s (Mkdir path) ::
      match err with
      | Some msg =>
          Exec c (mkdir_command path) ::
          match shell with
          | ExecRefused shellMsg =>
              [Emit "sftp-error"
                 (Text ("Failed to create folder: " +:+ msg +:+
                        ". Shell command also failed: " +:+ shellMsg))]
          | ExecClosed code stdout stderr =>
              let commandOutput := Js.collect stdout in
              let errorOutput := Js.collect stderr in
              if code_nonzero code || Js.includes commandOutput "MKDIR_FAILED" then
                [Emit "sftp-error"
                   (Text ("Failed to create folder with mkdir command: " +:+ errorOutput))]
              else [Emit "folder-created" NoPayload]
          end
      | None => [Emit "folder-created" NoPayload]
      end
  end.

(** [socket.on('read-file')]; the creation of the read stream stands in a
    [try], so the TypeError of a misled guard is caught and reported. *)
Definition read_file (reg : registry) (sessionId path : string)
    (reading : read_outcome) (shell : exec_outcome) : list action :=
  match file_guard reg sessionId with
  | Refused => no_sftp
  | Misled =>
      [Emit "sftp-error"
         (Text "Failed to read file: sftp.createReadStream is not a function")]
  | Granted s c =>
      Sftp s (CreateReadStream path) ::
      match reading with
      | ReadThrows msg => [Emit "sftp-error" (Text ("Failed to read file: " +:+ msg))]
      | ReadEnd chunks =>
          let content := Js.collect chunks in
          [Emit "file-content" (Fields [("path", path); ("content", content)])]
      | ReadError msg =>
          Exec c (cat_command path) ::
          match shell with
          | ExecRefused shellMsg =>
              [Emit "sftp-error"
                 (Text ("Failed to read file: " +:+ msg +:+
                        ". Shell command also failed: " +:+ shellMsg))]
          | ExecClosed code stdout stderr =>
              let shellContent := Js.collect stdout in
              let errorOutput := Js.collect stderr in
              if code_nonzero code then
                [Emit "sftp-error"
                   (Text ("Failed to read file with cat command: " +:+ errorOutput))]
              else [Emit "file-content" (Fields [("path", path); ("content", shellContent)])]
          end
      end
  end.

(** [socket.on('save-file')]; [stats] is [Some stats.mode] when the stat
    call returns no error, [now] is [Date.now()] in the error callback. *)
Definition save_file (reg : registry) (sessionId path content : string)
    (stats : option N) (err : sftp_outcome) (now : N) (shell : exec_outcome)
  : list action :=
  match file_guard reg sessionId with
  | Refused => no_sftp
  | Misled => [Raise "sftp.stat"]
  | Granted s c =>
      let mode := match stats with Some m => m | None => default_mode end in
      Sftp s (Stat path) ::
      Sftp s (CreateWriteStream path mode content) ::
      match err with
      | Some msg =>
          let tempPath := "/tmp/sftp_temp_" +:+ Js.of_number now in
          Exec c (write_command tempPath content path) ::
          match shell with
          | ExecRefused shellMsg =>
              [Emit "sftp-error"
                 (Text ("Failed to save file: " +:+ msg +:+
                        ". Shell command also failed: " +:+ shellMsg))]
          | ExecClosed code stdout stderr =>
              let commandOutput := Js.collect stdout in
              let errorOutput := Js.collect stderr in
              if code_nonzero code || Js.includes commandOutput "WRITE_FAILED" then
                [Emit "sftp-error"
                   (Text ("Failed to save file with shell command: " +:+ errorOutput))]
              else [Emit "file-saved" (Fields [("path", path)])]
          end
      | None => [Emit "file-saved" (Fields [("path", path)])]
      end
  end.

(** [socket.on('command')] *)
Definition command (reg : registry) (sessionId cmd : string) : list action :=
  match JsObject.stream_of (JsObject.get reg sessionId) with
  | Some st => [StreamWrite st (cmd +:+ nl)]
  | None => [Emit "error" (Text "No active SSH connection")]
  end.

(** [app.post('/file/save')] behind [isAuthenticated]; [content] is [None]
    when the body has no such field.  The write stream ends with one of
    its error and close events. *)
Definition http_file_save (reg : registry) (authenticated : bool)
    (path : string) (content : option string) (sessionId : string)
    (err : sftp_outcome) : list action :=
  if negb authenticated then [Redirect "/login"] else
  match content with
  | None =>
      [HttpReply 400 (Fields [("error", "Missing path, content, or session ID")])]
  | Some text =>
      if negb (Js.truthy path) || negb (Js.truthy sessionId) then
        [HttpReply 400 (Fields [("error", "Missing path, content, or session ID")])]
      else
        match file_guard reg sessionId with
        | Refused => [HttpReply 404 (Fields [("error", "No active SFTP connection")])]
        | Misled => [Raise "sshConn.sftp.createWriteStream"]
        | Granted s _ =>
            Sftp s (CreateWriteStream path default_mode text) ::
            match err with
            | Some msg =>
                [HttpReply 500 (Fields [("error", "Failed to save file: " +:+ msg)])]
            | None => [HttpReply 200 (Fields [("success", "true")])]
            end
        end
  end.

(** ** Requests on the real-time channel *)

Inductive request :=
| ListDirectory (path : string)
| ZipDirectory (path : string)
| UploadFile (path data : string)
| DeleteFile (path : string) (isDirectory : bool)
| RenameFile (oldPath newPath : string)
| CreateFolder (path : string)
| ReadFile (path : string)
| SaveFile (path content : string).

(** Everything the remote host and the clock contribute to one request. *)
Record remote := Remote {
  env_structured : sftp_outcome;
  env_entries : list dir_entry;
  env_reading : read_outcome;
  env_stats : option N;
  env_shell : exec_outcome;
  env_retry : exec_outcome;
  env_now : N
}.

(** Dispatch of an inbound event to its [socket.on] callback. *)
Definition on_request (reg : registry) (sessionId : string) (req : request)
    (env : remote) : list action :=
  match req with
  | ListDirectory path =>
      list_directory reg sessionId path (env_structured env) (env_entries env)
  | ZipDirectory path =>
      zip_directory reg sessionId path (env_now env) (env_shell env) (env_retry env)
  | UploadFile path data => upload_file reg sessionId path data (env_structured env)
  | DeleteFile path isDir =>
      delete_file reg sessionId path isDir (env_structured env) (env_shell env)
  | RenameFile oldPath newPath =>
      rename_file reg sessionId oldPath newPath (env_structured env) (env_shell env)
  | CreateFolder path => create_folder reg sessionId path (env_structured env) (env_shell env)
  | ReadFile path => read_file reg sessionId path (env_reading env) (env_shell env)
  | SaveFile path content =>
      save_file reg sessionId path content (env_stats env) (env_structured env) (env_now env)
        (env_shell env)
  end.

(** *** Reading a trace *)

Definition is_emit (a : action) : bool :=
  match a with Emit _ _ => true | _ => false end.

Definition is_exec (a : action) : bool :=
  match a with Exec _ _ => true | _ => false end.

Definition is_remote_call (a : action) : bool :=
  match a with
  | Sftp _ _ | Exec _ _ | StreamWrite _ _ => true
  | _ => false
  end.

(** The notifications the client receives, in order. *)
Definition emitted (t : list action) : list action := List.filter is_emit t.

(** The shell commands issued, in order. *)
Definition commands (t : list action) : list string :=
  omap (fun a => match a with Exec _ cmd => Some cmd | _ => None end) t.

(** ** Connection lifecycle

    connect-ssh and connect-sftp create an ssh2 [Client] and hang callbacks
    on it; the callbacks run later, one at a time, on the event loop.  The
    machine below has one event per callback.  Each client remembers what
    its closures captured ([sessionId], [data.initialPath]) and how far it
    got. *)

Inductive conn_kind := ShellConn | SftpConn.

Inductive phase :=
| Connecting   (* conn.connect called *)
| Opening      (* ready fired, conn.shell or conn.sftp requested *)
| Open         (* the channel callback ran without error *)
| Ending       (* conn.end called *)
| Closed.      (* close fired *)

Record client := Client {
  c_session : string;
  c_kind : conn_kind;
  c_initialPath : string;
  c_phase : phase;
  c_channel : option handle;   (* the open shell stream or SFTP session *)
  c_opened : bool              (* history: the channel callback succeeded *)
}.

Record state := State {
  table : registry;
  clients : gmap handle client;
  next_handle : handle
}.

Definition initial : state :=
  {| table := ∅; clients := ∅; next_handle := 0 |}.

Inductive event :=
| ConnectSsh (sessionId initialPath : string)
| ConnectSftp (sessionId initialPath : string)
| ClientReady (c : handle)
| ChannelOpened (c : handle)
| ChannelRefused (c : handle) (msg : string)
| ClientError (c : handle) (msg : string)
| ClientClose (c : handle)
| StreamData (c : handle) (data : Buffer.t)
| StreamStderr (c : handle) (data : Buffer.t)
| StreamClose (c : handle)
| SocketCommand (sessionId cmd : string)
| SocketDisconnect (sessionId : string).

Definition set_client (st : state) (c : handle) (cl : client) : state :=
  {| table := table st; clients := <[c := cl]> (clients st); next_handle := next_handle st |}.

Definition with_phase (cl : client) (p : phase) : client :=
  {| c_session := c_session cl; c_kind := c_kind cl;
     c_initialPath := c_initialPath cl; c_phase := p;
     c_channel := c_channel cl; c_opened := c_opened cl |}.

(** [conn.end()]: a client that is not closed yet starts closing. *)
Definition end_client (st : state) (c : handle) : state :=
  match clients st !! c with
  | Some cl =>
      match c_phase cl with
      | Closed => st
      | _ => set_client st c (with_phase cl Ending)
      end
  | None => st
  end.

(** [if (sshConnections[sessionId]) delete sshConnections[sessionId]]; the
    delete of a key the object does not have changes nothing, so the test
    makes no difference. *)
Definition forget (st : state) (sessionId : string) : state :=
  {| table := JsObject.delete (table st) sessionId;
     clients := clients st; next_handle := next_handle st |}.

(** [new Client()] with its callbacks, then [conn.connect]. *)
Definition new_client (st : state) (sessionId : string) (k : conn_kind)
    (initialPath : string) : state :=
  {| table := table st;
     clients := <[next_handle st := {| c_session := sessionId; c_kind := k;
                                 c_initialPath := initialPath;
                                 c_phase := Connecting;
                                 c_channel := None; c_opened := false |}]>
                (clients st);
     next_handle := S (next_handle st) |}.

(** The channel callback without error: the assignment
    [sshConnections[sessionId] = { conn, stream }] (or [{ conn, sftp }]). *)
Definition register (st : state) (c : handle) (cl : client) : state :=
  let ch := next_handle st in
  {| table :=
       JsObject.set (table st) (c_session cl)
         match c_kind cl with
         | ShellConn => {| conn := c; stream := Some ch; sftp := None |}
         | SftpConn => {| conn := c; stream := None; sftp := Some ch |}
         end;
     clients :=
       <[c := {| c_session := c_session cl; c_kind := c_kind cl;
                 c_initialPath := c_initialPath cl; c_phase := Open;
                 c_channel := Some ch; c_opened := true |}]> (clients st);
     next_handle := S ch |}.

(** One callback.  [None]: the event cannot occur in that state.  A
    callback that ends with [Raise] has thrown; what the runtime does with
    the exception is outside the machine, which goes on from the state the
    callback left. *)
Definition step (st : state) (ev : event) : option (state * list action) :=
  match ev with
  | ConnectSsh sessionId initialPath =>
      Some (new_client st sessionId ShellConn initialPath, [])
  | ConnectSftp sessionId initialPath =>
      Some (new_client st sessionId SftpConn initialPath, [])
  | ClientReady c =>
      match clients st !! c with
      | Some cl =>
          match c_phase cl with
          | Connecting =>
              Some (set_client st c (with_phase cl Opening),
                    match c_kind cl with
                    | ShellConn =>
                        [Emit "message"
                           (Text ("SSH connection established successfully!" +:+ nl))]
                    | SftpConn =>
                        [Emit "message"
                           (Text "SSH connection established. Initializing SFTP session...")]
                    end)
          | _ => None
          end
      | None => None
      end
  | ChannelRefused c msg =>
      match clients st !! c with
      | Some cl =>
          match c_phase cl with
          | Opening =>
              Some (end_client st c,
                    match c_kind cl with
                    | ShellConn => [Emit "error" (Text ("Shell error: " +:+ msg)); ConnEnd c]
                    | SftpConn => [Emit "sftp-error" (Text ("SFTP error: " +:+ msg)); ConnEnd c]
                    end)
          | _ => None
          end
      | None => None
      end
  | ChannelOpened c =>
      match clients st !! c with
      | Some cl =>
          match c_phase cl with
          | Opening =>
              Some (register st c cl,
                    match c_kind cl with
                    | ShellConn =>
                        if Js.truthy (c_initialPath cl) &&
                           negb (String.eqb (c_initialPath cl) "/home")
                        then [StreamWrite (next_handle st) (cd_command (c_initialPath cl))]
                        else []
                    | SftpConn =>
                        [Emit "sftp-connected" (Fields [("initialPath", c_initialPath cl)]);
                         Emit "message" (Text "SFTP session ready.")]
                    end)
          | _ => None
          end
      | None => None
      end
  | ClientError c msg =>
      match clients st !! c with
      | Some cl =>
          match c_phase cl with
          | Closed => None
          | _ =>
              Some (st,
                    match c_kind cl with
                    | ShellConn => [Emit "error" (Text ("Connection error: " +:+ msg))]
                    | SftpConn => [Emit "sftp-error" (Text ("Connection error: " +:+ msg))]
                    end)
          end
      | None => None
      end
  | ClientClose c =>
      match clients st !! c with
      | Some cl =>
          match c_phase cl with
          | Closed => None
          | _ =>
              Some (forget (set_client st c (with_phase cl Closed)) (c_session cl),
                    match c_kind cl with
                    | ShellConn => [Emit "message" (Text "Connection closed")]
                    | SftpConn => []
                    end)
          end
      | None => None
      end
  | StreamData c data =>
      match clients st !! c with
      | Some cl =>
          match c_kind cl, c_channel cl with
          | ShellConn, Some _ => Some (st, [Emit "response" (Text (Buffer.toString data))])
          | _, _ => None
          end
      | None => None
      end
  | StreamStderr c data =>
      match clients st !! c with
      | Some cl =>
          match c_kind cl, c_channel cl with
          | ShellConn, Some _ => Some (st, [Emit "error" (Text (Buffer.toString data))])
          | _, _ => None
          end
      | None => None
      end
  | StreamClose c =>
      match clients st !! c with
      | Some cl =>
          match c_kind cl, c_channel cl with
          | ShellConn, Some _ =>
              let cl' := {| c_session := c_session cl; c_kind := c_kind cl;
                            c_initialPath := c_initialPath cl;
                            c_phase := c_phase cl; c_channel := None;
                            c_opened := c_opened cl |} in
              let st' := set_client st c cl' in
              if JsObject.truthy (JsObject.get (table st) (c_session cl)) then
                Some (forget (end_client st' c) (c_session cl),
                      [Emit "message" (Text "SSH connection closed by server");
                       ConnEnd c])
              else
                Some (st', [Emit "message" (Text "SSH connection closed by server")])
          | _, _ => None
          end
      | None => None
      end
  | SocketCommand sessionId cmd => Some (st, command (table st) sessionId cmd)
  | SocketDisconnect sessionId =>
      match JsObject.get (table st) sessionId with
      | JsObject.Stored r =>
          Some (forget (end_client st (conn r)) sessionId, [ConnEnd (conn r)])
      | JsObject.Undefined => Some (st, [])
      | _ => Some (st, [Raise "sshConnections[sessionId].conn.end"])
      end
  end.

(** A run of callbacks, with everything they did. *)
Fixpoint run (st : state) (evs : list event) : option (state * list action) :=
  match evs with
  | [] => Some (st, [])
  | ev :: rest =>
      match step st ev with
      | Some (st', out) =>
          match run st' rest with
          | Some (st'', out') => Some (st'', out ++ out')
          | None => None
          end
      | None => None
      end
  end.

Inductive reachable : state -> Prop :=
| reach_initial : reachable initial
| reach_step st ev st' out :
    reachable st -> step st ev = Some (st', out) -> reachable st'.

(** ** HTTP teardown routes *)

Inductive js_result (A : Type) :=
| Returned (a : A)
| Threw (exn : string).
Arguments Returned {A} a.
Arguments Threw {A} exn.

(** The body shared by [app.get('/logout')] and [app.get('/disconnect')]:
    [if (sshConnections[sessionId]) { sshConnections[sessionId].end();
    delete sshConnections[sessionId]; }].  The stored value is the literal
    [{ conn, stream }] or [{ conn, sftp }]; it has no [end] property, so
    the call throws before the delete, and so it does on [Object.prototype]
    and its functions.  The objects of ssh2 have an [end] method (the source
    calls it on a Client); the delete after it finds no property of the
    object itself.  The key here is [req.session.id], which the session
    middleware generates. *)
Definition http_teardown (reg : registry) (sessionId : string)
  : js_result registry :=
  match JsObject.get reg sessionId with
  | JsObject.Undefined => Returned reg
  | JsObject.Stored _ | JsObject.Builtin =>
      Threw "TypeError: sshConnections[sessionId].end is not a function"
  | JsObject.ClientObject _ | JsObject.ChannelObject _ | JsObject.SftpObject _ =>
      Returned reg
  end.

(** [app.get('/logout')] *)
Definition http_logout (reg : registry) (sessionId : string)
  : js_result (registry * list action) :=
  match http_teardown reg sessionId with
  | Returned reg' => Returned (reg', [Redirect "/login"])
  | Threw exn => Threw exn
  end.

(** [app.get('/disconnect')] *)
Definition http_disconnect (reg : registry) (sessionId : string)
  : js_result (registry * list action) :=
  match http_teardown reg sessionId with
  | Returned reg' => Returned (reg', [Redirect "/"])
  | Threw exn => Threw exn
  end.

(** [socket.on('disconnect')], on the registry alone: a stored record has
    its transport ended and is deleted; any other value that is not
    undefined has no [conn], and the call of [end] on it throws. *)
Definition on_disconnect (reg : registry) (sessionId : string)
  : registry * list action :=
  match JsObject.get reg sessionId with
  | JsObject.Stored r => (JsObject.delete reg sessionId, [ConnEnd (conn r)])
  | JsObject.Undefined => (reg, [])
  | _ => (reg, [Raise "sshConnections[sessionId].conn.end"])
  end.

(** ** How a POSIX shell cuts a command line at semicolons

    The remote [sh -c] is outside the repository.  To say what it means for
    a path to split a command, the quoting rules of the shell are written
    down here: a semicolon ends a command unless it stands inside single
    quotes, inside double quotes, or right after a backslash; inside double
    quotes a backslash still protects the next character. *)

Module Sh.

Inductive quoting := Bare | InDouble | InSingle.

Definition push (c : ascii) (r : list string) : list string :=
  match r with
  | h :: tl => String c h :: tl
  | [] => [String c EmptyString]
  end.

Fixpoint cut (q : quoting) (s : string) : list string :=
  match s with
  | EmptyString => [EmptyString]
  | String c rest =>
      match q with
      | Bare =>
          if Ascii.eqb c Js.semicolon then EmptyString :: cut Bare rest
          else if Ascii.eqb c Js.dq then push c (cut InDouble rest)
          else if Ascii.eqb c Js.sq then push c (cut InSingle rest)
          else if Ascii.eqb c Js.backslash then
            match rest with
            | String d rest' => push c (push d (cut Bare rest'))
            | EmptyString => [String c EmptyString]
            end
          else push c (cut Bare rest)
      | InDouble =>
          if Ascii.eqb c Js.dq then push c (cut Bare rest)
          else if Ascii.eqb c Js.backslash then
            match rest with
            | String d rest' => push c (push d (cut InDouble rest'))
            | EmptyString => [String c EmptyString]
            end
          else push c (cut InDouble rest)
      | InSingle =>
          if Ascii.eqb c Js.sq then push c (cut Bare rest)
          else push c (cut InSingle rest)
      end
  end.

(** The commands a line is made of. *)
Definition commands (line : string) : list string := cut Bare line.

End Sh.

(** The path of the escaping scenario: [a"; touch /tmp/pwned; echo "b]. *)
Definition hostile_path : string :=
  "a" +:+ String Js.dq "; touch /tmp/pwned; echo " +:+ String Js.dq "b".

(** The same with a backslash before each quote. *)
Definition hostile_backslash_path : string :=
  "a" +:+ String Js.backslash (String Js.dq "; touch /tmp/pwned; echo ") +:+
  String Js.backslash (String Js.dq "b").

Definition demo_registry : registry :=
  {[ "sess" := {| conn := 0; stream := None; sftp := Some 1 |} ]}.

(** ** Vocabulary of the statements *)

(** [needle] occurs in [hay]. *)
Definition contains (hay needle : string) : Prop :=
  exists pre post, hay = pre +:+ needle +:+ post.

(** The merged failure rule: a non-zero exit code, or the sentinel token in
    the collected standard output. *)
Definition fallback_failed (code : exit_code) (out token : string) : Prop :=
  code <> Some 0%Z \/ contains out token.

(** The names zip-directory derives from the path and the clock. *)
Definition zip_name (path : string) (now : N) : string :=
  Js.or_else (Js.pop (Js.split Js.slash path)) "folder" +:+ "-" +:+
  Js.of_number now +:+ ".zip".

Definition zip_dir (path : string) : string :=
  Js.or_else (Js.substring_to (Js.lastIndexOf Js.slash path + 1) path) "/".


(** The session has an SFTP handle, or a shell stream, in the registry. *)
Definition has_file_capability (reg : registry) (sessionId : string) : Prop :=
  exists r h, reg !! sessionId = Some r /\ sftp r = Some h.

Definition has_shell_stream (reg : registry) (sessionId : string) : Prop :=
  exists r h, reg !! sessionId = Some r /\ stream r = Some h.

(** The requests whose handler goes on to a shell command when the
    structured call fails. *)
Definition has_fallback (req : request) : bool :=
  match req with
  | DeleteFile _ _ | RenameFile _ _ | CreateFolder _ | ReadFile _ | SaveFile _ _ => true
  | ListDirectory _ | ZipDirectory _ | UploadFile _ _ => false
  end.

(** The token the shell command of a request echoes on failure. *)
Definition sentinel (req : request) : option string :=
  match req with
  | DeleteFile _ _ => Some "RM_FAILED"
  | RenameFile _ _ => Some "MV_FAILED"
  | CreateFolder _ => Some "MKDIR_FAILED"
  | SaveFile _ _ => Some "WRITE_FAILED"
  | ZipDirectory _ => Some "ZIP_FAILED"
  | ListDirectory _ | UploadFile _ _ | ReadFile _ => None
  end.

(** The structured call of the request fails with message [msg]; for
    read-file that is the error event of the read stream. *)
Definition structured_fails (req : request) (env : remote) (msg : string) : Prop :=
  match req with
  | ReadFile _ => env_reading env = ReadError msg
  | _ => env_structured env = Some msg
  end.

Definition structured_succeeds (req : request) (env : remote) : Prop :=
  match req with
  | ReadFile _ => exists chunks, env_reading env = ReadEnd chunks
  | _ => env_structured env = None
  end.

(** The shell fallback of the request counts as failed. *)
Definition fallback_fails (req : request) (code : exit_code) (out : string) : Prop :=
  match sentinel req with
  | Some token => fallback_failed code out token
  | None => code <> Some 0%Z
  end.

(** The text in front of the standard error output in the notification
    sent when the shell command has run and failed. *)
Definition shell_failure_prefix (req : request) : string :=
  match req with
  | DeleteFile _ true => "Failed to delete directory with rm command: "
  | DeleteFile _ false => "Failed to delete file with rm command: "
  | RenameFile _ _ => "Failed to rename with mv command: "
  | CreateFolder _ => "Failed to create folder with mkdir command: "
  | ReadFile _ => "Failed to read file with cat command: "
  | SaveFile _ _ => "Failed to save file with shell command: "
  | _ => EmptyString
  end.

(** The text in front of the structured-call message in the notification
    sent when the shell command could not be started. *)
Definition refused_prefix (req : request) : string :=
  match req with
  | DeleteFile _ true => "Failed to delete directory: "
  | DeleteFile _ false => "Failed to delete file: "
  | RenameFile _ _ => "Failed to rename: "
  | CreateFolder _ => "Failed to create folder: "
  | ReadFile _ => "Failed to read file: "
  | SaveFile _ _ => "Failed to save file: "
  | _ => EmptyString
  end.

(** Event name and payload layout of a notification. *)
Inductive layout :=
| LNone
| LText
| LFields (keys : list string)
| LListing.

Definition payload_layout (p : payload) : layout :=
  match p with
  | NoPayload => LNone
  | Text _ => LText
  | Fields kv => LFields (map fst kv)
  | Listing _ _ => LListing
  end.

Definition notification_shape (a : action) : option (string * layout) :=
  match a with
  | Emit ev p => Some (ev, payload_layout p)
  | _ => None
  end.

(** A trace in which one shell command is issued, nothing is sent to the
    client before it, and one notification follows it and ends the trace. *)
Definition one_fallback_then_result (t : list action) : Prop :=
  exists pre h cmd ev p,
    t = pre ++ [Exec h cmd; Emit ev p] /\
    Forall (fun a => is_emit a = false /\ is_exec a = false) pre.

(** One error notification that carries both the structured-call message
    and the standard error text of the shell command. *)
Definition combined_diagnostics (t : list action) (msg errorOutput : string) : Prop :=
  exists text,
    emitted t = [Emit "sftp-error" (Text text)] /\
    contains text msg /\ contains text errorOutput.

Definition sample_env (structured : sftp_outcome) (shell : exec_outcome) : remote :=
  {| env_structured := structured;
     env_entries := [];
     env_reading := match structured with
                    | Some msg => ReadError msg
                    | None => ReadEnd []
                    end;
     env_stats := None;
     env_shell := shell;
     env_retry := ExecRefused "unused";
     env_now := 1700000000000%N |}.

(** The channel callback of a client has run without error at some point:
    the client is past its Ready transition. *)
Definition past_ready (p : phase) : bool :=
  match p with
  | Open | Ending | Closed => true
  | Connecting | Opening => false
  end.

(** A registry record holds a shell stream or an SFTP session, never both
    and never neither. *)
Definition one_channel (r : conn_record) : Prop :=
  (exists h, stream r = Some h /\ sftp r = None) \/
  (exists h, stream r = None /\ sftp r = Some h).

(** What holds of every state the callbacks can reach. *)
Record invariant (st : state) : Prop := Invariant {
  inv_fresh : forall h cl, clients st !! h = Some cl -> h < next_handle st;
  inv_history :
    forall h cl, clients st !! h = Some cl ->
                 c_opened cl = true -> past_ready (c_phase cl) = true;
  inv_registered :
    forall sessionId r, table st !! sessionId = Some r ->
      exists cl, clients st !! conn r = Some cl /\
                 c_session cl = sessionId /\ c_opened cl = true;
  inv_one_channel :
    forall sessionId r, table st !! sessionId = Some r -> one_channel r
}.

(** Two connect-ssh requests on the same session, both successful. *)
Definition reconnect_events : list event :=
  [ConnectSsh "sess" "/home"; ClientReady 0; ChannelOpened 0;
   ConnectSsh "sess" "/home"; ClientReady 2; ChannelOpened 2].

(** The registry after one successful connect-ssh. *)
Definition shell_registry : registry :=
  {[ "sess" := {| conn := 0; stream := Some 1; sftp := None |} ]}.

(** A shell client whose transport is ready and whose shell is requested. *)
Definition opening_state : state :=
  {| table := ∅;
     clients := {[ 0 := {| c_session := "sess"; c_kind := ShellConn;
                           c_initialPath := EmptyString; c_phase := Opening;
                           c_channel := None; c_opened := false |} ]};
     next_handle := 1 |}.

(** The state in which a second connect-ssh on the session of
    [shell_registry] has its transport ready. *)
Definition second_client : client :=
  {| c_session := "sess"; c_kind := ShellConn; c_initialPath := "/home";
     c_phase := Opening; c_channel := None; c_opened := false |}.

Definition reconnecting_state : state :=
  {| table := shell_registry;
     clients := {[ 0 := {| c_session := "sess"; c_kind := ShellConn;
                           c_initialPath := "/home"; c_phase := Open;
                           c_channel := Some 1; c_opened := true |};
                   2 := second_client ]};
     next_handle := 3 |}.

(** The path has no backslash in it. *)
Fixpoint no_backslash (s : string) : bool :=
  match s with
  | EmptyString => true
  | String ch rest => negb (Ascii.eqb ch Js.backslash) && no_backslash rest
  end.

(** Put a word in front of the first command of a cut line. *)
Definition prepend (w : string) (r : list string) : list string :=
  match r with
  | h :: tl => (w +:+ h) :: tl
  | [] => [w]
  end.

(** An initial directory that carries a second command. *)
Definition hostile_initial_path : string := "/srv; touch /tmp/pwned".

(** Characters that change how the shell reads what follows. *)
Definition sh_special (ch : ascii) : bool :=
  Ascii.eqb ch Js.semicolon || Ascii.eqb ch Js.dq || Ascii.eqb ch Js.sq ||
  Ascii.eqb ch Js.backslash.

Fixpoint sh_plain (s : string) : bool :=
  match s with
  | EmptyString => true
  | String ch rest => negb (sh_special ch) && sh_plain rest
  end.

(** The state after both connect-ssh requests of [reconnect_events] have
    opened their shells. *)
Definition reconnected_state : state := register reconnecting_state 2 second_client.

(** One piece of output of the remote shell. *)
Inductive shell_output :=
| Stdout (data : Buffer.t)
| Stderr (data : Buffer.t).

Definition output_event (c : handle) (o : shell_output) : event :=
  match o with
  | Stdout data => StreamData c data
  | Stderr data => StreamStderr c data
  end.

Definition output_notification (o : shell_output) : action :=
  match o with
  | Stdout data => Emit "response" (Text (Buffer.toString data))
  | Stderr data => Emit "error" (Text (Buffer.toString data))
  end.

(** ** The JSON stores under data/ and their HTTP routes *)

(** JavaScript array primitives the routes use. *)
Module JsArray.

(** [arr.findIndex(p)], -1 when no element passes. *)
Fixpoint findIndex {A : Type} (p : A -> bool) (l : list A) : Z :=
  match l with
  | [] => (-1)%Z
  | x :: rest =>
      if p x then 0%Z
      else let i := findIndex p rest in
           if (i =? -1)%Z then (-1)%Z else (i + 1)%Z
  end.

(** [arr.find(p)] *)
Fixpoint find {A : Type} (p : A -> bool) (l : list A) : option A :=
  match l with
  | [] => None
  | x :: rest => if p x then Some x else find p rest
  end.

(** [arr[i] = x] for an index inside the array, the only use the routes
    make of it. *)
Definition assign {A : Type} (l : list A) (i : Z) (x : A) : list A :=
  <[Z.to_nat i := x]> l.

(** [arr.push(x)] *)
Definition push {A : Type} (l : list A) (x : A) : list A := l ++ [x].

End JsArray.

(** A value passed to [res.json] or [res.render]. *)
#[warnings="-register-all"]
Inductive json :=
| JNull
| JBool (b : bool)
| JNum (n : Z)
| JStr (s : string)
| JArr (items : list json)
| JObj (fields : list (string * json)).

(** What an HTTP route answers. *)
Inductive reply :=
| Json (status : N) (body : json)
| RedirectTo (location : string)
| Render (view : string) (locals : list (string * json))
| SendText (status : N) (text : string)
| Streamed (headers : list (string * string)).

(** A store file as the getters see it: [JSON.parse(fs.readFileSync(..))]
    gives the array, or throws and the getter returns the empty array. *)
Inductive file (A : Type) :=
| Unreadable
| Holds (items : list A).
Arguments Unreadable {A}.
Arguments Holds {A} items.

(** A field of a request body or of the query: absent, or a string. *)
Definition field := option string.

(** [!x] on such a field. *)
Definition missing (x : field) : bool :=
  match x with
  | None => true
  | Some s => negb (Js.truthy s)
  end.

(** The string a field holds once it has passed [!x]. *)
Definition text_of (x : field) : string :=
  match x with
  | Some s => s
  | None => EmptyString
  end.

(** [x || dflt] *)
Definition field_or (x : field) (dflt : string) : string :=
  if missing x then dflt else text_of x.

(** The update-or-append step the POST routes and save-chat-history share:
    [const existingIndex = arr.findIndex(same); if (existingIndex !== -1)
    arr[existingIndex] = x; else arr.push(x);]. *)
Definition upsert {A : Type} (same : A -> bool) (x : A) (arr : list A) : list A :=
  let existingIndex := JsArray.findIndex same arr in
  if negb (existingIndex =? -1)%Z then JsArray.assign arr existingIndex x
  else JsArray.push arr x.

Module Connections.

(** A record of data/saved_connections.json. *)
Record entry := Entry {
  name : string;
  host : string;
  port : string;
  username : string;
  password : field;
  initialPath : string;
  mode : string;
  createdAt : string
}.

(** The body of POST /api/connections. *)
Record body := Body {
  b_name : field;
  b_host : field;
  b_port : field;
  b_username : field;
  b_password : field;
  b_initialPath : field;
  b_mode : field
}.

Definition entry_json (e : entry) : json :=
  JObj ([("name", JStr (name e)); ("host", JStr (host e)); ("port", JStr (port e));
         ("username", JStr (username e))] ++
        match password e with
        | Some p => [("password", JStr p)]
        | None => []
        end ++
        [("initialPath", JStr (initialPath e)); ("mode", JStr (mode e));
         ("createdAt", JStr (createdAt e))]).

(** [getSavedConnections()] *)
Definition getSavedConnections (f : file entry) : list entry :=
  match f with
  | Holds items => items
  | Unreadable => []
  end.

(** [app.get('/api/connections')] *)
Definition get (authenticated : bool) (f : file entry) : reply :=
  if negb authenticated then RedirectTo "/login"
  else Json 200 (JArr (map entry_json (getSavedConnections f))).

(** [app.post('/api/connections')]; [isoNow] is [new Date().toISOString()],
    [writable] tells whether [fs.writeFileSync] goes through (it throws
    otherwise and the file is taken to stay as it was). *)
Definition post (authenticated : bool) (b : body) (isoNow : string)
    (f : file entry) (writable : bool) : file entry * reply :=
  if negb authenticated then (f, RedirectTo "/login") else
  if missing (b_name b) || missing (b_host b) || missing (b_username b) then
    (f, Json 400 (JObj [("error", JStr "Name, host and username are required")]))
  else
    let savedConnections := getSavedConnections f in
    let connectionData :=
      {| name := text_of (b_name b);
         host := text_of (b_host b);
         port := field_or (b_port b) "22";
         username := text_of (b_username b);
         password := b_password b;
         initialPath := field_or (b_initialPath b) "/home";
         mode := field_or (b_mode b) "terminal";
         createdAt := isoNow |} in
    let savedConnections' :=
      upsert (fun conn => String.eqb (name conn) (text_of (b_name b)))
        connectionData savedConnections in
    if writable then
      (Holds savedConnections',
       Json 200 (JObj [("success", JBool true); ("connection", entry_json connectionData)]))
    else (f, Json 500 (JObj [("error", JStr "Failed to save connection")])).

(** [app.delete('/api/connections/:name')] *)
Definition delete (authenticated : bool) (n : string) (f : file entry)
    (writable : bool) : file entry * reply :=
  if negb authenticated then (f, RedirectTo "/login") else
  let savedConnections :=
    List.filter (fun conn => negb (String.eqb (name conn) n)) (getSavedConnections f) in
  if writable then (Holds savedConnections, Json 200 (JObj [("success", JBool true)]))
  else (f, Json 500 (JObj [("error", JStr "Failed to delete connection")])).

End Connections.

Module ApiKeys.

(** A record of data/api_keys.json. *)
Record entry := Entry {
  provider : string;
  apiKey : string;
  updatedAt : string
}.

Definition entry_json (e : entry) : json :=
  JObj [("provider", JStr (provider e)); ("apiKey", JStr (apiKey e));
        ("updatedAt", JStr (updatedAt e))].

(** [getApiKeys()] *)
Definition getApiKeys (f : file entry) : list entry :=
  match f with
  | Holds items => items
  | Unreadable => []
  end.

(** [app.get('/api/apikeys')] *)
Definition get (authenticated : bool) (f : file entry) : reply :=
  if negb authenticated then RedirectTo "/login"
  else Json 200 (JArr (map entry_json (getApiKeys f))).

(** [app.post('/api/apikeys')] *)
Definition post (authenticated : bool) (b_provider b_apiKey : field) (isoNow : string)
    (f : file entry) (writable : bool) : file entry * reply :=
  if negb authenticated then (f, RedirectTo "/login") else
  if missing b_provider || missing b_apiKey then
    (f, Json 400 (JObj [("error", JStr "Provider and API key are required")]))
  else
    let apiKeys := getApiKeys f in
    let apiKeyData :=
      {| provider := text_of b_provider;
         apiKey := text_of b_apiKey;
         updatedAt := isoNow |} in
    let apiKeys' :=
      upsert (fun key => String.eqb (provider key) (text_of b_provider)) apiKeyData apiKeys in
    if writable then (Holds apiKeys', Json 200 (JObj [("success", JBool true)]))
    else (f, Json 500 (JObj [("error", JStr "Failed to save API key")])).

(** [app.delete('/api/apikeys/:provider')] *)
Definition delete (authenticated : bool) (p : string) (f : file entry)
    (writable : bool) : file entry * reply :=
  if negb authenticated then (f, RedirectTo "/login") else
  let apiKeys :=
    List.filter (fun key => negb (String.eqb (provider key) p)) (getApiKeys f) in
  if writable then (Holds apiKeys, Json 200 (JObj [("success", JBool true)]))
  else (f, Json 500 (JObj [("error", JStr "Failed to delete API key")])).

End ApiKeys.

Module Chat.

(** A record of data/chat_history.json. *)
Record entry := Entry {
  project_id : string;
  timestamp : string;
  messages : list json;
  file_context : list json
}.

Definition entry_json (e : entry) : json :=
  JObj [("project_id", JStr (project_id e)); ("timestamp", JStr (timestamp e));
        ("messages", JArr (messages e)); ("file_context", JArr (file_context e))].

(** [getChatHistory()] *)
Definition getChatHistory (f : file entry) : list entry :=
  match f with
  | Holds items => items
  | Unreadable => []
  end.

(** [app.get('/api/chat/:projectId')] *)
Definition get (authenticated : bool) (projectId isoNow : string) (f : file entry)
  : reply :=
  if negb authenticated then RedirectTo "/login" else
  let chatHistory := getChatHistory f in
  match JsArray.find (fun chat => String.eqb (project_id chat) projectId) chatHistory with
  | Some projectHistory => Json 200 (entry_json projectHistory)
  | None =>
      Json 200 (entry_json {| project_id := projectId; timestamp := isoNow;
                              messages := []; file_context := [] |})
  end.

(** [x || []] on an array field of the body. *)
Definition array_or_empty (x : option (list json)) : list json :=
  match x with
  | Some items => items
  | None => []
  end.

(** [app.post('/api/chat/:projectId')] *)
Definition post (authenticated : bool) (projectId : string)
    (b_messages b_file_context : option (list json)) (isoNow : string)
    (f : file entry) (writable : bool) : file entry * reply :=
  if negb authenticated then (f, RedirectTo "/login") else
  if negb (Js.truthy projectId) then
    (f, Json 400 (JObj [("error", JStr "Project ID is required")]))
  else
    let chatHistory := getChatHistory f in
    let chatData :=
      {| project_id := projectId;
         timestamp := isoNow;
         messages := array_or_empty b_messages;
         file_context := array_or_empty b_file_context |} in
    let chatHistory' :=
      upsert (fun chat => String.eqb (project_id chat) projectId) chatData chatHistory in
    if writable then (Holds chatHistory', Json 200 (JObj [("success", JBool true)]))
    else (f, Json 500 (JObj [("error", JStr "Failed to save chat history")])).

(** [app.delete('/api/chat/:projectId')] *)
Definition delete (authenticated : bool) (projectId : string) (f : file entry)
    (writable : bool) : file entry * reply :=
  if negb authenticated then (f, RedirectTo "/login") else
  let chatHistory :=
    List.filter (fun chat => negb (String.eqb (project_id chat) projectId))
      (getChatHistory f) in
  if writable then (Holds chatHistory, Json 200 (JObj [("success", JBool true)]))
  else (f, Json 500 (JObj [("error", JStr "Failed to delete chat history")])).

(** [socket.on('save-chat-history')]: the object the client sends is stored
    as it is, under its own [project_id]. *)
Definition save_chat_history (history : entry) (f : file entry) (writable : bool)
  : file entry * list action :=
  let chatHistory := getChatHistory f in
  let chatHistory' :=
    upsert (fun chat => String.eqb (project_id chat) (project_id history))
      history chatHistory in
  if writable then (Holds chatHistory', [Emit "chat-history-saved" (Fields [("success", "true")])])
  else (f, [Emit "chat-history-saved"
              (Fields [("success", "false"); ("error", "Failed to save chat history")])]).

End Chat.

(** The records of a list that carry a given key. *)
Definition with_key {A : Type} (key : A -> string) (k : string) (l : list A) : list A :=
  List.filter (fun x => String.eqb (key x) k) l.

(** ** Login, the session and the pages *)

(** [String.prototype.trim] on strings of code units below 256: tab, line
    feed, vertical tab, form feed, carriage return, space and no-break
    space are white space. *)
Module JsTrim.

Definition is_space (ch : ascii) : bool :=
  let n := nat_of_ascii ch in
  (Nat.leb 9 n && Nat.leb n 13) || Nat.eqb n 32 || Nat.eqb n 160.

Fixpoint trim_start (s : string) : string :=
  match s with
  | EmptyString => EmptyString
  | String ch rest => if is_space ch then trim_start rest else s
  end.

Fixpoint trim_end (s : string) : string :=
  match s with
  | EmptyString => EmptyString
  | String ch rest =>
      match trim_end rest with
      | EmptyString => if is_space ch then EmptyString else String ch EmptyString
      | kept => String ch kept
      end
  end.

Definition trim (s : string) : string := trim_end (trim_start s).

End JsTrim.

(** [process.env] as far as the login reads it. *)
Record environment := Environment {
  env_ADMIN_USERNAME : field;
  env_ADMIN_PASSWORD : field
}.

(** [process.env.ADMIN_USERNAME || 'admin'] *)
Definition ADMIN_USERNAME (e : environment) : string :=
  field_or (env_ADMIN_USERNAME e) "admin".

(** [process.env.ADMIN_PASSWORD || 'admin123'] *)
Definition ADMIN_PASSWORD (e : environment) : string :=
  field_or (env_ADMIN_PASSWORD e) "admin123".

(** [x === s] for a body field and a string. *)
Definition field_is (x : field) (s : string) : bool :=
  match x with
  | Some v => String.eqb v s
  | None => false
  end.

Module Session.

(** [req.session.sshConfig]; the port is the text of the form, or the
    number 22. *)
Record ssh_config := SshConfig {
  host : string;
  port : json;
  username : string;
  password : field;
  mode : string;
  initialPath : string
}.

(** [req.session] *)
Record t := Make {
  isAuthenticated : bool;
  sshConfig : option ssh_config
}.

(** A session the store has just created. *)
Definition fresh_session : t := {| isAuthenticated := false; sshConfig := None |}.

(** The body of POST /connect. *)
Record connect_body := ConnectBody {
  b_host : field;
  b_port : field;
  b_username : field;
  b_password : field;
  b_mode : field;
  b_initialPathOption : field;
  b_initialPath : field
}.

(** [app.get('/login')] *)
Definition get_login : reply := Render "app_login" [("error", JNull)].

(** [app.post('/login')] *)
Definition post_login (e : environment) (b_username b_password : field) (s : t)
  : t * reply :=
  if field_is b_username (ADMIN_USERNAME e) && field_is b_password (ADMIN_PASSWORD e) then
    ({| isAuthenticated := true; sshConfig := sshConfig s |}, RedirectTo "/")
  else (s, Render "app_login" [("error", JStr "Invalid username or password")]).

(** [app.get('/logout')]: the flags are cleared, the registry entry under
    [req.session.id] is torn down, the session is destroyed. *)
Definition get_logout (reg : registry) (sessionId : string) (s : t)
  : js_result (t * registry * reply) :=
  match http_teardown reg sessionId with
  | Threw exn => Threw exn
  | Returned reg' => Returned (fresh_session, reg', RedirectTo "/login")
  end.

(** [app.get('/')] *)
Definition get_root (s : t) (f : file Connections.entry) : reply :=
  if negb (isAuthenticated s) then RedirectTo "/login"
  else Render "login"
         [("error", JNull);
          ("savedConnections",
           JArr (map Connections.entry_json (Connections.getSavedConnections f)))].

(** [app.post('/connect')] *)
Definition post_connect (b : connect_body) (s : t) (f : file Connections.entry)
  : t * reply :=
  if negb (isAuthenticated s) then (s, RedirectTo "/login") else
  if missing (b_host b) || missing (b_username b) then
    (s, Render "login"
          [("error", JStr "Host and username are required");
           ("savedConnections",
            JArr (map Connections.entry_json (Connections.getSavedConnections f)))])
  else
    let directoryPath :=
      if field_is (b_initialPathOption b) "custom" &&
         negb (missing (b_initialPath b)) &&
         Js.truthy (JsTrim.trim (text_of (b_initialPath b)))
      then JsTrim.trim (text_of (b_initialPath b))
      else "/home" in
    ({| isAuthenticated := isAuthenticated s;
        sshConfig :=
          Some {| host := text_of (b_host b);
                  port := if missing (b_port b) then JNum 22 else JStr (text_of (b_port b));
                  username := text_of (b_username b);
                  password := b_password b;
                  mode := field_or (b_mode b) "terminal";
                  initialPath := directoryPath |} |},
     if field_is (b_mode b) "filemanager" then RedirectTo "/file_manager"
     else if field_is (b_mode b) "chat" then RedirectTo "/chat"
     else RedirectTo "/terminal").

Definition with_mode (c : ssh_config) (m : string) : ssh_config :=
  {| host := host c; port := port c; username := username c; password := password c;
     mode := m; initialPath := initialPath c |}.

Definition password_json (p : field) : list (string * json) :=
  match p with
  | Some v => [("password", JStr v)]
  | None => []
  end.

Definition page_locals (c : ssh_config) : list (string * json) :=
  [("host", JStr (host c)); ("port", port c); ("username", JStr (username c))] ++
  password_json (password c) ++ [("initialPath", JStr (initialPath c))].

(** The body shared by [app.get('/terminal')] and [app.get('/file_manager')]:
    without a configuration back to the start page; [switchMode] in the
    query records the page as the mode. *)
Definition get_page (view m : string) (switchMode : field) (s : t) : t * reply :=
  if negb (isAuthenticated s) then (s, RedirectTo "/login") else
  match sshConfig s with
  | None => (s, RedirectTo "/")
  | Some c =>
      let c' := if negb (missing switchMode) then with_mode c m else c in
      ({| isAuthenticated := isAuthenticated s; sshConfig := Some c' |},
       Render view (page_locals c'))
  end.

(** [app.get('/terminal')] *)
Definition get_terminal := get_page "terminal" "terminal".

(** [app.get('/file_manager')] *)
Definition get_file_manager := get_page "file_manager" "filemanager".

(** [app.get('/chat')]; the project of the chat is host, user and
    directory joined by underscores.  The model names of [AI_MODELS] are
    passed on as they are. *)
Definition projectId_of (c : ssh_config) : string :=
  host c +:+ "_" +:+ username c +:+ "_" +:+ initialPath c.

Definition AI_MODELS : json :=
  JObj [("openai", JObj [("model", JStr "o3-mini-2025-01-31");
                         ("apiVersion", JStr "2023-05-15")]);
        ("deepseek", JObj [("model", JStr "deepseek-reasoner")]);
        ("anthropic", JObj [("model", JStr "claude-3-7-sonnet-20250219");
                            ("apiVersion", JStr "2023-06-01")])].

Definition get_chat (switchMode : field) (s : t) : t * reply :=
  if negb (isAuthenticated s) then (s, RedirectTo "/login") else
  match sshConfig s with
  | None => (s, RedirectTo "/")
  | Some c =>
      let c' := if negb (missing switchMode) then with_mode c "chat" else c in
      ({| isAuthenticated := isAuthenticated s; sshConfig := Some c' |},
       Render "chat"
         (page_locals c' ++ [("projectId", JStr (projectId_of c')); ("aiModels", AI_MODELS)]))
  end.

(** [app.get('/disconnect')] *)
Definition get_disconnect (reg : registry) (sessionId : string) (s : t)
  : js_result (t * registry * reply) :=
  if negb (isAuthenticated s) then Returned (s, reg, RedirectTo "/login") else
  match http_teardown reg sessionId with
  | Threw exn => Threw exn
  | Returned reg' =>
      Returned ({| isAuthenticated := isAuthenticated s; sshConfig := None |}, reg',
                RedirectTo "/")
  end.

End Session.

(** The string has no white space at either end. *)
Definition trimmed (s : string) : Prop := JsTrim.trim s = s.

Definition sample_connect_body : Session.connect_body :=
  {| Session.b_host := Some "10.0.0.5"; Session.b_port := None;
     Session.b_username := Some "deploy"; Session.b_password := Some "secret";
     Session.b_mode := Some "filemanager";
     Session.b_initialPathOption := Some "custom";
     Session.b_initialPath := Some "  /srv/www " |}.

Definition logged_in : Session.t :=
  {| Session.isAuthenticated := true; Session.sshConfig := None |}.

(** ** The HTTP file endpoints *)

(** [app.get('/file/download')]: the file is piped to the response under
    the last segment of its path.  With a misled guard the call of
    [createReadStream] throws out of the route. *)
Definition file_download (authenticated : bool) (reg : registry)
    (q_path q_sessionId : field) : js_result (reply * list action) :=
  if negb authenticated then Returned (RedirectTo "/login", []) else
  if missing q_path || missing q_sessionId then
    Returned (SendText 400 "Missing path or session ID", [])
  else
    match file_guard reg (text_of q_sessionId) with
    | Refused => Returned (SendText 404 "No active SFTP connection", [])
    | Misled => Threw "TypeError: sshConn.sftp.createReadStream is not a function"
    | Granted s _ =>
        let path := text_of q_path in
        let filename := Js.pop (Js.split Js.slash path) in
        Returned
          (Streamed [("Content-Disposition", "attachment; filename=" +:+ Js.quoted filename)],
           [Sftp s (CreateReadStream path)])
    end.

(** [app.get('/file/content')]; a read stream that cannot be created
    throws out of the route. *)
Definition file_content (authenticated : bool) (reg : registry)
    (q_path q_sessionId : field) (reading : read_outcome)
  : js_result (reply * list action) :=
  if negb authenticated then Returned (RedirectTo "/login", []) else
  if missing q_path || missing q_sessionId then
    Returned (Json 400 (JObj [("error", JStr "Missing path or session ID")]), [])
  else
    match file_guard reg (text_of q_sessionId) with
    | Refused => Returned (Json 404 (JObj [("error", JStr "No active SFTP connection")]), [])
    | Misled => Threw "TypeError: sshConn.sftp.createReadStream is not a function"
    | Granted s _ =>
        let path := text_of q_path in
        match reading with
        | ReadThrows msg => Threw msg
        | ReadEnd chunks =>
            Returned (Json 200 (JObj [("content", JStr (Js.collect chunks))]),
                      [Sftp s (CreateReadStream path)])
        | ReadError msg =>
            Returned (Json 500 (JObj [("error", JStr ("Failed to read file: " +:+ msg))]),
                      [Sftp s (CreateReadStream path)])
        end
    end.

(** What the remote side holds under a directory, as far as the archive
    walk can see: a file (with whether its read stream can be created) or
    a directory with the answer of [readdir] on it, [None] for an error. *)
#[warnings="-register-all"]
Inductive remote_node :=
| RFile (filename : string) (opens : bool)
| RDir (filename : string) (listing : option (list remote_node)).

(** What the walk does, in order. *)
Inductive archive_step :=
| ReadDirectory (path : string)
| AppendFile (fullPath archivePath : string)
| Finalize.

(** The [for (const item of list)] loop with its [await]: a rejection
    inside stops the loop. *)
Definition for_each (visit : remote_node -> list archive_step * bool)
  : list remote_node -> list archive_step * bool :=
  fix loop (items : list remote_node) : list archive_step * bool :=
    match items with
    | [] => ([], true)
    | item :: rest =>
        let (steps, resolved) := visit item in
        if resolved then
          let (steps', resolved') := loop rest in (steps ++ steps', resolved')
        else (steps, false)
    end.

(** The body of the loop of [addDirectoryToArchive] for one item; the
    second component tells whether the promise resolves. *)
Fixpoint add_item (directoryPath relativePath : string) (item : remote_node)
  {struct item} : list archive_step * bool :=
  match item with
  | RFile filename opens =>
      let fullPath := directoryPath +:+ "/" +:+ filename in
      let archivePath :=
        if Js.truthy relativePath then relativePath +:+ "/" +:+ filename else filename in
      (if opens then [AppendFile fullPath archivePath] else [], true)
  | RDir filename listing =>
      let fullPath := directoryPath +:+ "/" +:+ filename in
      let archivePath :=
        if Js.truthy relativePath then relativePath +:+ "/" +:+ filename else filename in
      match listing with
      | None => ([ReadDirectory fullPath], false)
      | Some items =>
          let (steps, resolved) := for_each (add_item fullPath archivePath) items in
          (ReadDirectory fullPath :: steps, resolved)
      end
  end.

(** [addDirectoryToArchive(directoryPath, relativePath)] given the answer
    of [readdir] on the directory. *)
Definition addDirectoryToArchive (directoryPath relativePath : string)
    (listing : option (list remote_node)) : list archive_step * bool :=
  match listing with
  | None => ([ReadDirectory directoryPath], false)
  | Some items =>
      let (steps, resolved) := for_each (add_item directoryPath relativePath) items in
      (ReadDirectory directoryPath :: steps, resolved)
  end.

(** [app.post('/file/zip-download')]: both the then and the catch of the
    walk finalize the archive.  With a misled guard the call of [readdir]
    throws inside the promise of the walk, which is a rejection. *)
Definition zip_download (authenticated : bool) (reg : registry)
    (b_path b_sessionId : field) (now : N) (listing : option (list remote_node))
  : reply * list archive_step :=
  if negb authenticated then (RedirectTo "/login", []) else
  if missing b_path || missing b_sessionId then
    (Json 400 (JObj [("error", JStr "Missing path or session ID")]), [])
  else
    match file_guard reg (text_of b_sessionId) with
    | Refused => (Json 404 (JObj [("error", JStr "No active SFTP connection")]), [])
    | g =>
        let path := text_of b_path in
        let zipId := Js.of_number now in
        let dirName := Js.or_else (Js.pop (Js.split Js.slash path)) "folder" in
        let zipFileName := dirName +:+ "-" +:+ zipId +:+ ".zip" in
        (Streamed [("Content-Type", "application/zip");
                   ("Content-Disposition",
                    "attachment; filename=" +:+ Js.quoted zipFileName)],
         match g with
         | Misled => []
         | _ => fst (addDirectoryToArchive path EmptyString listing)
         end ++ [Finalize])
    end.

(** Every directory of the tree can be listed. *)
Fixpoint listable (item : remote_node) : bool :=
  match item with
  | RFile _ _ => true
  | RDir _ None => false
  | RDir _ (Some items) => forallb listable items
  end.

(** No entry of the tree has an empty name. *)
Fixpoint named (item : remote_node) : bool :=
  match item with
  | RFile filename _ => Js.truthy filename
  | RDir filename None => Js.truthy filename
  | RDir filename (Some items) => Js.truthy filename && forallb named items
  end.

(** The files of the tree whose read stream can be created. *)
Fixpoint readable_files (item : remote_node) : nat :=
  match item with
  | RFile _ opens => if opens then 1 else 0
  | RDir _ None => 0
  | RDir _ (Some items) => list_sum (map readable_files items)
  end.

Definition is_append (a : archive_step) : bool :=
  match a with AppendFile _ _ => true | _ => false end.

(** A directory with a readable file, a subdirectory that cannot be
    listed, and another readable file after it. *)
Definition broken_tree : list remote_node :=
  [RFile "a.txt" true; RDir "locked" None; RFile "z.txt" true].

(** [directoryPath] is the place of [relativePath] under [root]. *)
Definition under (root directoryPath relativePath : string) : Prop :=
  (relativePath = EmptyString /\ directoryPath = root) \/
  (relativePath <> EmptyString /\ directoryPath = root +:+ "/" +:+ relativePath).

(** What the statements say about the steps of a walk. *)
Definition walk_facts (root : string) (steps : list archive_step) (resolved : bool)
    (all_listable : bool) (readable : nat) : Prop :=
  (forall fullPath archivePath,
     In (AppendFile fullPath archivePath) steps ->
     fullPath = root +:+ "/" +:+ archivePath) /\
  resolved = all_listable /\
  ~ In Finalize steps /\
  (resolved = true -> length (List.filter is_append steps) = readable) /\
  (resolved = false -> exists before path, steps = before ++ [ReadDirectory path]).

(** ** Testing an API key *)

(** What [fetch] and [response.json()] give: the request fails, or a
    response arrives with its status and a body.  Of a body that parses
    the tests evaluate two expressions, and the body is kept as what they
    give.  [models]: the text [data.data.length] becomes in the message
    ([undefined] for a [data] without length), or [None] when its
    evaluation throws.  [error_message]: the value of
    [data.error?.message], [None] for undefined.  On the JSON text [null]
    both [data.data] and [data.error] throw. *)
Inductive response_body :=
| NotJson                                   (* response.json() rejects *)
| JsonNull
| JsonData (models : option string) (error_message : option json).

Inductive fetch_outcome :=
| FetchFails
| Responds (status : N) (body : response_body).

(** A JSON value used as a condition. *)
Definition json_truthy (v : json) : bool :=
  match v with
  | JNull => false
  | JBool b => b
  | JNum n => negb (n =? 0)%Z
  | JStr s => Js.truthy s
  | JArr _ | JObj _ => true
  end.

(** [m || dflt] for [m] the value of [data.error?.message]. *)
Definition message_or (m : option json) (dflt : string) : json :=
  match m with
  | Some v => if json_truthy v then v else JStr dflt
  | None => JStr dflt
  end.

(** [response.ok] *)
Definition response_ok (status : N) : bool := (200 <=? status)%N && (status <=? 299)%N.

Definition test_result (success : bool) (key text : string) : json :=
  JObj [("success", JBool success); (key, JStr text)].

(** [testOpenAIKey(apiKey)]: whatever throws inside the [try] is answered
    by the [catch]. *)
Definition testOpenAIKey (outcome : fetch_outcome) : json :=
  let caught := test_result false "error" "Network error or invalid API key" in
  match outcome with
  | Responds status (JsonData models error_message) =>
      if response_ok status then
        match models with
        | Some n =>
            test_result true "message"
              ("Connection successful. Available models: " +:+ n +:+
               ". Using model: o3-mini-2025-01-31")
        | None => caught
        end
      else
        JObj [("success", JBool false);
              ("error", message_or error_message "Invalid API key or API error")]
  | Responds _ JsonNull | Responds _ NotJson | FetchFails => caught
  end.

(** [testDeepseekKey(apiKey)] *)
Definition testDeepseekKey (outcome : fetch_outcome) : json :=
  match outcome with
  | Responds status _ =>
      if (status =? 401)%N then test_result false "error" "Invalid API key"
      else test_result true "message"
             "Connection potentially valid. Using model: deepseek-reasoner"
  | FetchFails =>
      test_result true "message"
        "API key format valid, but full verification not available. Using model: deepseek-reasoner"
  end.

(** [testAnthropicKey(apiKey)]: the [catch] answers with a success. *)
Definition testAnthropicKey (outcome : fetch_outcome) : json :=
  let caught :=
    test_result true "message"
      "API key format valid, but full verification not available. Using model: claude-3-7-sonnet-20250219" in
  match outcome with
  | Responds status (JsonData _ error_message) =>
      if (status =? 401)%N || (status =? 403)%N then
        JObj [("success", JBool false); ("error", message_or error_message "Invalid API key")]
      else test_result true "message" "API key valid. Using model: claude-3-7-sonnet-20250219"
  | Responds status JsonNull =>
      if (status =? 401)%N || (status =? 403)%N then caught
      else test_result true "message" "API key valid. Using model: claude-3-7-sonnet-20250219"
  | Responds _ NotJson | FetchFails => caught
  end.

(** [app.post('/api/apikeys/test')]; the second component lists the
    addresses fetched. *)
Definition apikeys_test (authenticated : bool) (b_provider b_apiKey : field)
    (outcome : fetch_outcome) : reply * list string :=
  if negb authenticated then (RedirectTo "/login", []) else
  if missing b_provider || missing b_apiKey then
    (Json 400 (JObj [("error", JStr "Provider and API key are required")]), [])
  else if String.eqb (text_of b_provider) "openai" then
    (Json 200 (testOpenAIKey outcome), ["https://api.openai.com/v1/models"])
  else if String.eqb (text_of b_provider) "deepseek" then
    (Json 200 (testDeepseekKey outcome), ["https://api.deepseek.com/v1/models"])
  else if String.eqb (text_of b_provider) "anthropic" then
    (Json 200 (testAnthropicKey outcome), ["https://api.anthropic.com/v1/messages"])
  else (Json 200 (JObj [("success", JBool false); ("error", JStr "Unsupported provider")]), []).

(** The [success] field of a test result. *)
Definition reports_success (j : json) : bool :=
  match j with
  | JObj (("success", JBool b) :: _) => b
  | _ => false
  end.

(** ** The HTTP routes together *)

(** The process state one browser session meets: its session object, the
    registry, and the three files under data/. *)
Record server := Server {
  session : Session.t;
  connections : registry;
  savedConnectionsFile : file Connections.entry;
  apiKeysFile : file ApiKeys.entry;
  chatHistoryFile : file Chat.entry
}.

(** One request for each [app.get], [app.post] and [app.delete]. *)
Inductive http_request :=
| GET_login
| POST_login (username password : field)
| GET_logout
| GET_root
| GET_api_connections
| POST_api_connections (body : Connections.body)
| DELETE_api_connections (name : string)
| GET_api_apikeys
| POST_api_apikeys (provider apiKey : field)
| DELETE_api_apikeys (provider : string)
| POST_api_apikeys_test (provider apiKey : field)
| GET_api_ai_models
| GET_api_chat (projectId : string)
| POST_api_chat (projectId : string) (messages file_context : option (list json))
| DELETE_api_chat (projectId : string)
| POST_connect (body : Session.connect_body)
| GET_terminal (switchMode : field)
| GET_file_manager (switchMode : field)
| GET_chat (switchMode : field)
| GET_disconnect
| GET_file_download (path sessionId : field)
| POST_file_zip_download (path sessionId : field)
| GET_monaco_editor_resources
| GET_file_content (path sessionId : field)
| POST_file_save (path : field) (content : field) (sessionId : field).

(** What the outside contributes while one request is served. *)
Record world := World {
  w_sessionId : string;             (* req.session.id *)
  w_isoNow : string;                (* new Date().toISOString() *)
  w_now : N;                        (* Date.now() *)
  w_writable : bool;                (* fs.writeFileSync goes through *)
  w_fetch : fetch_outcome;
  w_reading : read_outcome;
  w_listing : option (list remote_node);
  w_write_error : sftp_outcome
}.

(** What one request brings about besides the new state. *)
Record observed := Observed {
  answer : reply;
  remote_calls : list action;
  archive_steps : list archive_step;
  fetched : list string
}.

Definition just (r : reply) : observed :=
  {| answer := r; remote_calls := []; archive_steps := []; fetched := [] |}.

Definition payload_json (p : payload) : json :=
  match p with
  | NoPayload => JNull
  | Text msg => JStr msg
  | Fields kv => JObj (map (fun e => (fst e, JStr (snd e))) kv)
  | Listing path _ => JStr path
  end.

(** The expression at which a trace throws, if it does. *)
Definition raised (t : list action) : option string :=
  List.last (map (fun a => match a with Raise site => Some site | _ => None end) t) None.

(** The trace of [http_file_save] split into its answer and its calls. *)
Definition answer_of (t : list action) : reply :=
  match List.filter (fun a => negb (is_remote_call a)) t with
  | HttpReply status body :: _ => Json status (payload_json body)
  | Redirect location :: _ => RedirectTo location
  | _ => SendText 500 EmptyString
  end.

Definition with_session (srv : server) (s : Session.t) : server :=
  {| session := s; connections := connections srv;
     savedConnectionsFile := savedConnectionsFile srv;
     apiKeysFile := apiKeysFile srv; chatHistoryFile := chatHistoryFile srv |}.

(** The router: the route of the request runs on the state. *)
Definition serve (e : environment) (w : world) (srv : server) (req : http_request)
  : js_result (server * observed) :=
  let s := session srv in
  let auth := Session.isAuthenticated s in
  match req with
  | GET_login => Returned (srv, just Session.get_login)
  | POST_login username password =>
      let (s', r) := Session.post_login e username password s in
      Returned (with_session srv s', just r)
  | GET_logout =>
      match Session.get_logout (connections srv) (w_sessionId w) s with
      | Threw exn => Threw exn
      | Returned (s', reg', r) =>
          Returned ({| session := s'; connections := reg';
                       savedConnectionsFile := savedConnectionsFile srv;
                       apiKeysFile := apiKeysFile srv;
                       chatHistoryFile := chatHistoryFile srv |}, just r)
      end
  | GET_root => Returned (srv, just (Session.get_root s (savedConnectionsFile srv)))
  | GET_api_connections =>
      Returned (srv, just (Connections.get auth (savedConnectionsFile srv)))
  | POST_api_connections body =>
      let (f, r) := Connections.post auth body (w_isoNow w) (savedConnectionsFile srv)
                      (w_writable w) in
      Returned ({| session := s; connections := connections srv;
                   savedConnectionsFile := f; apiKeysFile := apiKeysFile srv;
                   chatHistoryFile := chatHistoryFile srv |}, just r)
  | DELETE_api_connections name =>
      let (f, r) := Connections.delete auth name (savedConnectionsFile srv) (w_writable w) in
      Returned ({| session := s; connections := connections srv;
                   savedConnectionsFile := f; apiKeysFile := apiKeysFile srv;
                   chatHistoryFile := chatHistoryFile srv |}, just r)
  | GET_api_apikeys => Returned (srv, just (ApiKeys.get auth (apiKeysFile srv)))
  | POST_api_apikeys provider apiKey =>
      let (f, r) := ApiKeys.post auth provider apiKey (w_isoNow w) (apiKeysFile srv)
                      (w_writable w) in
      Returned ({| session := s; connections := connections srv;
                   savedConnectionsFile := savedConnectionsFile srv; apiKeysFile := f;
                   chatHistoryFile := chatHistoryFile srv |}, just r)
  | DELETE_api_apikeys provider =>
      let (f, r) := ApiKeys.delete auth provider (apiKeysFile srv) (w_writable w) in
      Returned ({| session := s; connections := connections srv;
                   savedConnectionsFile := savedConnectionsFile srv; apiKeysFile := f;
                   chatHistoryFile := chatHistoryFile srv |}, just r)
  | POST_api_apikeys_test provider apiKey =>
      let (r, urls) := apikeys_test auth provider apiKey (w_fetch w) in
      Returned (srv, {| answer := r; remote_calls := []; archive_steps := [];
                        fetched := urls |})
  | GET_api_ai_models =>
      Returned (srv, just (if negb auth then RedirectTo "/login"
                           else Json 200 Session.AI_MODELS))
  | GET_api_chat projectId =>
      Returned (srv, just (Chat.get auth projectId (w_isoNow w) (chatHistoryFile srv)))
  | POST_api_chat projectId messages file_context =>
      let (f, r) := Chat.post auth projectId messages file_context (w_isoNow w)
                      (chatHistoryFile srv) (w_writable w) in
      Returned ({| session := s; connections := connections srv;
                   savedConnectionsFile := savedConnectionsFile srv;
                   apiKeysFile := apiKeysFile srv; chatHistoryFile := f |}, just r)
  | DELETE_api_chat projectId =>
      let (f, r) := Chat.delete auth projectId (chatHistoryFile srv) (w_writable w) in
      Returned ({| session := s; connections := connections srv;
                   savedConnectionsFile := savedConnectionsFile srv;
                   apiKeysFile := apiKeysFile srv; chatHistoryFile := f |}, just r)
  | POST_connect body =>
      let (s', r) := Session.post_connect body s (savedConnectionsFile srv) in
      Returned (with_session srv s', just r)
  | GET_terminal switchMode =>
      let (s', r) := Session.get_terminal switchMode s in
      Returned (with_session srv s', just r)
  | GET_file_manager switchMode =>
      let (s', r) := Session.get_file_manager switchMode s in
      Returned (with_session srv s', just r)
  | GET_chat switchMode =>
      let (s', r) := Session.get_chat switchMode s in
      Returned (with_session srv s', just r)
  | GET_disconnect =>
      match Session.get_disconnect (connections srv) (w_sessionId w) s with
      | Threw exn => Threw exn
      | Returned (s', reg', r) =>
          Returned ({| session := s'; connections := reg';
                       savedConnectionsFile := savedConnectionsFile srv;
                       apiKeysFile := apiKeysFile srv;
                       chatHistoryFile := chatHistoryFile srv |}, just r)
      end
  | GET_file_download path sessionId =>
      match file_download auth (connections srv) path sessionId with
      | Threw exn => Threw exn
      | Returned (r, calls) =>
          Returned (srv, {| answer := r; remote_calls := calls; archive_steps := [];
                            fetched := [] |})
      end
  | POST_file_zip_download path sessionId =>
      let (r, steps) := zip_download auth (connections srv) path sessionId (w_now w)
                          (w_listing w) in
      Returned (srv, {| answer := r; remote_calls := []; archive_steps := steps;
                        fetched := [] |})
  | GET_monaco_editor_resources =>
      Returned (srv, just (if negb auth then RedirectTo "/login"
                           else Json 200 (JObj [("available", JBool true);
                                                ("version", JStr "0.43.0")])))
  | GET_file_content path sessionId =>
      match file_content auth (connections srv) path sessionId (w_reading w) with
      | Threw exn => Threw exn
      | Returned (r, calls) =>
          Returned (srv, {| answer := r; remote_calls := calls; archive_steps := [];
                            fetched := [] |})
      end
  | POST_file_save path content sessionId =>
      let t := http_file_save (connections srv) auth (text_of path) content
                 (text_of sessionId) (w_write_error w) in
      match raised t with
      | Some site => Threw ("TypeError: " +:+ site +:+ " is not a function")
      | None =>
          Returned (srv, {| answer := answer_of t;
                            remote_calls := List.filter is_remote_call t;
                            archive_steps := []; fetched := [] |})
      end
  end.

(** The routes registered behind [isAuthenticated]. *)
Definition protected (req : http_request) : bool :=
  match req with
  | GET_login | POST_login _ _ | GET_logout => false
  | _ => true
  end.

(** Requests served one after the other, each in its own world; an
    exception ends the run. *)
Fixpoint serve_all (e : environment) (srv : server) (reqs : list (world * http_request))
  : js_result (server * list observed) :=
  match reqs with
  | [] => Returned (srv, [])
  | (w, req) :: rest =>
      match serve e w srv req with
      | Threw exn => Threw exn
      | Returned (srv', o) =>
          match serve_all e srv' rest with
          | Threw exn => Threw exn
          | Returned (srv'', os) => Returned (srv'', o :: os)
          end
      end
  end.

(** A login with the configured credentials. *)
Definition good_login (e : environment) (req : http_request) : Prop :=
  req = POST_login (Some (ADMIN_USERNAME e)) (Some (ADMIN_PASSWORD e)).

(** The request caused nothing outside the process. *)
Definition quiet (o : observed) : Prop :=
  remote_calls o = [] /\ archive_steps o = [] /\ fetched o = [].

Definition default_environment : environment :=
  {| env_ADMIN_USERNAME := None; env_ADMIN_PASSWORD := None |}.

Definition sample_world : world :=
  {| w_sessionId := "other"; w_isoNow := "2024-05-01T10:00:00.000Z"; w_now := 17%N;
     w_writable := true; w_fetch := FetchFails; w_reading := ReadEnd [];
     w_listing := None; w_write_error := None |}.

(** A visitor who has not logged in, while an SFTP session is registered. *)
Definition guest_server : server :=
  {| session := Session.fresh_session; connections := demo_registry;
     savedConnectionsFile := Unreadable; apiKeysFile := Unreadable;
     chatHistoryFile := Unreadable |}.

Definition guest_requests : list (world * http_request) :=
  [(sample_world, POST_login (Some "admin") (Some "guess"));
   (sample_world, GET_file_content (Some "/etc/passwd") (Some "sess"));
   (sample_world, DELETE_api_connections "web")].

(** ** The generators of the setup scripts *)

Module Secrets.

(** The digits of [Buffer.toString('hex')]. *)
Definition hex_digits : string := "0123456789abcdef".

(** One hexadecimal digit. *)
Definition hex_digit (n : N) : ascii :=
  match String.get (N.to_nat n) hex_digits with
  | Some ch => ch
  | None => "0"%char
  end.

(** [buffer.toString('hex')]: two digits for a byte, high one first. *)
Definition to_hex (buffer : list N) : string :=
  fold_right (fun b rest => String (hex_digit (b / 16)) (String (hex_digit (b mod 16)) rest))
    EmptyString buffer.

(** [s.slice(0, n)] *)
Definition slice_to (n : nat) (s : string) : string := String.substring 0 n s.

(** [s.charAt(i)] *)
Definition charAt (s : string) (i : nat) : string :=
  match String.get i s with
  | Some ch => String ch EmptyString
  | None => EmptyString
  end.

(** [generateRandomString(length)] of the env-file generator, given the
    bytes [crypto.randomBytes(length)] returned. *)
Definition generateRandomString (randomBytes : list N) : string := to_hex randomBytes.

(** The alphabet of the env-file generator. *)
Definition chars : string :=
  "ABCDEFGHIJKLMNOPQRSTUVWXYZabcdefghijklmnopqrstuvwxyz0123456789!@#$%^&*()-_=+".

(** [randomBytes[i] % chars.length] *)
Definition randomIndex (b : N) : nat := N.to_nat (b mod N.of_nat (String.length chars)).

(** [generateSecurePassword(length)] of the env-file generator: one
    character of the alphabet for each random byte. *)
Definition generateSecurePassword (randomBytes : list N) : string :=
  fold_left (fun password b => password +:+ charAt chars (randomIndex b))
    randomBytes EmptyString.

(** [generateSecurePassword(length)] of the production setup script:
    [crypto.randomBytes(length).toString('hex').slice(0, length)]. *)
Definition generateSecurePassword_setup (length : nat) (randomBytes : list N) : string :=
  slice_to length (to_hex randomBytes).

End Secrets.

(** Every character of [s] occurs in [alphabet]. *)
Fixpoint drawn_from (alphabet s : string) : bool :=
  match s with
  | EmptyString => true
  | String ch rest =>
      Js.includes alphabet (String ch EmptyString) && drawn_from alphabet rest
  end.

(** What [crypto.randomBytes] returns: values below 256. *)
Definition is_byte (b : N) : Prop := (b < 256)%N.

(** The byte values, 0 to 255. *)
Definition byte_values : list N := map N.of_nat (seq 0 256).

(** How many byte values select the character at an index. *)
Definition selectors (i : nat) : nat :=
  length (List.filter (fun b => Nat.eqb (Secrets.randomIndex b) i) byte_values).

(** ** Pruning of old backups (scripts/backup.js) *)

Module Backup.

(** A JavaScript number; [None] is NaN, the value of an invalid [Date]. *)
Definition number : Type := option Z.

(** What the script reads from [backup.date]: [getWeekNumber(date)] and
    [date.getMonth() + '-' + date.getFullYear()]. *)
Record calendar_date : Type := {
  weekNumber : number;
  monthKey : string
}.

(** One element of the array [backups]. *)
Record backup : Type := {
  file : string;
  date : calendar_date;
  timestamp : number
}.

(** [a >= b] and [a < b] for a date [a] that may be invalid; both are
    false on NaN. *)
Definition ge (a : number) (b : Z) : bool :=
  match a with
  | Some x => (b <=? x)%Z
  | None => false
  end.

Definition lt (a : number) (b : Z) : bool :=
  match a with
  | Some x => (x <? b)%Z
  | None => false
  end.

(** [a === b] on numbers: NaN equals nothing. *)
Definition number_eqb (a b : number) : bool :=
  match a, b with
  | Some x, Some y => (x =? y)%Z
  | _, _ => false
  end.

(** [current !== value], for a variable that starts as [null]. *)
Definition differs {A : Type} (eqb : A -> A -> bool) (current : option A) (value : A) : bool :=
  match current with
  | None => true
  | Some c => negb (eqb c value)
  end.

(** The loops over [olderBackups]: among the backups of the period, push
    each one whose key is not the current one, and make its key current. *)
Fixpoint first_of_each {A : Type} (eqb : A -> A -> bool) (in_period : backup -> bool)
    (key : backup -> A) (current : option A) (olderBackups : list backup) : list backup :=
  match olderBackups with
  | [] => []
  | b :: rest =>
      if in_period b then
        if differs eqb current (key b) then
          b :: first_of_each eqb in_period key (Some (key b)) rest
        else first_of_each eqb in_period key current rest
      else first_of_each eqb in_period key current rest
  end.

(** [toKeep.has(name)] *)
Definition has (toKeep : list string) (name : string) : bool :=
  existsb (String.eqb name) toKeep.

Definition recentBackups (sevenDaysAgo : Z) (backups : list backup) : list backup :=
  List.filter (fun b => ge (timestamp b) sevenDaysAgo) backups.

Definition olderBackups (sevenDaysAgo : Z) (backups : list backup) : list backup :=
  List.filter (fun b => lt (timestamp b) sevenDaysAgo) backups.

Definition weeklyBackups (sevenDaysAgo oneMonthAgo : Z) (backups : list backup) : list backup :=
  first_of_each number_eqb (fun b => ge (timestamp b) oneMonthAgo)
    (fun b => weekNumber (date b)) None (olderBackups sevenDaysAgo backups).

Definition monthlyBackups (sevenDaysAgo oneMonthAgo : Z) (backups : list backup) : list backup :=
  first_of_each String.eqb (fun b => lt (timestamp b) oneMonthAgo)
    (fun b => monthKey (date b)) None (olderBackups sevenDaysAgo backups).

Definition toKeep (sevenDaysAgo oneMonthAgo : Z) (backups : list backup) : list string :=
  map file (recentBackups sevenDaysAgo backups)
  ++ map file (weeklyBackups sevenDaysAgo oneMonthAgo backups)
  ++ map file (monthlyBackups sevenDaysAgo oneMonthAgo backups).

Definition toDelete (sevenDaysAgo oneMonthAgo : Z) (backups : list backup) : list backup :=
  List.filter (fun b => negb (has (toKeep sevenDaysAgo oneMonthAgo backups) (file b))) backups.

(** [pruneOldBackups], from the array [backups] as the sort leaves it: the
    backups [fs.unlinkSync] is called on, in order.  [sevenDaysAgo] and
    [oneMonthAgo] are the two dates computed from the clock. *)
Definition pruneOldBackups (sevenDaysAgo oneMonthAgo : Z) (backups : list backup) : list backup :=
  if (length backups <=? 7)%nat then []
  else toDelete sevenDaysAgo oneMonthAgo backups.

End Backup.

(** A backup with the given name, week, month and time. *)
Definition backup_at (name : string) (week : Z) (month : string) (time : Backup.number) : Backup.backup :=
  {| Backup.file := name;
     Backup.date := {| Backup.weekNumber := Some week; Backup.monthKey := month |};
     Backup.timestamp := time |}.

(** Nine backups seen at time 1000, a week being 70 and a month 300. *)
Definition sample_backups : list Backup.backup :=
  [ backup_at "b9" 14 "2-2024" (Some 990%Z);
    backup_at "b8" 14 "2-2024" (Some 950%Z);
    backup_at "b7" 13 "2-2024" (Some 920%Z);
    backup_at "b6" 13 "2-2024" (Some 900%Z);
    backup_at "b5" 12 "2-2024" (Some 850%Z);
    backup_at "b4" 12 "2-2024" (Some 800%Z);
    backup_at "b3" 9 "1-2024" (Some 600%Z);
    backup_at "b2" 8 "1-2024" (Some 550%Z);
    backup_at "b1" 8 "1-2024" None ].

(** Eight backups whose timestamps are all invalid dates. *)
Definition undated_backups : list Backup.backup :=
  map (fun name => backup_at name 14 "2-2024" None)
    ["u1"; "u2"; "u3"; "u4"; "u5"; "u6"; "u7"; "u8"].
(** * Properties *)

(** *** Facts about the string primitives *)

Lemma starts_with_spec (p s : string) :
  Js.starts_with p s = true <-> exists t, s = p +:+ t.
Proof.
  revert s. induction p as [|a p IH]; intros s; simpl.
  - split; [intros _; now exists s | reflexivity].
  - destruct s as [|b s].
    + split; [discriminate | intros [t Ht]; discriminate].
    + rewrite andb_true_iff, Ascii.eqb_eq, IH. split.
      * intros [-> [t ->]]. now exists t.
      * intros [t Ht]. injection Ht as -> ->. split; [reflexivity | now exists t].
Qed.

Lemma includes_spec (hay needle : string) :
  Js.includes hay needle = true <->
  exists pre post, hay = pre +:+ needle +:+ post.
Proof.
  induction hay as [|c hay IH].
  - simpl. rewrite orb_false_r, starts_with_spec. split.
    + intros [t Ht]. exists EmptyString, t. exact Ht.
    + intros [pre [post H]]. destruct pre; simpl in H; [now exists post | discriminate].
  - cbn [Js.includes]. rewrite orb_true_iff, starts_with_spec, IH. split.
    + intros [[t Ht] | [pre [post H]]].
      * exists EmptyString, t. exact Ht.
      * exists (String c pre), post. simpl. now rewrite H.
    + intros [pre [post H]]. destruct pre as [|d pre]; simpl in H.
      * left. now exists post.
      * right. injection H as _ H. now exists pre, post.
Qed.

Lemma append_empty_r (s : string) : s +:+ EmptyString = s.
Proof. induction s as [|c s IH]; simpl; [reflexivity | f_equal; exact IH]. Qed.

Lemma append_assoc (a b c : string) : (a +:+ b) +:+ c = a +:+ (b +:+ c).
Proof. induction a as [|x a IH]; simpl; [reflexivity | f_equal; exact IH]. Qed.

Lemma collect_acc (chunks : list Buffer.t) (acc : string) :
  fold_left (fun acc data => acc +:+ Buffer.toString data) chunks acc =
  acc +:+ Js.collect chunks.
Proof.
  unfold Js.collect. revert acc.
  induction chunks as [|c chunks IH]; intros acc; cbn [fold_left].
  - now rewrite append_empty_r.
  - rewrite IH, (IH (EmptyString +:+ Buffer.toString c)). cbn [String.append].
    now rewrite append_assoc.
Qed.

Lemma collect_cons (c : Buffer.t) (chunks : list Buffer.t) :
  Js.collect (c :: chunks) = Buffer.toString c +:+ Js.collect chunks.
Proof. unfold Js.collect at 1. cbn [fold_left]. now rewrite collect_acc. Qed.

(** The collected text is the texts of the chunks, joined in their order. *)
Lemma collect_concat (chunks : list Buffer.t) :
  Js.collect chunks = String.concat EmptyString (map Buffer.toString chunks).
Proof.
  induction chunks as [|c chunks IH]; [reflexivity |].
  rewrite collect_cons, IH. cbn [map String.concat].
  destruct (map Buffer.toString chunks) as [|t ts] eqn:E.
  - simpl. now rewrite append_empty_r.
  - reflexivity.
Qed.


Lemma code_nonzero_spec (code : exit_code) :
  code_nonzero code = true <-> code <> Some 0%Z.
Proof.
  destruct code as [[|p|p]|]; simpl; split; intros H; congruence.
Qed.

Lemma failure_test_spec (code : exit_code) (out token : string) :
  code_nonzero code || Js.includes out token = true <-> fallback_failed code out token.
Proof.
  unfold fallback_failed, contains.
  now rewrite orb_true_iff, code_nonzero_spec, includes_spec.
Qed.

Lemma failure_test_false (code : exit_code) (out token : string) :
  code_nonzero code || Js.includes out token = false <->
  code = Some 0%Z /\ ~ contains out token.
Proof.
  rewrite orb_false_iff. split.
  - intros [Hc Hi]. split.
    + destruct code as [[|p|p]|]; simpl in Hc; congruence.
    + intros Hin. apply includes_spec in Hin. congruence.
  - intros [-> Hn]. split; [reflexivity |].
    destruct (Js.includes out token) eqn:E; [|reflexivity].
    exfalso. apply Hn. now apply includes_spec.
Qed.

Lemma not_failed_iff (code : exit_code) (out token : string) :
  ~ fallback_failed code out token <-> code = Some 0%Z /\ ~ contains out token.
Proof.
  rewrite <- failure_test_spec, <- failure_test_false.
  destruct (code_nonzero code || Js.includes out token); split; congruence.
Qed.

(** Case analysis on the test a close callback performs. *)
Ltac split_on_failure_test code out token :=
  let E := fresh "E" in
  destruct (code_nonzero code || Js.includes out token) eqn:E;
  [ apply failure_test_spec in E | apply failure_test_false in E ].

Section RegisteredSession.

Variables (reg : registry) (sid : string) (s c : handle).
Hypothesis registered : sftp_session reg sid = Some (s, c).

Lemma granted : file_guard reg sid = Granted s c.
Proof.
  generalize registered. unfold sftp_session.
  destruct (file_guard reg sid); intros H; try discriminate H.
  now injection H as -> ->.
Qed.

(** *** The close callbacks of the four fallbacks with a sentinel *)

Lemma delete_file_closed path isDir msg code stdout stderr :
  delete_file reg sid path isDir (Some msg) (ExecClosed code stdout stderr) =
  [Sftp s (if isDir then Rmdir path else Unlink path);
   Exec c (if isDir then rm_rf_command path else rm_command path);
   if code_nonzero code || Js.includes (Js.collect stdout) "RM_FAILED"
   then Emit "sftp-error"
          (Text ((if isDir then "Failed to delete directory with rm command: "
                  else "Failed to delete file with rm command: ")
                 +:+ Js.collect stderr))
   else Emit "delete-complete" NoPayload].
Proof.
  unfold delete_file. rewrite granted.
  destruct isDir;
    destruct (code_nonzero code || Js.includes (Js.collect stdout) "RM_FAILED");
    reflexivity.
Qed.

Lemma rename_file_closed oldPath newPath msg code stdout stderr :
  rename_file reg sid oldPath newPath (Some msg) (ExecClosed code stdout stderr) =
  [Sftp s (Rename oldPath newPath);
   Exec c (mv_command oldPath newPath);
   if code_nonzero code || Js.includes (Js.collect stdout) "MV_FAILED"
   then Emit "sftp-error" (Text ("Failed to rename with mv command: " +:+ Js.collect stderr))
   else Emit "rename-complete" NoPayload].
Proof.
  unfold rename_file. rewrite granted.
  destruct (code_nonzero code || Js.includes (Js.collect stdout) "MV_FAILED");
    reflexivity.
Qed.

Lemma create_folder_closed path msg code stdout stderr :
  create_folder reg sid path (Some msg) (ExecClosed code stdout stderr) =
  [Sftp s (Mkdir path);
   Exec c (mkdir_command path);
   if code_nonzero code || Js.includes (Js.collect stdout) "MKDIR_FAILED"
   then Emit "sftp-error"
          (Text ("Failed to create folder with mkdir command: " +:+ Js.collect stderr))
   else Emit "folder-created" NoPayload].
Proof.
  unfold create_folder. rewrite granted.
  destruct (code_nonzero code || Js.includes (Js.collect stdout) "MKDIR_FAILED");
    reflexivity.
Qed.

Lemma zip_directory_closed path now code stdout stderr retry :
  zip_directory reg sid path now (ExecClosed code stdout stderr) retry =
  Emit "zip-started" (Fields [("path", path); ("message", "Creating zip file...")]) ::
  Exec c (zip_command (zip_dir path +:+ zip_name path now) path) ::
  if code_nonzero code || Js.includes (Js.collect stdout) "ZIP_FAILED"
  then
    Exec c (temp_zip_command ("/tmp/" +:+ zip_name path now) path (zip_dir path)) ::
    match retry with
    | ExecRefused m => [Emit "sftp-error" (Text ("Failed to create zip: " +:+ m))]
    | ExecClosed sudoCode sudoStdout _ =>
        if code_nonzero sudoCode || Js.includes (Js.collect sudoStdout) "TEMP_ZIP_FAILED"
        then [Emit "sftp-error" (Text ("Failed to create zip file: " +:+ Js.collect stderr))]
        else [Emit "zip-complete" (Fields [("path", zip_dir path +:+ zip_name path now)])]
    end
  else [Emit "zip-complete" (Fields [("path", zip_dir path +:+ zip_name path now)])].
Proof.
  unfold zip_directory. rewrite granted. reflexivity.
Qed.

(** C1.  In delete-file, rename-file, create-folder and zip-directory the
    close callback of the shell command takes its failure branch exactly
    when the exit code is not zero or the collected standard output
    contains the sentinel of the operation (RM_FAILED, MV_FAILED,
    MKDIR_FAILED, ZIP_FAILED); with exit code zero and no sentinel the
    success notification is what the client gets.  The failure branch
    sends an sftp-error; in zip-directory it issues the second zip command
    in /tmp. *)
Theorem C1_sentinel_or_exit_code msg code stdout stderr :
  let out := Js.collect stdout in
  let closed := ExecClosed code stdout stderr in
  (forall path isDir,
     let t := delete_file reg sid path isDir (Some msg) closed in
     ((exists text, emitted t = [Emit "sftp-error" (Text text)]) <->
      fallback_failed code out "RM_FAILED") /\
     (code = Some 0%Z -> ~ contains out "RM_FAILED" ->
      emitted t = [Emit "delete-complete" NoPayload])) /\
  (forall oldPath newPath,
     let t := rename_file reg sid oldPath newPath (Some msg) closed in
     ((exists text, emitted t = [Emit "sftp-error" (Text text)]) <->
      fallback_failed code out "MV_FAILED") /\
     (code = Some 0%Z -> ~ contains out "MV_FAILED" ->
      emitted t = [Emit "rename-complete" NoPayload])) /\
  (forall path,
     let t := create_folder reg sid path (Some msg) closed in
     ((exists text, emitted t = [Emit "sftp-error" (Text text)]) <->
      fallback_failed code out "MKDIR_FAILED") /\
     (code = Some 0%Z -> ~ contains out "MKDIR_FAILED" ->
      emitted t = [Emit "folder-created" NoPayload])) /\
  (forall path now retry,
     let t := zip_directory reg sid path now closed retry in
     (commands t =
        [zip_command (zip_dir path +:+ zip_name path now) path;
         temp_zip_command ("/tmp/" +:+ zip_name path now) path (zip_dir path)] <->
      fallback_failed code out "ZIP_FAILED") /\
     (code = Some 0%Z -> ~ contains out "ZIP_FAILED" ->
      t = [Emit "zip-started" (Fields [("path", path); ("message", "Creating zip file...")]);
           Exec c (zip_command (zip_dir path +:+ zip_name path now) path);
           Emit "zip-complete" (Fields [("path", zip_dir path +:+ zip_name path now)])])).
Proof.
  intros out closed. subst out closed. repeat split.
  - rewrite delete_file_closed.
    split_on_failure_test code (Js.collect stdout) "RM_FAILED".
    + intros _. exact E.
    + intros [text H]. simpl in H. discriminate.
  - rewrite delete_file_closed. intros F. apply (proj2 (failure_test_spec _ _ _)) in F.
    rewrite F. simpl. eauto.
  - intros Hc Hn. rewrite delete_file_closed.
    rewrite (proj2 (failure_test_false _ _ _) (conj Hc Hn)). reflexivity.
  - rewrite rename_file_closed.
    split_on_failure_test code (Js.collect stdout) "MV_FAILED".
    + intros _. exact E.
    + intros [text H]. simpl in H. discriminate.
  - rewrite rename_file_closed. intros F. apply (proj2 (failure_test_spec _ _ _)) in F.
    rewrite F. simpl. eauto.
  - intros Hc Hn. rewrite rename_file_closed.
    rewrite (proj2 (failure_test_false _ _ _) (conj Hc Hn)). reflexivity.
  - rewrite create_folder_closed.
    split_on_failure_test code (Js.collect stdout) "MKDIR_FAILED".
    + intros _. exact E.
    + intros [text H]. simpl in H. discriminate.
  - rewrite create_folder_closed. intros F. apply (proj2 (failure_test_spec _ _ _)) in F.
    rewrite F. simpl. eauto.
  - intros Hc Hn. rewrite create_folder_closed.
    rewrite (proj2 (failure_test_false _ _ _) (conj Hc Hn)). reflexivity.
  - rewrite zip_directory_closed.
    split_on_failure_test code (Js.collect stdout) "ZIP_FAILED".
    + intros _. exact E.
    + intros H. simpl in H. discriminate.
  - rewrite zip_directory_closed. intros F. apply (proj2 (failure_test_spec _ _ _)) in F.
    rewrite F. destruct retry as [m|sudoCode sudoStdout sudoStderr]; simpl.
    + reflexivity.
    + destruct (code_nonzero sudoCode || _); reflexivity.
  - intros Hc Hn. rewrite zip_directory_closed.
    rewrite (proj2 (failure_test_false _ _ _) (conj Hc Hn)). reflexivity.
Qed.

(** The second zip command is judged the same way, with its own token. *)
Lemma zip_retry_classification path stamp code stdout stderr code2 stdout2 stderr2 :
  fallback_failed code (Js.collect stdout) "ZIP_FAILED" ->
  let t := zip_directory reg sid path stamp (ExecClosed code stdout stderr)
             (ExecClosed code2 stdout2 stderr2) in
  (emitted t =
     [Emit "zip-started" (Fields [("path", path); ("message", "Creating zip file...")]);
      Emit "sftp-error" (Text ("Failed to create zip file: " +:+ Js.collect stderr))] <->
   fallback_failed code2 (Js.collect stdout2) "TEMP_ZIP_FAILED") /\
  (emitted t =
     [Emit "zip-started" (Fields [("path", path); ("message", "Creating zip file...")]);
      Emit "zip-complete" (Fields [("path", zip_dir path +:+ zip_name path stamp)])] <->
   ~ fallback_failed code2 (Js.collect stdout2) "TEMP_ZIP_FAILED").
Proof.
  intros F. apply (proj2 (failure_test_spec _ _ _)) in F.
  simpl. rewrite zip_directory_closed, F.
  split_on_failure_test code2 (Js.collect stdout2) "TEMP_ZIP_FAILED"; simpl.
  - split; split; intros H; try reflexivity; try exact E; try discriminate.
    contradiction.
  - apply not_failed_iff in E.
    split; split; intros H; try reflexivity; try exact E; try discriminate.
    contradiction.
Qed.

(** *** Every handler with a fallback, through the dispatcher *)

Ltac enter_handler :=
  unfold on_request, list_directory, upload_file, delete_file, rename_file,
    create_folder, read_file, save_file;
  rewrite ?granted.

Lemma fallback_trace req env msg :
  has_fallback req = true ->
  structured_fails req env msg ->
  exists pre cmd final,
    on_request reg sid req env = pre ++ [Exec c cmd; final] /\
    Forall (fun a => is_emit a = false /\ is_exec a = false) pre /\
    final =
      match env_shell env with
      | ExecRefused shellMsg =>
          Emit "sftp-error"
            (Text (refused_prefix req +:+ msg +:+
                   ". Shell command also failed: " +:+ shellMsg))
      | ExecClosed code stdout stderr =>
          if code_nonzero code ||
             match sentinel req with
             | Some token => Js.includes (Js.collect stdout) token
             | None => false
             end
          then Emit "sftp-error" (Text (shell_failure_prefix req +:+ Js.collect stderr))
          else
            match req with
            | DeleteFile _ _ => Emit "delete-complete" NoPayload
            | RenameFile _ _ => Emit "rename-complete" NoPayload
            | CreateFolder _ => Emit "folder-created" NoPayload
            | ReadFile path =>
                Emit "file-content" (Fields [("path", path); ("content", Js.collect stdout)])
            | SaveFile path _ => Emit "file-saved" (Fields [("path", path)])
            | _ => final
            end
      end.
Proof.
  intros Hfb Hfail.
  destruct req as [p|p|p d|p isDir|o n|p|p|p content]; try discriminate Hfb;
    simpl in Hfail; enter_handler; rewrite Hfail;
    try destruct isDir;
    destruct (env_shell env) as [m|code out err];
    cbn [sentinel shell_failure_prefix refused_prefix];
    rewrite ?orb_false_r;
    try match goal with
        | |- context [if ?b then _ else _] => destruct b
        end;
    (solve [eexists [_], _, _; split; [reflexivity | split; [repeat constructor | reflexivity]]]
     || solve [eexists [_; _], _, _; split; [reflexivity | split; [repeat constructor | reflexivity]]]).
Qed.

Lemma emitted_app (t u : list action) : emitted (t ++ u) = emitted t ++ emitted u.
Proof. apply List.filter_app. Qed.

Lemma emitted_silent (pre : list action) :
  Forall (fun a => is_emit a = false /\ is_exec a = false) pre -> emitted pre = [].
Proof.
  induction 1 as [|a pre [Ha _] _ IH]; [reflexivity |].
  unfold emitted in *. simpl. now rewrite Ha.
Qed.

Lemma commands_app (t u : list action) : commands (t ++ u) = commands t ++ commands u.
Proof. unfold commands. apply omap_app. Qed.

Lemma commands_silent (pre : list action) :
  Forall (fun a => is_emit a = false /\ is_exec a = false) pre -> commands pre = [].
Proof.
  induction 1 as [|a pre [_ Ha] _ IH]; [reflexivity |].
  unfold commands in *. destruct a; simpl in *; try discriminate; exact IH.
Qed.

(** What the client receives from a request whose structured call failed. *)
Lemma fallback_emitted req env msg :
  has_fallback req = true ->
  structured_fails req env msg ->
  exists pre cmd final ev p,
    on_request reg sid req env = pre ++ [Exec c cmd; final] /\
    Forall (fun a => is_emit a = false /\ is_exec a = false) pre /\
    final = Emit ev p /\
    emitted (on_request reg sid req env) = [final] /\
    commands (on_request reg sid req env) = [cmd].
Proof.
  intros Hfb Hfail.
  destruct (fallback_trace req env msg Hfb Hfail) as (pre & cmd & final & Ht & Hpre & Hfinal).
  assert (exists ev p, final = Emit ev p) as (ev & p & Hev).
  { rewrite Hfinal. destruct (env_shell env) as [m|code out err]; [eauto |].
    destruct (code_nonzero code || _); [eauto |].
    destruct req; try discriminate Hfb; eauto. }
  exists pre, cmd, final, ev, p. repeat split; try assumption.
  - rewrite Ht, emitted_app, (emitted_silent pre Hpre), Hev. reflexivity.
  - rewrite Ht, commands_app, (commands_silent pre Hpre), Hev. reflexivity.
Qed.

(** C3 (as amended).  For delete-file, rename-file, create-folder,
    read-file and save-file, a failed structured call is followed by one
    shell command; nothing is sent to the client before that command, one
    notification follows it, and no second command is issued.
    list-directory has no fallback: its structured failure goes to the
    client directly and no command is issued. *)
Theorem C3_one_fallback_attempt req env msg :
  structured_fails req env msg ->
  (has_fallback req = true ->
     one_fallback_then_result (on_request reg sid req env) /\
     length (commands (on_request reg sid req env)) = 1) /\
  (forall path, req = ListDirectory path ->
     on_request reg sid req env =
       [Sftp s (Readdir path);
        Emit "sftp-error" (Text ("Failed to read directory: " +:+ msg))]).
Proof.
  intros Hfail. split.
  - intros Hfb.
    destruct (fallback_emitted req env msg Hfb Hfail)
      as (pre & cmd & final & ev & p & Ht & Hpre & Hev & _ & Hcmd).
    split; [| now rewrite Hcmd].
    exists pre, c, cmd, ev, p. now rewrite Ht, Hev.
  - intros path ->. simpl in Hfail. enter_handler. now rewrite Hfail.
Qed.

Lemma fallback_failure_text req env msg code stdout stderr :
  has_fallback req = true ->
  structured_fails req env msg ->
  env_shell env = ExecClosed code stdout stderr ->
  fallback_fails req code (Js.collect stdout) ->
  emitted (on_request reg sid req env) =
    [Emit "sftp-error" (Text (shell_failure_prefix req +:+ Js.collect stderr))].
Proof.
  intros Hfb Hfail Hsh Hbad.
  destruct (fallback_trace req env msg Hfb Hfail) as (pre & cmd & final & Ht & Hpre & Hfinal).
  rewrite Ht, emitted_app, (emitted_silent pre Hpre), Hfinal, Hsh.
  unfold fallback_fails in Hbad. destruct (sentinel req) as [token|].
  - apply failure_test_spec in Hbad. rewrite Hbad. reflexivity.
  - apply code_nonzero_spec in Hbad. rewrite Hbad. reflexivity.
Qed.

(** C4 (as amended).  When the structured call fails and the shell
    fallback runs and fails, the one error notification is a fixed text
    naming the operation followed by the standard error output of the
    command.  The message of the structured call is not used to build it:
    another failure of the structured call, with any other message, gives
    the same notification when the command ends the same way.  When the
    command could not be started, the one error notification is a fixed
    text naming the operation, the message of the structured call, the
    words Shell command also failed, and the message of the exec error. *)
Theorem C4_fallback_error_text req env msg :
  has_fallback req = true ->
  structured_fails req env msg ->
  (forall code stdout stderr,
     env_shell env = ExecClosed code stdout stderr ->
     fallback_fails req code (Js.collect stdout) ->
     emitted (on_request reg sid req env) =
       [Emit "sftp-error" (Text (shell_failure_prefix req +:+ Js.collect stderr))] /\
     forall env' msg',
       structured_fails req env' msg' ->
       env_shell env' = env_shell env ->
       emitted (on_request reg sid req env') = emitted (on_request reg sid req env)) /\
  (forall shellMsg,
     env_shell env = ExecRefused shellMsg ->
     emitted (on_request reg sid req env) =
       [Emit "sftp-error"
          (Text (refused_prefix req +:+ msg +:+
                 ". Shell command also failed: " +:+ shellMsg))]).
Proof.
  intros Hfb Hfail. split.
  - intros code stdout stderr Hsh Hbad.
    pose proof (fallback_failure_text req env msg code stdout stderr Hfb Hfail Hsh Hbad) as Hem.
    split; [exact Hem |].
    intros env' msg' Hfail' Hsame. rewrite Hem. rewrite Hsh in Hsame.
    exact (fallback_failure_text req env' msg' code stdout stderr Hfb Hfail' Hsame Hbad).
  - intros shellMsg Hsh.
    destruct (fallback_trace req env msg Hfb Hfail) as (pre & cmd & final & Ht & Hpre & Hfinal).
    rewrite Ht, emitted_app, (emitted_silent pre Hpre), Hfinal, Hsh. reflexivity.
Qed.

(** C7.  When the structured call fails and the shell fallback closes with
    exit code zero and no sentinel in its output, the client receives one
    notification with the event name and payload layout of the
    notification sent when the structured call succeeds; the two
    notifications are equal, given for read-file that the command printed
    the content the read stream would have delivered. *)
Theorem C7_fallback_success_same_notification req env env' msg stdout stderr :
  has_fallback req = true ->
  structured_fails req env msg ->
  env_shell env = ExecClosed (Some 0%Z) stdout stderr ->
  (forall token, sentinel req = Some token -> ~ contains (Js.collect stdout) token) ->
  structured_succeeds req env' ->
  length (emitted (on_request reg sid req env)) = 1 /\
  map notification_shape (emitted (on_request reg sid req env)) =
  map notification_shape (emitted (on_request reg sid req env')) /\
  ((forall path chunks, req = ReadFile path -> env_reading env' = ReadEnd chunks ->
      Js.collect chunks = Js.collect stdout) ->
   emitted (on_request reg sid req env) = emitted (on_request reg sid req env')).
Proof.
  intros Hfb Hfail Hsh Hclean Hok.
  destruct (fallback_trace req env msg Hfb Hfail) as (pre & cmd & final & Ht & Hpre & Hfinal).
  assert (Hem : emitted (on_request reg sid req env) = emitted [final]).
  { now rewrite Ht, emitted_app, (emitted_silent pre Hpre). }
  rewrite Hem, Hfinal, Hsh. clear Hem Hfinal Ht Hpre.
  assert (Htest : code_nonzero (Some 0%Z) ||
                  match sentinel req with
                  | Some token => Js.includes (Js.collect stdout) token
                  | None => false
                  end = false).
  { destruct (sentinel req) as [token|]; [| reflexivity].
    apply failure_test_false. split; [reflexivity | now apply Hclean]. }
  rewrite Htest.
  destruct req as [p|p|p d|p isDir|o n|p|p|p content]; try discriminate Hfb;
    simpl in Hok; enter_handler.
  - rewrite Hok. destruct isDir; repeat split.
  - rewrite Hok. repeat split.
  - rewrite Hok. repeat split.
  - destruct Hok as [chunks Hok]. rewrite Hok. repeat split.
    intros Hsame. simpl. now rewrite (Hsame p chunks eq_refl eq_refl).
  - rewrite Hok. repeat split.
Qed.

End RegisteredSession.

(** ** What a read of the registry gives *)

Lemma get_own (reg : registry) (sid : string) (r : conn_record) :
  reg !! sid = Some r -> JsObject.get reg sid = JsObject.Stored r.
Proof. intros H. unfold JsObject.get. now rewrite H. Qed.

Ltac split_lookups :=
  repeat match goal with
         | |- context [if ?b then _ else _] => destruct b
         | |- context [match ?x with Some _ => _ | None => _ end] => destruct x
         end.

(** Only a record assigned under the key reads back as a record. *)
Lemma get_stored (reg : registry) (sid : string) (r : conn_record) :
  JsObject.get reg sid = JsObject.Stored r <-> reg !! sid = Some r.
Proof.
  split; [| apply get_own].
  unfold JsObject.get. destruct (reg !! sid) as [r'|]; [now intros [= ->] |].
  unfold JsObject.from_record, JsObject.from_object_prototype.
  split_lookups; discriminate.
Qed.

Lemma plain_spec (sid : string) :
  JsObject.plain sid = true ->
  String.eqb sid JsObject.proto_key = false /\
  String.eqb sid "conn" = false /\
  String.eqb sid "stream" = false /\
  String.eqb sid "sftp" = false /\
  existsb (String.eqb sid) JsObject.object_prototype_names = false.
Proof.
  unfold JsObject.plain. cbn [existsb].
  rewrite negb_true_iff, !orb_false_iff. tauto.
Qed.

(** Under a plain key the object behaves as a map. *)
Lemma get_plain (reg : registry) (sid : string) :
  JsObject.plain sid = true ->
  JsObject.get reg sid =
    match reg !! sid with
    | Some r => JsObject.Stored r
    | None => JsObject.Undefined
    end.
Proof.
  intros Hp. apply plain_spec in Hp as (H0 & H1 & H2 & H3 & H4).
  unfold JsObject.get. destruct (reg !! sid); [reflexivity |].
  rewrite H0. unfold JsObject.from_record, JsObject.from_object_prototype.
  rewrite H1, H2, H3, H4. now destruct (reg !! JsObject.proto_key).
Qed.

Lemma delete_lookup (reg : registry) (sid sid' : string) :
  JsObject.delete reg sid !! sid' =
    if String.eqb sid JsObject.proto_key then reg !! sid'
    else if String.eqb sid sid' then None else reg !! sid'.
Proof.
  unfold JsObject.delete. destruct (String.eqb sid JsObject.proto_key); [reflexivity |].
  destruct (String.eqb_spec sid sid') as [->|Hne].
  - apply lookup_delete_eq.
  - now apply lookup_delete_ne.
Qed.

Lemma delete_lookup_Some (reg : registry) (sid sid' : string) (r : conn_record) :
  JsObject.delete reg sid !! sid' = Some r -> reg !! sid' = Some r.
Proof.
  rewrite delete_lookup. destruct (String.eqb sid JsObject.proto_key); [auto |].
  destruct (String.eqb sid sid'); [discriminate | auto].
Qed.

Lemma file_guard_granted (reg : registry) (sid : string) (s c : handle) :
  file_guard reg sid = Granted s c <->
  exists r, reg !! sid = Some r /\ sftp r = Some s /\ conn r = c.
Proof.
  unfold file_guard. split.
  - destruct (JsObject.get reg sid) as [|r|h|h|h|] eqn:Hg; try discriminate.
    apply get_stored in Hg. destruct (sftp r) as [s'|] eqn:Hs; [| discriminate].
    intros [= -> <-]. now exists r.
  - intros (r & Hr & Hs & <-). now rewrite (get_own reg sid r Hr), Hs.
Qed.

(** The guard passes on something that is no record exactly for the key
    conn, once a record has become the prototype. *)
Lemma file_guard_misled (reg : registry) (sid : string) :
  file_guard reg sid = Misled <->
  reg !! sid = None /\ sid = "conn" /\ is_Some (reg !! JsObject.proto_key).
Proof.
  unfold file_guard, JsObject.get. split.
  - destruct (reg !! sid) as [r|]; [destruct (sftp r); discriminate |].
    destruct (String.eqb sid JsObject.proto_key); [discriminate |].
    destruct (reg !! JsObject.proto_key) as [p|].
    + unfold JsObject.from_record, JsObject.from_object_prototype.
      destruct (String.eqb_spec sid "conn") as [->|Hne].
      * intros _. repeat split. now exists p.
      * split_lookups; discriminate.
    + unfold JsObject.from_object_prototype. destruct (existsb _ _); discriminate.
  - intros (Hr & -> & [p Hp]). rewrite Hr. cbn. now rewrite Hp.
Qed.

Lemma sftp_session_granted (reg : registry) (sid : string) (s c : handle) :
  sftp_session reg sid = Some (s, c) -> file_guard reg sid = Granted s c.
Proof. apply granted. Qed.

(** ** Requests without a registered capability *)

Lemma sftp_session_none (reg : registry) (sid : string) :
  sftp_session reg sid = None <-> ~ has_file_capability reg sid.
Proof.
  unfold sftp_session, has_file_capability. split.
  - intros H (r & h & Hr & Hs).
    assert (Hg : file_guard reg sid = Granted h (conn r))
      by (apply file_guard_granted; now exists r).
    rewrite Hg in H. discriminate.
  - intros H. destruct (file_guard reg sid) as [|s c|] eqn:Hg; try reflexivity.
    exfalso. apply H. apply file_guard_granted in Hg as (r & Hr & Hs & _).
    now exists r, s.
Qed.

Lemma sftp_session_some (reg : registry) (sid : string) :
  has_file_capability reg sid -> exists s c, sftp_session reg sid = Some (s, c).
Proof.
  intros (r & h & Hr & Hs). exists h, (conn r).
  assert (Hg : file_guard reg sid = Granted h (conn r))
    by (apply file_guard_granted; now exists r).
  unfold sftp_session. now rewrite Hg.
Qed.

(** Without a registered SFTP session the guard refuses, unless it is
    misled. *)
Lemma file_guard_refused (reg : registry) (sid : string) :
  ~ has_file_capability reg sid ->
  sid <> "conn" \/ reg !! JsObject.proto_key = None ->
  file_guard reg sid = Refused.
Proof.
  intros Hno Hplain. destruct (file_guard reg sid) as [|s c|] eqn:Hg; [reflexivity | |].
  - exfalso. apply Hno. apply file_guard_granted in Hg as (r & Hr & Hs & _).
    now exists r, s.
  - exfalso. apply file_guard_misled in Hg as (_ & -> & [p Hp]).
    destruct Hplain as [Hne | Hnone]; congruence.
Qed.

Lemma refused_request (reg : registry) (sid : string) req env :
  file_guard reg sid = Refused -> on_request reg sid req env = no_sftp.
Proof.
  intros H.
  destruct req; simpl;
    unfold list_directory, zip_directory, upload_file, delete_file, rename_file,
      create_folder, read_file, save_file;
    now rewrite H.
Qed.

Lemma not_field_name (sid : string) :
  JsObject.field_name sid = false -> sid <> "conn".
Proof. intros H ->. discriminate H. Qed.

(** A file request for a session without a registered SFTP session is
    answered No active SFTP connection and nothing is called on the remote
    side, as long as the session id is no field name of the records or
    nothing is stored under __proto__. *)
Lemma unregistered_request (reg : registry) (sid : string) req env :
  ~ has_file_capability reg sid ->
  JsObject.field_name sid = false \/ reg !! "__proto__" = None ->
  on_request reg sid req env = no_sftp /\
  List.filter is_remote_call (on_request reg sid req env) = [].
Proof.
  intros Hno Hplain.
  assert (Hg : file_guard reg sid = Refused).
  { apply file_guard_refused; [exact Hno |].
    destruct Hplain as [Hf | Hp]; [left; now apply not_field_name | now right]. }
  rewrite (refused_request reg sid req env Hg). now split.
Qed.

Lemma command_without_record (reg : registry) (sid cmd : string) :
  ~ has_shell_stream reg sid ->
  command reg sid cmd = [Emit "error" (Text "No active SSH connection")].
Proof.
  intros Hno. unfold command.
  destruct (JsObject.get reg sid) as [|r|h|h|h|] eqn:Hg; try reflexivity.
  apply get_stored in Hg. simpl. destruct (stream r) as [st|] eqn:Hs; [| reflexivity].
  exfalso. apply Hno. now exists r, st.
Qed.

(** A command for a session without a registered shell stream is answered
    No active SSH connection and nothing is written, as long as the
    session id is no field name of the records or nothing is stored under
    __proto__. *)
Lemma command_without_stream (reg : registry) (sid cmd : string) :
  ~ has_shell_stream reg sid ->
  JsObject.field_name sid = false \/ reg !! "__proto__" = None ->
  command reg sid cmd = [Emit "error" (Text "No active SSH connection")].
Proof. intros Hno _. now apply command_without_record. Qed.

Lemma registered_request_not_no_sftp (reg : registry) (sid : string) s c req env :
  sftp_session reg sid = Some (s, c) ->
  ~ In (Emit "sftp-error" (Text "No active SFTP connection")) (on_request reg sid req env).
Proof.
  intros H. apply sftp_session_granted in H.
  destruct req as [p|p|p d|p isDir|o n|p|p|p content]; simpl;
    unfold list_directory, zip_directory, upload_file, delete_file, rename_file,
      create_folder, read_file, save_file;
    rewrite H;
    repeat match goal with
           | |- context [match ?x with _ => _ end] => destruct x
           end;
    simpl; intuition discriminate.
Qed.

(** What the file handlers do once the guard is misled: all but read-file
    throw, zip-directory after it has announced the archive; read-file
    catches the TypeError and reports it as a read failure.  In no case
    does the client get No active SFTP connection. *)
Lemma misled_request (reg : registry) (sid : string) req env :
  file_guard reg sid = Misled ->
  on_request reg sid req env =
    match req with
    | ListDirectory _ => [Raise "sftp.readdir"]
    | ZipDirectory path =>
        [Emit "zip-started" (Fields [("path", path); ("message", "Creating zip file...")]);
         Raise "conn.exec"]
    | UploadFile _ _ => [Raise "sftp.createWriteStream"]
    | DeleteFile _ isDirectory => [Raise (if isDirectory then "sftp.rmdir" else "sftp.unlink")]
    | RenameFile _ _ => [Raise "sftp.rename"]
    | CreateFolder _ => [Raise "sftp.mkdir"]
    | ReadFile _ =>
        [Emit "sftp-error"
           (Text "Failed to read file: sftp.createReadStream is not a function")]
    | SaveFile _ _ => [Raise "sftp.stat"]
    end.
Proof.
  intros H.
  destruct req; simpl;
    unfold list_directory, zip_directory, upload_file, delete_file, rename_file,
      create_folder, read_file, save_file;
    now rewrite H.
Qed.

(** C9, where the code departs from the claim.  [sshConnections] is a plain
    object and its keys come from the handshake of the client.  Once a
    connect-sftp has succeeded on a socket whose session id is __proto__,
    the record it stores is the prototype of the registry, and a read
    under the key conn gives the Client of that record.  For a socket
    whose session id is conn, for which nothing is registered, the guard
    of the file handlers then passes (the member sftp of a Client is its
    method): list-directory throws at the call of readdir, read-file
    reports the TypeError it catches as a read failure, and no file
    request is answered No active SFTP connection.  In the same registry a
    session id such as sess still gets that notification, and its
    commands are refused. *)
Theorem C9_inherited_key_passes_guard :
  exists st out,
    run initial [ConnectSftp "__proto__" "/home"; ClientReady 0; ChannelOpened 0]
      = Some (st, out) /\
    table st !! "conn" = None /\
    ~ has_file_capability (table st) "conn" /\
    (forall env,
       on_request (table st) "conn" (ListDirectory "/srv") env = [Raise "sftp.readdir"] /\
       on_request (table st) "conn" (ReadFile "/srv/a.txt") env =
         [Emit "sftp-error"
            (Text "Failed to read file: sftp.createReadStream is not a function")]) /\
    (forall req env,
       ~ In (Emit "sftp-error" (Text "No active SFTP connection"))
            (on_request (table st) "conn" req env)) /\
    (forall req env, on_request (table st) "sess" req env = no_sftp) /\
    (forall cmd, command (table st) "sess" cmd =
                 [Emit "error" (Text "No active SSH connection")]).
Proof.
  eexists. eexists. split; [vm_compute; reflexivity |].
  set (reg := JsObject.set ∅ "__proto__" {| conn := 0; stream := None; sftp := Some 1 |}).
  assert (Hconn : reg !! "conn" = None) by (vm_compute; reflexivity).
  assert (Hmisled : file_guard reg "conn" = Misled).
  { apply file_guard_misled.
    split; [exact Hconn | split; [reflexivity | eexists; vm_compute; reflexivity]]. }
  change (table _) with reg.
  split; [exact Hconn |]. split.
  { intros (r & h & Hr & _). rewrite Hconn in Hr. discriminate. }
  split.
  { intros env. split; now rewrite (misled_request reg "conn" _ env Hmisled). }
  split.
  { intros req env. rewrite (misled_request reg "conn" req env Hmisled).
    destruct req; simpl; intuition discriminate. }
  split.
  { intros req env. apply refused_request. vm_compute. reflexivity. }
  intros cmd. vm_compute. reflexivity.
Qed.

(** ** The HTTP save endpoint against the save-file handler *)

Lemma http_file_save_calls (reg : registry) auth path content sid err a :
  file_guard reg sid <> Misled ->
  In a (http_file_save reg auth path content sid err) ->
  match a with
  | Sftp _ call => exists text, call = CreateWriteStream path 420%N text
  | Exec _ _ | StreamWrite _ _ | ConnEnd _ | Emit _ _ | Raise _ => False
  | HttpReply _ _ | Redirect _ => True
  end.
Proof.
  intros Hg. unfold http_file_save.
  destruct auth; simpl; [| intros [<-|[]]; exact I].
  destruct content as [text|]; [| intros [<-|[]]; exact I].
  destruct (negb (Js.truthy path) || negb (Js.truthy sid)); [intros [<-|[]]; exact I |].
  destruct (file_guard reg sid) as [|s c|]; [intros [<-|[]]; exact I | | congruence].
  destruct err; simpl; intros [<-|[<-|[]]]; try exact I; now exists text.
Qed.

(** C10.  /file/save opens its write stream with mode 0o644 whatever the
    remote file has: with a registered SFTP session the route does one
    thing on the remote side, the creation of the write stream with that
    mode, and then answers, 500 with the message on a write error and
    success otherwise; it never stats the file and never runs a command.
    save-file first stats the file and opens the stream with the mode
    found, or with 0o644 when the stat fails; on a write error it goes on
    to one shell command, and to none otherwise. *)
Theorem C10_http_save_fixed_mode (reg : registry) (sid path content : string)
    (s c : handle) (now : N) (shell : exec_outcome) :
  sftp_session reg sid = Some (s, c) ->
  Js.truthy path = true ->
  Js.truthy sid = true ->
  (forall err,
     http_file_save reg true path (Some content) sid err =
       [Sftp s (CreateWriteStream path 420%N content);
        match err with
        | Some msg => HttpReply 500 (Fields [("error", "Failed to save file: " +:+ msg)])
        | None => HttpReply 200 (Fields [("success", "true")])
        end]) /\
  (forall auth body err a,
     In a (http_file_save reg auth path body sid err) ->
     match a with
     | Sftp _ call => exists text, call = CreateWriteStream path 420%N text
     | Exec _ _ | StreamWrite _ _ | ConnEnd _ | Emit _ _ | Raise _ => False
     | HttpReply _ _ | Redirect _ => True
     end) /\
  (forall stats err,
     firstn 2 (save_file reg sid path content stats err now shell) =
       [Sftp s (Stat path);
        Sftp s (CreateWriteStream path
                  match stats with
                  | Some mode => mode
                  | None => 420%N
                  end content)]) /\
  (forall stats msg,
     length (commands (save_file reg sid path content stats (Some msg) now shell)) = 1) /\
  (forall stats, commands (save_file reg sid path content stats None now shell) = []).
Proof.
  intros Hreg Hp Hs. apply sftp_session_granted in Hreg.
  split; [| split; [| split; [| split]]].
  - intros err. unfold http_file_save. rewrite Hreg, Hp, Hs. now destruct err.
  - intros auth body err a. apply http_file_save_calls. congruence.
  - intros stats err. unfold save_file. rewrite Hreg. now destruct stats.
  - intros stats msg. unfold save_file. rewrite Hreg.
    destruct shell as [m|code out err]; [reflexivity |].
    simpl. destruct (code_nonzero code || _); reflexivity.
  - intros stats. unfold save_file. now rewrite Hreg.
Qed.


(** ** The registry along every run of callbacks *)

Lemma invariant_initial : invariant initial.
Proof.
  split; simpl; intros *; rewrite lookup_empty; discriminate.
Qed.

Lemma invariant_set_client st c cl cl' :
  invariant st ->
  clients st !! c = Some cl ->
  c_session cl' = c_session cl ->
  c_opened cl' = c_opened cl ->
  (c_opened cl' = true -> past_ready (c_phase cl') = true) ->
  invariant (set_client st c cl').
Proof.
  intros [Hf Hh Hr Ho] Hc Hs Hop Hp. split; simpl.
  - intros h x. destruct (decide (c = h)) as [<-|Hne].
    + intros _. now apply (Hf c cl).
    + rewrite lookup_insert_ne by assumption. apply Hf.
  - intros h x. destruct (decide (c = h)) as [<-|Hne].
    + rewrite lookup_insert_eq. intros [= <-]. exact Hp.
    + rewrite lookup_insert_ne by assumption. apply Hh.
  - intros sessionId r Hlook. destruct (Hr sessionId r Hlook) as (x & Hx & Hxs & Hxo).
    destruct (decide (c = conn r)) as [E|Hne].
    + exists cl'. rewrite <- E, lookup_insert_eq. rewrite <- E, Hc in Hx.
      injection Hx as <-. repeat split; congruence.
    + exists x. now rewrite lookup_insert_ne.
  - exact Ho.
Qed.

Lemma invariant_forget st sessionId : invariant st -> invariant (forget st sessionId).
Proof.
  intros [Hf Hh Hr Ho]. split; simpl; try assumption.
  - intros k r Hlook. apply delete_lookup_Some in Hlook. now apply Hr.
  - intros k r Hlook. apply delete_lookup_Some in Hlook. now apply (Ho k).
Qed.

Lemma invariant_end_client st c : invariant st -> invariant (end_client st c).
Proof.
  intros Hinv. unfold end_client.
  destruct (clients st !! c) as [cl|] eqn:Hc; [| assumption].
  destruct (c_phase cl) eqn:Hp; try assumption;
    now apply (invariant_set_client st c cl).
Qed.

Lemma invariant_new_client st sessionId k initialPath :
  invariant st -> invariant (new_client st sessionId k initialPath).
Proof.
  intros [Hf Hh Hr Ho]. split; simpl.
  - intros h x. destruct (decide (next_handle st = h)) as [<-|Hne].
    + intros _. lia.
    + rewrite lookup_insert_ne by assumption. intros Hx. specialize (Hf h x Hx). lia.
  - intros h x. destruct (decide (next_handle st = h)) as [<-|Hne].
    + rewrite lookup_insert_eq. intros [= <-]. discriminate.
    + rewrite lookup_insert_ne by assumption. apply Hh.
  - intros sid r Hlook. destruct (Hr sid r Hlook) as (x & Hx & Hxs & Hxo).
    exists x. rewrite lookup_insert_ne; [auto |].
    specialize (Hf _ _ Hx). lia.
  - exact Ho.
Qed.

Lemma invariant_register st c cl :
  invariant st -> clients st !! c = Some cl -> invariant (register st c cl).
Proof.
  intros [Hf Hh Hr Ho] Hc. split; simpl; unfold JsObject.set.
  - intros h x. destruct (decide (c = h)) as [<-|Hne].
    + intros _. specialize (Hf c cl Hc). lia.
    + rewrite lookup_insert_ne by assumption. intros Hx. specialize (Hf h x Hx). lia.
  - intros h x. destruct (decide (c = h)) as [<-|Hne].
    + rewrite lookup_insert_eq. now intros [= <-].
    + rewrite lookup_insert_ne by assumption. apply Hh.
  - intros sid r. destruct (decide (c_session cl = sid)) as [<-|Hne].
    + rewrite lookup_insert_eq. intros [= <-].
      exists {| c_session := c_session cl; c_kind := c_kind cl;
                c_initialPath := c_initialPath cl; c_phase := Open;
                c_channel := Some (next_handle st); c_opened := true |}.
      split; [| split; reflexivity].
      destruct (c_kind cl); simpl; apply lookup_insert_eq.
    + rewrite lookup_insert_ne by assumption. intros Hlook.
      destruct (Hr sid r Hlook) as (x & Hx & Hxs & Hxo).
      destruct (decide (c = conn r)) as [E|Hne'].
      * rewrite <- E, Hc in Hx. injection Hx as <-. contradiction.
      * exists x. now rewrite lookup_insert_ne.
  - intros sid r. destruct (decide (c_session cl = sid)) as [<-|Hne].
    + rewrite lookup_insert_eq. intros [= <-].
      destruct (c_kind cl); [left | right]; now eexists.
    + rewrite lookup_insert_ne by assumption. apply Ho.
Qed.

Lemma step_invariant st ev st' out :
  invariant st -> step st ev = Some (st', out) -> invariant st'.
Proof.
  intros Hinv Hstep.
  destruct ev as [sid ip|sid ip|c|c|c msg|c msg|c|c data|c data|c|sid cmd|sid];
    simpl in Hstep.
  - injection Hstep as <- _. now apply invariant_new_client.
  - injection Hstep as <- _. now apply invariant_new_client.
  - destruct (clients st !! c) as [cl|] eqn:Hc; [| discriminate].
    destruct (c_phase cl) eqn:Hp; try discriminate. injection Hstep as <- _.
    apply (invariant_set_client st c cl); try reflexivity; try assumption.
    simpl. intros Hop. pose proof (inv_history st Hinv c cl Hc Hop) as H.
    rewrite Hp in H. discriminate.
  - destruct (clients st !! c) as [cl|] eqn:Hc; [| discriminate].
    destruct (c_phase cl) eqn:Hp; try discriminate. injection Hstep as <- _.
    now apply invariant_register.
  - destruct (clients st !! c) as [cl|] eqn:Hc; [| discriminate].
    destruct (c_phase cl) eqn:Hp; try discriminate. injection Hstep as <- _.
    now apply invariant_end_client.
  - destruct (clients st !! c) as [cl|] eqn:Hc; [| discriminate].
    destruct (c_phase cl) eqn:Hp; try discriminate; injection Hstep as <- _;
      assumption.
  - destruct (clients st !! c) as [cl|] eqn:Hc; [| discriminate].
    destruct (c_phase cl) eqn:Hp; try discriminate; injection Hstep as <- _;
      apply invariant_forget; now apply (invariant_set_client st c cl).
  - destruct (clients st !! c) as [cl|] eqn:Hc; [| discriminate].
    destruct (c_kind cl); [| discriminate].
    destruct (c_channel cl); [| discriminate]. now injection Hstep as <- _.
  - destruct (clients st !! c) as [cl|] eqn:Hc; [| discriminate].
    destruct (c_kind cl); [| discriminate].
    destruct (c_channel cl); [| discriminate]. now injection Hstep as <- _.
  - destruct (clients st !! c) as [cl|] eqn:Hc; [| discriminate].
    destruct (c_kind cl); [| discriminate].
    destruct (c_channel cl); [| discriminate].
    assert (Hset : invariant (set_client st c
              {| c_session := c_session cl; c_kind := ShellConn;
                 c_initialPath := c_initialPath cl; c_phase := c_phase cl;
                 c_channel := None; c_opened := c_opened cl |})).
    { apply (invariant_set_client st c cl); try reflexivity; try assumption.
      simpl. now apply (inv_history st Hinv c cl). }
    destruct (JsObject.truthy _); injection Hstep as <- _.
    + now apply invariant_forget, invariant_end_client.
    + assumption.
  - now injection Hstep as <- _.
  - destruct (JsObject.get (table st) sid) as [|r|h|h|h|]; injection Hstep as <- _;
      try assumption.
    now apply invariant_forget, invariant_end_client.
Qed.

Lemma reachable_invariant st : reachable st -> invariant st.
Proof.
  induction 1 as [|st ev st' out _ IH Hstep].
  - exact invariant_initial.
  - exact (step_invariant st ev st' out IH Hstep).
Qed.

Lemma run_reachable st evs st' out :
  reachable st -> run st evs = Some (st', out) -> reachable st'.
Proof.
  revert st out. induction evs as [|ev evs IH]; intros st out Hr Hrun; simpl in Hrun.
  - now injection Hrun as <- _.
  - destruct (step st ev) as [[st1 out1]|] eqn:Hs; [| discriminate].
    destruct (run st1 evs) as [[st2 out2]|] eqn:Hrest; [| discriminate].
    injection Hrun as <- _.
    apply (IH st1 out2); [| assumption].
    now apply (reach_step st ev st1 out1).
Qed.

Lemma step_channel_opened st c cl st' out :
  clients st !! c = Some cl ->
  step st (ChannelOpened c) = Some (st', out) ->
  st' = register st c cl /\ forall h, ~ In (ConnEnd h) out.
Proof.
  intros Hc Hstep. simpl in Hstep. rewrite Hc in Hstep.
  destruct (c_phase cl); try discriminate. injection Hstep as <- <-.
  split; [reflexivity |]. intros h.
  destruct (c_kind cl); [destruct (_ && _) |]; simpl; intuition discriminate.
Qed.

Lemma filter_key_unique {V : Type} (l : list (string * V)) (k : string) :
  NoDup (map fst l) ->
  length (List.filter (fun kv => String.eqb (fst kv) k) l) <= 1.
Proof.
  induction l as [|[k' v] l IH]; simpl; [lia |].
  intros Hnd. apply NoDup_cons in Hnd as [Hnotin Hnd].
  destruct (String.eqb_spec k' k) as [->|Hne]; [| now apply IH].
  simpl. assert (List.filter (fun kv => String.eqb (fst kv) k) l = []) as ->; [| simpl; lia].
  clear IH Hnd. induction l as [|[k2 v2] l IH]; simpl; [reflexivity |].
  destruct (String.eqb_spec k2 k) as [->|Hne].
  - exfalso. apply Hnotin. simpl. left.
  - apply IH. intros Hin. apply Hnotin. simpl. now right.
Qed.

(** C5 (as amended).  In every reachable state the registry has at most
    one entry per session identifier, and an entry holds one transport
    handle together with exactly one of a shell stream and an SFTP
    session.  When the channel of a further transport opens for a session
    that already has an entry, the entry of that session is overwritten by
    the record of the new transport and the other entries stay as they
    are; that callback calls end on no transport and leaves every other
    client, the one registered before included, as it was. *)
Theorem C5_one_entry_replaced st :
  reachable st ->
  (forall sid,
     length (List.filter (fun kv => String.eqb (fst kv) sid)
               (map_to_list (table st))) <= 1) /\
  (forall sid r, table st !! sid = Some r -> one_channel r) /\
  (forall c cl st' out,
     clients st !! c = Some cl ->
     step st (ChannelOpened c) = Some (st', out) ->
     (exists r, table st' !! c_session cl = Some r /\ conn r = c /\ one_channel r) /\
     (forall sid, sid <> c_session cl -> table st' !! sid = table st !! sid) /\
     (forall h, h <> c -> clients st' !! h = clients st !! h) /\
     (forall h, ~ In (ConnEnd h) out)).
Proof.
  intros Hreach. pose proof (reachable_invariant st Hreach) as Hinv.
  split; [| split].
  - intros sid. apply filter_key_unique. apply NoDup_fst_map_to_list.
  - exact (inv_one_channel st Hinv).
  - intros c cl st' out Hc Hstep.
    destruct (step_channel_opened st c cl st' out Hc Hstep) as [-> Hout].
    split; [| split; [| split; [| exact Hout]]].
    + simpl. unfold JsObject.set. rewrite lookup_insert_eq. eexists. split; [reflexivity |].
      destruct (c_kind cl); simpl; (split; [reflexivity |]);
        [left | right]; now eexists.
    + intros sid Hne. simpl. unfold JsObject.set. now rewrite lookup_insert_ne.
    + intros h Hne. simpl. now rewrite lookup_insert_ne.
Qed.

(** C5, the claim as stated fails: after two successful connect-ssh
    requests on one session the registry names the second transport, the
    first one is still open, and nothing has called end on it. *)
Lemma C5_prior_transport_left_open :
  exists st out,
    run initial reconnect_events = Some (st, out) /\
    conn <$> table st !! "sess" = Some 2 /\
    c_phase <$> clients st !! 0 = Some Open /\
    ~ In (ConnEnd 0) out.
Proof.
  eexists. eexists. split; [vm_compute; reflexivity |].
  split; [vm_compute; reflexivity |].
  split; [vm_compute; reflexivity |].
  simpl. intuition discriminate.
Qed.

(** C8.  When the transport reports an error while connecting, or the
    shell cannot be opened, the client is sent an error notification and
    the registry is left as it was; and in every reachable state the
    transport named by a registry entry belongs to that session and has had
    its channel opened, so it is past the Ready transition. *)
Theorem C8_failed_connect_registers_nothing st :
  reachable st ->
  (forall c cl msg,
     clients st !! c = Some cl -> c_kind cl = ShellConn -> c_phase cl = Connecting ->
     step st (ClientError c msg) =
       Some (st, [Emit "error" (Text ("Connection error: " +:+ msg))])) /\
  (forall c cl msg,
     clients st !! c = Some cl -> c_kind cl = ShellConn -> c_phase cl = Opening ->
     exists st',
       step st (ChannelRefused c msg) =
         Some (st', [Emit "error" (Text ("Shell error: " +:+ msg)); ConnEnd c]) /\
       table st' = table st) /\
  (forall sid r,
     table st !! sid = Some r ->
     exists cl, clients st !! conn r = Some cl /\ c_session cl = sid /\
                c_opened cl = true /\ past_ready (c_phase cl) = true).
Proof.
  intros Hreach. pose proof (reachable_invariant st Hreach) as Hinv.
  split; [| split].
  - intros c cl msg Hc Hk Hp. simpl. now rewrite Hc, Hp, Hk.
  - intros c cl msg Hc Hk Hp. simpl. rewrite Hc, Hp, Hk.
    eexists. split; [reflexivity |].
    unfold end_client. rewrite Hc, Hp. reflexivity.
  - intros sid r Hlook.
    destruct (inv_registered st Hinv sid r Hlook) as (cl & Hcl & Hs & Ho).
    exists cl. repeat split; try assumption.
    now apply (inv_history st Hinv (conn r)).
Qed.

Lemma opening_state_reachable : reachable opening_state.
Proof.
  apply (run_reachable initial [ConnectSsh "sess" EmptyString; ClientReady 0]
           opening_state
           [Emit "message" (Text ("SSH connection established successfully!" +:+ nl))]
           reach_initial).
  vm_compute. reflexivity.
Defined.

Lemma C8_witness :
  exists st',
    step opening_state (ChannelRefused 0 "denied") =
      Some (st', [Emit "error" (Text "Shell error: denied"); ConnEnd 0]) /\
    table st' = table opening_state.
Proof.
  refine (proj1 (proj2 (C8_failed_connect_registers_nothing opening_state
                          opening_state_reachable)) 0 _ "denied" _ _ _);
    vm_compute; reflexivity.
Defined.

Lemma reconnecting_state_reachable : reachable reconnecting_state.
Proof.
  apply (run_reachable initial
           [ConnectSsh "sess" "/home"; ClientReady 0; ChannelOpened 0;
            ConnectSsh "sess" "/home"; ClientReady 2]
           reconnecting_state
           [Emit "message" (Text ("SSH connection established successfully!" +:+ nl));
            Emit "message" (Text ("SSH connection established successfully!" +:+ nl))]
           reach_initial).
  vm_compute. reflexivity.
Defined.

Lemma C5_witness :
  exists r,
    table (register reconnecting_state 2 second_client) !! "sess" = Some r /\
    conn r = 2 /\ one_channel r.
Proof.
  refine (proj1 (proj2 (proj2 (C5_one_entry_replaced reconnecting_state
                                 reconnecting_state_reachable))
                   2 second_client (register reconnecting_state 2 second_client) [] _ _));
    vm_compute; reflexivity.
Defined.

(** ** Teardown *)

Lemma delete_plain (reg : registry) (sid : string) :
  JsObject.plain sid = true -> JsObject.delete reg sid !! sid = None.
Proof.
  intros Hp. apply plain_spec in Hp as (H0 & _).
  rewrite delete_lookup, H0. now rewrite String.eqb_refl.
Qed.

Lemma delete_other (reg : registry) (sid sid' : string) :
  sid' <> sid -> JsObject.delete reg sid !! sid' = reg !! sid'.
Proof.
  intros Hne. rewrite delete_lookup. destruct (String.eqb sid JsObject.proto_key); [reflexivity |].
  destruct (String.eqb_spec sid sid'); [congruence | reflexivity].
Qed.

Lemma on_disconnect_removes (reg : registry) (sid : string) :
  JsObject.plain sid = true -> fst (on_disconnect reg sid) !! sid = None.
Proof.
  intros Hp. unfold on_disconnect. rewrite (get_plain reg sid Hp).
  destruct (reg !! sid) eqn:H; simpl.
  - now apply delete_plain.
  - exact H.
Qed.

(** The socket disconnect callback can run twice on a session id that is a
    plain key: the first run ends the registered transport and removes the
    entry, the second finds nothing and does nothing. *)
Lemma on_disconnect_twice (reg : registry) (sid : string) :
  JsObject.plain sid = true ->
  let first := on_disconnect reg sid in
  let second := on_disconnect (fst first) sid in
  fst first !! sid = None /\
  snd first = match reg !! sid with Some r => [ConnEnd (conn r)] | None => [] end /\
  second = (fst first, []).
Proof.
  intros Hp. simpl. split; [now apply on_disconnect_removes |]. split.
  - unfold on_disconnect. rewrite (get_plain reg sid Hp). now destruct (reg !! sid).
  - unfold on_disconnect at 1. rewrite (get_plain _ sid Hp).
    now rewrite on_disconnect_removes.
Qed.

Lemma step_socket_disconnect_twice st sid :
  JsObject.plain sid = true ->
  exists st1 out1,
    step st (SocketDisconnect sid) = Some (st1, out1) /\
    table st1 !! sid = None /\
    step st1 (SocketDisconnect sid) = Some (st1, []).
Proof.
  intros Hp. simpl. rewrite (get_plain (table st) sid Hp).
  destruct (table st !! sid) as [r|] eqn:H.
  - eexists. eexists. split; [reflexivity |].
    assert (Hgone : table (forget (end_client st (conn r)) sid) !! sid = None).
    { simpl. replace (table (end_client st (conn r))) with (table st).
      - now apply delete_plain.
      - unfold end_client. destruct (clients st !! conn r); [| reflexivity].
        now destruct (c_phase _). }
    split; [exact Hgone |]. now rewrite (get_plain _ sid Hp), Hgone.
  - exists st, []. split; [reflexivity |]. split; [exact H |].
    now rewrite (get_plain _ sid Hp), H.
Qed.

(** C6, where the code departs from the claim: with an entry registered by
    a successful connect-ssh, the teardown of GET /logout and of
    GET /disconnect throws a TypeError at the call of end on the record,
    before the delete, so the entry stays and a second attempt throws
    again.  The socket disconnect callback ([on_disconnect_twice]) behaves
    as the claim says for a session id that is a plain key. *)
Theorem C6_http_teardown_throws :
  (exists st out,
     run initial [ConnectSsh "sess" "/home"; ClientReady 0; ChannelOpened 0]
       = Some (st, out) /\ table st = shell_registry) /\
  http_logout shell_registry "sess" =
    Threw "TypeError: sshConnections[sessionId].end is not a function" /\
  http_disconnect shell_registry "sess" =
    Threw "TypeError: sshConnections[sessionId].end is not a function" /\
  on_disconnect shell_registry "sess" = (∅, [ConnEnd 0]).
Proof.
  split; [| repeat split; vm_compute; reflexivity].
  eexists. eexists. split; vm_compute; reflexivity.
Qed.

(** ** Paths inside shell commands *)

Lemma cut_nonempty q s : Sh.cut q s <> [].
Proof.
  assert (Hpush : forall ch r, Sh.push ch r <> []) by (intros ch [|h tl]; discriminate).
  destruct s as [|ch rest]; [discriminate |].
  destruct q; simpl;
    repeat match goal with
           | |- context [if ?b then _ else _] => destruct b
           | |- context [match ?x with EmptyString => _ | String _ _ => _ end] => destruct x
           end;
    try discriminate; apply Hpush.
Qed.

Lemma push_prepend ch w r :
  r <> [] -> Sh.push ch (prepend w r) = prepend (String ch w) r.
Proof. destruct r; [congruence | reflexivity]. Qed.

(** An escaped, backslash-free path followed by the closing quote is read
    by the shell as the rest of one double-quoted word. *)
Lemma escaped_path_one_word path rest :
  no_backslash path = true ->
  Sh.cut Sh.InDouble (Js.escape_dq path +:+ String Js.dq rest) =
  prepend (Js.escape_dq path +:+ String Js.dq EmptyString) (Sh.cut Sh.Bare rest).
Proof.
  induction path as [|ch path IH]; intros Hnb.
  - simpl. destruct (Sh.cut Sh.Bare rest) eqn:E; [now apply cut_nonempty in E | reflexivity].
  - simpl in Hnb. apply andb_true_iff in Hnb as [Hch Hnb]. apply negb_true_iff in Hch.
    cbn [Js.escape_dq]. destruct (Ascii.eqb ch Js.dq) eqn:Hdq.
    + change (Sh.cut Sh.InDouble
                (String Js.backslash (String Js.dq (Js.escape_dq path +:+ String Js.dq rest))) =
              prepend (String Js.backslash
                         (String Js.dq (Js.escape_dq path +:+ String Js.dq EmptyString)))
                (Sh.cut Sh.Bare rest)).
      cbn [Sh.cut]. change (Ascii.eqb Js.backslash Js.dq) with false.
      change (Ascii.eqb Js.backslash Js.backslash) with true. cbv iota.
      rewrite (IH Hnb), !push_prepend by apply cut_nonempty. reflexivity.
    + change (Sh.cut Sh.InDouble (String ch (Js.escape_dq path +:+ String Js.dq rest)) =
              prepend (String ch (Js.escape_dq path +:+ String Js.dq EmptyString))
                (Sh.cut Sh.Bare rest)).
      cbn [Sh.cut]. rewrite Hdq, Hch.
      rewrite (IH Hnb), push_prepend by apply cut_nonempty. reflexivity.
Qed.

(** The rm fallback of delete-file keeps such a path in one command. *)
Lemma rm_command_one_command path :
  no_backslash path = true -> Sh.commands (rm_command path) = [rm_command path].
Proof.
  intros Hnb. unfold Sh.commands, rm_command, Js.quoted.
  change ("rm " +:+ String Js.dq (Js.escape_dq path +:+ String Js.dq EmptyString) +:+
          " || echo " +:+ String Js.dq ("RM_FAILED" +:+ String Js.dq EmptyString))
    with (String "r" (String "m" (String " " (String Js.dq
            ((Js.escape_dq path +:+ String Js.dq EmptyString) +:+
             " || echo " +:+ String Js.dq ("RM_FAILED" +:+ String Js.dq EmptyString)))))).
  rewrite append_assoc.
  change (String Js.dq EmptyString +:+ ?x) with (String Js.dq x).
  cbn [Sh.cut].
  change (Ascii.eqb "r" Js.semicolon) with false.
  cbv beta iota.
  rewrite escaped_path_one_word by assumption.
  vm_compute (Sh.cut Sh.Bare _).
  cbn [prepend Sh.push]. rewrite !append_assoc. reflexivity.
Qed.

(** The escaping of the fallbacks leaves a backslash alone, so a backslash
    in front of a quote undoes it. *)
Lemma escape_dq_misses_backslash :
  In " touch /tmp/pwned" (Sh.commands (rm_command hostile_backslash_path)).
Proof. vm_compute. right. left. reflexivity. Qed.

(** C2, where the code departs from the claim: zip-directory puts the path
    between double quotes without escaping it.  For the path
    a-quote-semicolon touch /tmp/pwned ... the command handed to exec is cut
    by the shell into several commands, one of them the touch; the rm
    fallback of delete-file, which escapes the quotes, keeps the same path
    in one command.  The cd line written after connect-ssh does not quote
    the directory at all. *)
Theorem C2_zip_directory_path_not_escaped :
  let cmd :=
    zip_command (zip_dir hostile_path +:+ zip_name hostile_path 1700000000000%N)
      hostile_path in
  commands (zip_directory demo_registry "sess" hostile_path 1700000000000%N
              (ExecClosed (Some 0%Z) [] []) (ExecRefused "unused")) = [cmd] /\
  In " touch /tmp/pwned" (Sh.commands cmd) /\
  1 < length (Sh.commands cmd) /\
  Sh.commands (rm_command hostile_path) = [rm_command hostile_path] /\
  Sh.commands (cd_command hostile_initial_path) = ["cd /srv"; " touch /tmp/pwned" +:+ nl].
Proof.
  repeat split.
  - vm_compute. right. left. reflexivity.
  - vm_compute. lia.
Qed.

(** ** Where the claims on the fallback rule are too strong *)

(** C3, the claim as stated fails: list-directory reports the failure of
    its structured call without any shell command. *)
Lemma C3_list_directory_has_no_fallback :
  let t := on_request demo_registry "sess" (ListDirectory "/srv")
             (sample_env (Some "No such file") (ExecClosed (Some 0%Z) [] [])) in
  t = [Sftp 1 (Readdir "/srv");
       Emit "sftp-error" (Text "Failed to read directory: No such file")] /\
  commands t = [] /\
  ~ one_fallback_then_result t.
Proof.
  repeat split.
  intros (pre & h & cmd & ev & p & Ht & _).
  assert (Hin : In (Exec h cmd) (pre ++ [Exec h cmd; Emit ev p]))
    by (apply in_or_app; right; now left).
  rewrite <- Ht in Hin. vm_compute in Hin. intuition discriminate.
Qed.

(** upload-file announces a retry and issues no command either. *)
Lemma upload_file_has_no_fallback :
  on_request demo_registry "sess" (UploadFile "/srv/a.txt" "data")
    (sample_env (Some "Permission denied") (ExecClosed (Some 0%Z) [] [])) =
  [Sftp 1 (CreateWriteStream "/srv/a.txt" 420%N "data");
   Emit "sftp-error" (Text "Upload failed: Permission denied");
   Emit "message" (Text "Retrying upload with alternate method...")].
Proof. reflexivity. Qed.

(** C4, the claim as stated fails: when rename and then mv fail, the error
    notification carries the standard error text of mv and not the message
    of the structured rename. *)
Lemma C4_structured_message_dropped :
  let t := rename_file demo_registry "sess" "/srv/a" "/srv/b" (Some "EPERM")
             (ExecClosed (Some 1%Z) [] [Buffer.of_text "mv: cannot move"]) in
  emitted t =
    [Emit "sftp-error" (Text "Failed to rename with mv command: mv: cannot move")] /\
  ~ combined_diagnostics t "EPERM" "mv: cannot move".
Proof.
  split; [reflexivity |].
  intros (text & Ht & Hmsg & _).
  vm_compute in Ht. injection Ht as <-.
  apply includes_spec in Hmsg. vm_compute in Hmsg. discriminate.
Qed.

(** ** The statements at concrete inputs *)

Lemma demo_registered : sftp_session demo_registry "sess" = Some (1, 0).
Proof. vm_compute. reflexivity. Defined.

Lemma no_sentinel_in_empty token :
  token <> EmptyString -> ~ contains EmptyString token.
Proof.
  intros Hne (pre & post & H). destruct pre; [| discriminate].
  destruct token; [congruence | discriminate].
Qed.

Lemma C1_witness :
  emitted (rename_file demo_registry "sess" "/srv/a" "/srv/b" (Some "EPERM")
             (ExecClosed (Some 0%Z) [] [])) = [Emit "rename-complete" NoPayload].
Proof.
  refine (proj2 (proj1 (proj2 (C1_sentinel_or_exit_code demo_registry "sess" 1 0
                                 demo_registered "EPERM" (Some 0%Z) [] []))
                   "/srv/a" "/srv/b") eq_refl _).
  apply no_sentinel_in_empty. discriminate.
Defined.

Lemma C3_witness :
  one_fallback_then_result
    (on_request demo_registry "sess" (DeleteFile "/srv/a" false)
       (sample_env (Some "EPERM") (ExecClosed (Some 1%Z) [] [Buffer.of_text "rm: denied"]))) /\
  length (commands
    (on_request demo_registry "sess" (DeleteFile "/srv/a" false)
       (sample_env (Some "EPERM") (ExecClosed (Some 1%Z) [] [Buffer.of_text "rm: denied"])))) = 1.
Proof.
  refine (proj1 (C3_one_fallback_attempt demo_registry "sess" 1 0 demo_registered
                   (DeleteFile "/srv/a" false)
                   (sample_env (Some "EPERM")
                      (ExecClosed (Some 1%Z) [] [Buffer.of_text "rm: denied"]))
                   "EPERM" eq_refl) eq_refl).
Defined.

Lemma C4_witness :
  emitted (on_request demo_registry "sess" (RenameFile "/srv/a" "/srv/b")
             (sample_env (Some "EPERM")
                (ExecClosed (Some 1%Z) [] [Buffer.of_text "mv: cannot move"]))) =
  [Emit "sftp-error" (Text "Failed to rename with mv command: mv: cannot move")].
Proof.
  refine (proj1 (proj1 (C4_fallback_error_text demo_registry "sess" 1 0 demo_registered
                          (RenameFile "/srv/a" "/srv/b")
                          (sample_env (Some "EPERM")
                             (ExecClosed (Some 1%Z) [] [Buffer.of_text "mv: cannot move"]))
                          "EPERM" eq_refl eq_refl)
                   (Some 1%Z) [] [Buffer.of_text "mv: cannot move"] eq_refl _)).
  left. discriminate.
Defined.

Lemma C7_witness :
  emitted (on_request demo_registry "sess" (DeleteFile "/srv/a" false)
             (sample_env (Some "permission denied") (ExecClosed (Some 0%Z) [] []))) =
  emitted (on_request demo_registry "sess" (DeleteFile "/srv/a" false)
             (sample_env None (ExecRefused "unused"))).
Proof.
  refine (proj2 (proj2 (C7_fallback_success_same_notification demo_registry "sess" 1 0
                          demo_registered (DeleteFile "/srv/a" false)
                          (sample_env (Some "permission denied") (ExecClosed (Some 0%Z) [] []))
                          (sample_env None (ExecRefused "unused"))
                          "permission denied" [] [] eq_refl eq_refl eq_refl _ eq_refl)) _).
  - intros token [= <-]. apply no_sentinel_in_empty. discriminate.
  - intros path chunks H. discriminate H.
Defined.

Lemma C10_witness :
  http_file_save demo_registry true "/srv/a.txt" (Some "text") "sess" (Some "EACCES") =
  [Sftp 1 (CreateWriteStream "/srv/a.txt" 420%N "text");
   HttpReply 500 (Fields [("error", "Failed to save file: EACCES")])].
Proof.
  exact (proj1 (C10_http_save_fixed_mode demo_registry "sess" "/srv/a.txt" "text"
                  1 0 1700000000000%N (ExecRefused "unused")
                  demo_registered eq_refl eq_refl) (Some "EACCES")).
Defined.

(** * Further properties of the code *)

(** ** Where zip-directory puts the archive *)

Lemma split_nonempty sep s : Js.split sep s <> [].
Proof.
  destruct s as [|ch rest]; simpl; [discriminate |].
  destruct (Ascii.eqb ch sep); [discriminate |].
  destruct (Js.split sep rest); discriminate.
Qed.

Lemma lastIndexOf_lower sep s : (-1 <= Js.lastIndexOf sep s)%Z.
Proof.
  induction s as [|ch rest IH]; simpl; [lia |].
  destruct (Z.leb_spec 0 (Js.lastIndexOf sep rest)); [lia |].
  destruct (Ascii.eqb ch sep); lia.
Qed.

(** Without the separator, split gives the string itself. *)
Lemma split_without_separator sep s :
  Js.lastIndexOf sep s = (-1)%Z -> Js.split sep s = [s].
Proof.
  induction s as [|ch rest IH]; simpl; [reflexivity |].
  destruct (Z.leb_spec 0 (Js.lastIndexOf sep rest)) as [Hge|Hlt]; [lia |].
  destruct (Ascii.eqb ch sep); [discriminate |].
  intros _. rewrite IH; [reflexivity |].
  pose proof (lastIndexOf_lower sep rest). lia.
Qed.

(** With the separator, split gives at least two pieces. *)
Lemma split_with_separator sep s :
  (0 <= Js.lastIndexOf sep s)%Z ->
  exists h h' tl, Js.split sep s = h :: h' :: tl.
Proof.
  induction s as [|ch rest IH]; simpl; [lia |].
  destruct (Z.leb_spec 0 (Js.lastIndexOf sep rest)) as [Hge|Hlt].
  - intros _. destruct (IH Hge) as (h & h' & tl & ->).
    destruct (Ascii.eqb ch sep); eauto.
  - destruct (Ascii.eqb ch sep) eqn:E; [| lia].
    intros _. destruct (Js.split sep rest) as [|h tl] eqn:Hs; [now apply split_nonempty in Hs |].
    eauto.
Qed.

Lemma substring_to_cons n ch rest :
  (0 <= n)%Z -> Js.substring_to (n + 1) (String ch rest) = String ch (Js.substring_to n rest).
Proof.
  intros Hn. unfold Js.substring_to.
  replace (Z.to_nat (n + 1)) with (S (Z.to_nat n)) by lia. reflexivity.
Qed.

(** The directory part and the last segment put the path together again. *)
Lemma directory_and_segment sep path :
  Js.substring_to (Js.lastIndexOf sep path + 1) path +:+ Js.pop (Js.split sep path) = path.
Proof.
  induction path as [|ch rest IH]; [reflexivity |].
  cbn [Js.lastIndexOf Js.split].
  destruct (Z.leb_spec 0 (Js.lastIndexOf sep rest)) as [Hge|Hlt].
  - rewrite substring_to_cons by lia.
    destruct (split_with_separator sep rest Hge) as (h & h' & tl & Hs).
    assert (Hpop : Js.pop (if Ascii.eqb ch sep then EmptyString :: Js.split sep rest
                           else match Js.split sep rest with
                                | x :: tl0 => String ch x :: tl0
                                | [] => [String ch EmptyString]
                                end) = Js.pop (Js.split sep rest)).
    { rewrite Hs. now destruct (Ascii.eqb ch sep). }
    rewrite Hpop. simpl. now rewrite IH.
  - assert (Hnone : Js.lastIndexOf sep rest = (-1)%Z)
      by (pose proof (lastIndexOf_lower sep rest); lia).
    rewrite (split_without_separator sep rest Hnone).
    destruct (Ascii.eqb ch sep) eqn:E.
    + apply Ascii.eqb_eq in E. subst ch.
      unfold Js.substring_to, Js.pop. simpl. now destruct rest.
    + rewrite Hnone in IH. unfold Js.substring_to, Js.pop in *. simpl in *.
      now destruct rest.
Qed.

Lemma append_empty_inv a b : a +:+ b = EmptyString -> a = EmptyString /\ b = EmptyString.
Proof. destruct a; simpl; [auto | discriminate]. Qed.

(** X1.  zip-directory names the archive after the path it is given: for a
    path with a slash and a non-empty last segment the archive is the path
    itself followed by the time stamp and .zip, next to the directory.  A
    path without a slash sends the archive to the root directory, and a
    path that ends in a slash puts an archive called folder inside the
    directory that is being zipped. *)
Theorem zip_directory_archive_path (path : string) (stamp : N) :
  let segment := Js.pop (Js.split Js.slash path) in
  let archive := zip_dir path +:+ zip_name path stamp in
  (segment <> EmptyString -> (0 <= Js.lastIndexOf Js.slash path)%Z ->
   archive = path +:+ "-" +:+ Js.of_number stamp +:+ ".zip") /\
  (Js.lastIndexOf Js.slash path = (-1)%Z -> path <> EmptyString ->
   archive = "/" +:+ path +:+ "-" +:+ Js.of_number stamp +:+ ".zip") /\
  (segment = EmptyString ->
   archive = Js.or_else path "/" +:+ "folder-" +:+ Js.of_number stamp +:+ ".zip") /\
  (forall reg sid s c stdout stderr second,
     sftp_session reg sid = Some (s, c) ->
     ~ contains (Js.collect stdout) "ZIP_FAILED" ->
     zip_directory reg sid path stamp (ExecClosed (Some 0%Z) stdout stderr) second =
       [Emit "zip-started" (Fields [("path", path); ("message", "Creating zip file...")]);
        Exec c (zip_command archive path);
        Emit "zip-complete" (Fields [("path", archive)])]).
Proof.
  intros segment archive. subst segment archive.
  pose proof (directory_and_segment Js.slash path) as Hjoin.
  unfold zip_dir, zip_name. split; [| split; [| split]].
  - intros Hseg Hslash.
    destruct (Js.pop (Js.split Js.slash path)) as [|x seg] eqn:Hp; [congruence |].
    cbn [Js.or_else].
    destruct (Js.substring_to (Js.lastIndexOf Js.slash path + 1) path) as [|y dir] eqn:Hd.
    + exfalso. unfold Js.substring_to in Hd.
      destruct path as [|ch rest]; [simpl in Hslash; lia |].
      replace (Z.to_nat (Js.lastIndexOf Js.slash (String ch rest) + 1))
        with (S (Z.to_nat (Js.lastIndexOf Js.slash (String ch rest)))) in Hd by lia.
      discriminate Hd.
    + cbn [Js.or_else]. rewrite <- Hjoin. now rewrite !append_assoc.
  - intros Hnone Hne. rewrite Hnone in *.
    change (-1 + 1)%Z with 0%Z in *.
    assert (Hd : Js.substring_to 0 path = EmptyString)
      by (unfold Js.substring_to; now destruct path).
    rewrite Hd in *. simpl in Hjoin. rewrite Hjoin.
    destruct path; [congruence | reflexivity].
  - intros Hseg. rewrite Hseg in *. rewrite append_empty_r in Hjoin. rewrite Hjoin.
    reflexivity.
  - intros reg sid s c stdout stderr second Hreg Hclean.
    rewrite (zip_directory_closed reg sid s c Hreg).
    rewrite (proj2 (failure_test_false _ _ _) (conj eq_refl Hclean)). reflexivity.
Qed.

Lemma zip_directory_archive_path_witness :
  zip_dir "/var/www" +:+ zip_name "/var/www" 17%N = "/var/www-17.zip" /\
  zip_dir "www" +:+ zip_name "www" 17%N = "/www-17.zip" /\
  zip_dir "/var/www/" +:+ zip_name "/var/www/" 17%N = "/var/www/folder-17.zip".
Proof.
  pose proof (zip_directory_archive_path "/var/www" 17%N) as (H1 & _).
  pose proof (zip_directory_archive_path "www" 17%N) as (_ & H2 & _).
  pose proof (zip_directory_archive_path "/var/www/" 17%N) as (_ & _ & H3 & _).
  split; [| split].
  - apply H1; [discriminate | vm_compute; discriminate].
  - apply H2; [reflexivity | discriminate].
  - apply H3. reflexivity.
Defined.

(** ** The fallbacks that escape their paths *)

Lemma prepend_prepend a b r : r <> [] -> prepend a (prepend b r) = prepend (a +:+ b) r.
Proof. destruct r; [congruence |]. intros _. simpl. now rewrite append_assoc. Qed.

Lemma prepend_nonempty a r : prepend a r <> [].
Proof. destruct r; discriminate. Qed.

Lemma cut_plain prefix rest :
  sh_plain prefix = true ->
  Sh.cut Sh.Bare (prefix +:+ rest) = prepend prefix (Sh.cut Sh.Bare rest).
Proof.
  induction prefix as [|ch prefix IH]; intros Hp.
  - simpl. destruct (Sh.cut Sh.Bare rest) eqn:E; [now apply cut_nonempty in E | reflexivity].
  - simpl in Hp. apply andb_true_iff in Hp as [Hch Hp].
    apply negb_true_iff in Hch. unfold sh_special in Hch.
    apply orb_false_iff in Hch as [Hch Hb]. apply orb_false_iff in Hch as [Hch Hs].
    apply orb_false_iff in Hch as [Hsemi Hd].
    change (String ch prefix +:+ rest) with (String ch (prefix +:+ rest)).
    cbn [Sh.cut]. rewrite Hsemi, Hd, Hs, Hb, (IH Hp).
    now rewrite push_prepend by apply cut_nonempty.
Qed.

Lemma cut_quoted_escaped path rest :
  no_backslash path = true ->
  Sh.cut Sh.Bare (Js.quoted (Js.escape_dq path) +:+ rest) =
  prepend (Js.quoted (Js.escape_dq path)) (Sh.cut Sh.Bare rest).
Proof.
  intros Hnb. unfold Js.quoted.
  change (String Js.dq (Js.escape_dq path +:+ String Js.dq EmptyString) +:+ rest)
    with (String Js.dq ((Js.escape_dq path +:+ String Js.dq EmptyString) +:+ rest)).
  rewrite append_assoc.
  change (String Js.dq EmptyString +:+ rest) with (String Js.dq rest).
  cbn [Sh.cut]. change (Ascii.eqb Js.dq Js.semicolon) with false.
  change (Ascii.eqb Js.dq Js.dq) with true. cbv iota.
  rewrite escaped_path_one_word by assumption.
  now rewrite push_prepend by apply cut_nonempty.
Qed.

(** X2.  The shell commands of delete-file, rename-file, create-folder and
    read-file, which escape the double quotes of their paths, are not cut
    at a semicolon by the shell, whatever quotes and semicolons a path
    without backslash contains.  (Substitution by dollar or backquote
    inside the double quotes is not part of the statement.) *)
Theorem escaped_fallbacks_one_command (path oldPath newPath : string) :
  no_backslash path = true ->
  no_backslash oldPath = true ->
  no_backslash newPath = true ->
  Sh.commands (rm_rf_command path) = [rm_rf_command path] /\
  Sh.commands (rm_command path) = [rm_command path] /\
  Sh.commands (mkdir_command path) = [mkdir_command path] /\
  Sh.commands (cat_command path) = [cat_command path] /\
  Sh.commands (mv_command oldPath newPath) = [mv_command oldPath newPath].
Proof.
  intros Hp Ho Hn.
  unfold Sh.commands, rm_rf_command, rm_command, mkdir_command, cat_command, mv_command.
  repeat split.
  - rewrite cut_plain by reflexivity. rewrite cut_quoted_escaped by assumption.
    vm_compute (Sh.cut Sh.Bare (_ +:+ Js.quoted _)).
    now rewrite prepend_prepend by discriminate.
  - rewrite cut_plain by reflexivity. rewrite cut_quoted_escaped by assumption.
    vm_compute (Sh.cut Sh.Bare (_ +:+ Js.quoted _)).
    now rewrite prepend_prepend by discriminate.
  - rewrite cut_plain by reflexivity. rewrite cut_quoted_escaped by assumption.
    vm_compute (Sh.cut Sh.Bare (_ +:+ Js.quoted _)).
    now rewrite prepend_prepend by discriminate.
  - rewrite cut_plain by reflexivity.
    rewrite <- (append_empty_r (Js.quoted (Js.escape_dq path))) at 1.
    rewrite cut_quoted_escaped by assumption. simpl.
    now rewrite append_empty_r.
  - rewrite cut_plain by reflexivity. rewrite cut_quoted_escaped by assumption.
    rewrite (cut_plain " ") by reflexivity. rewrite cut_quoted_escaped by assumption.
    vm_compute (Sh.cut Sh.Bare (_ +:+ Js.quoted _)).
    rewrite !prepend_prepend by (try discriminate; apply prepend_nonempty).
    cbn [prepend]. now rewrite !append_assoc.
Qed.

Lemma escaped_fallbacks_one_command_witness :
  Sh.commands (rm_command hostile_path) = [rm_command hostile_path].
Proof.
  exact (proj1 (proj2 (escaped_fallbacks_one_command hostile_path hostile_path hostile_path
                         eq_refl eq_refl eq_refl))).
Defined.

(** ** More on the connection lifecycle *)

Lemma table_end_client st c : table (end_client st c) = table st.
Proof.
  unfold end_client. destruct (clients st !! c); [| reflexivity].
  now destruct (c_phase _).
Qed.

Lemma delete_gone (reg : registry) (sid : string) :
  sid <> JsObject.proto_key -> JsObject.delete reg sid !! sid = None.
Proof.
  intros Hne. rewrite delete_lookup.
  destruct (String.eqb_spec sid JsObject.proto_key); [congruence |].
  now rewrite String.eqb_refl.
Qed.

Lemma get_undefined_unregistered (reg : registry) (sid : string) :
  JsObject.get reg sid = JsObject.Undefined -> reg !! sid = None.
Proof.
  unfold JsObject.get. destruct (reg !! sid); [discriminate | reflexivity].
Qed.

(** X3.  The close callback of a client, and the close callback of its
    shell stream whenever the read of the registry under the session id
    gives something, delete what the registry has under the session id the
    client was created for, whichever transport that entry names; the
    other sessions keep their entries.  After a second connect on the same
    session, the late close of the first transport therefore unregisters
    the second one, and commands on the session are refused (for a
    session id that is no field name of the records, or with nothing
    stored under __proto__).  The session id __proto__ is the exception:
    the delete removes nothing, and the record that was stored under it
    stays. *)
Theorem close_callbacks_drop_session_entry st c cl :
  clients st !! c = Some cl ->
  (c_phase cl <> Closed ->
   exists st' out,
     step st (ClientClose c) = Some (st', out) /\
     (forall sid, sid <> c_session cl -> table st' !! sid = table st !! sid) /\
     (c_session cl <> "__proto__" ->
      table st' !! c_session cl = None /\
      (JsObject.field_name (c_session cl) = false \/ table st !! "__proto__" = None ->
       forall cmd, command (table st') (c_session cl) cmd =
                   [Emit "error" (Text "No active SSH connection")])) /\
     (c_session cl = "__proto__" -> table st' = table st)) /\
  (c_kind cl = ShellConn -> is_Some (c_channel cl) ->
   exists st' out,
     step st (StreamClose c) = Some (st', out) /\
     (forall sid, sid <> c_session cl -> table st' !! sid = table st !! sid) /\
     (c_session cl <> "__proto__" -> table st' !! c_session cl = None) /\
     (c_session cl = "__proto__" -> table st' = table st) /\
     (In (ConnEnd c) out <->
      JsObject.get (table st) (c_session cl) <> JsObject.Undefined)).
Proof.
  intros Hc. split.
  - intros Hp.
    assert (Hstep : step st (ClientClose c) =
              Some (forget (set_client st c (with_phase cl Closed)) (c_session cl),
                    match c_kind cl with
                    | ShellConn => [Emit "message" (Text "Connection closed")]
                    | SftpConn => []
                    end)).
    { simpl. rewrite Hc. destruct (c_phase cl); congruence. }
    rewrite Hstep. eexists. eexists. split; [reflexivity |].
    cbn [forget set_client table]. split; [| split].
    + intros sid Hne. now apply delete_other.
    + intros Hne.
      assert (Hgone : JsObject.delete (table st) (c_session cl) !! c_session cl = None)
        by now apply delete_gone.
      split; [exact Hgone |]. intros _ cmd. apply command_without_record.
      intros (r & h & Hr & _). rewrite Hgone in Hr. discriminate.
    + intros ->. reflexivity.
  - intros Hk [ch Hch]. simpl. rewrite Hc, Hk, Hch.
    destruct (JsObject.get (table st) (c_session cl)) as [|r|h|h|h|] eqn:Hg;
      cbn [JsObject.truthy];
      (eexists; eexists; split; [reflexivity |]);
      cbn [forget set_client table]; rewrite ?table_end_client; cbn [set_client table].
    1: { split; [intros sid Hne; reflexivity |].
         split; [intros _; now apply get_undefined_unregistered |].
         split; [intros _; reflexivity |]. split; [| congruence].
         intros [H|[]]. discriminate H. }
    all: split; [intros sid Hne; now apply delete_other |];
         split; [intros Hne; now apply delete_gone |];
         split; [intros ->; reflexivity |];
         split; [discriminate | intros _; right; now left].
Qed.

Lemma close_callbacks_drop_session_entry_witness :
  conn <$> table reconnected_state !! "sess" = Some 2 /\
  exists st' out,
    step reconnected_state (ClientClose 0) = Some (st', out) /\
    table st' !! "sess" = None /\
    (forall cmd, command (table st') "sess" cmd =
                 [Emit "error" (Text "No active SSH connection")]).
Proof.
  split; [vm_compute; reflexivity |].
  destruct (proj1 (close_callbacks_drop_session_entry reconnected_state 0
                     {| c_session := "sess"; c_kind := ShellConn; c_initialPath := "/home";
                        c_phase := Open; c_channel := Some 1; c_opened := true |}
                     ltac:(vm_compute; reflexivity)) ltac:(discriminate))
    as (st' & out & Hstep & _ & Hgone & _).
  exists st', out. split; [exact Hstep |].
  destruct (Hgone ltac:(discriminate)) as [Hnone Hrefused].
  split; [exact Hnone |]. apply Hrefused. now left.
Defined.

(** X4.  The disconnect callback of the socket ends the transport of the
    record the registry holds under the session id and deletes the entry,
    and leaves the other sessions alone.  With nothing registered it does
    nothing when the read of the registry gives undefined; under a key the
    registry inherits (constructor, toString, ...) the read gives
    something that has no conn, and the callback throws.  Under __proto__
    the record stays after the delete.  For a session id that is a plain
    key the entry is gone afterwards, and a second run does nothing. *)
Theorem socket_disconnect_teardown st sid :
  exists st1 out1,
    step st (SocketDisconnect sid) = Some (st1, out1) /\
    (forall sid', sid' <> sid -> table st1 !! sid' = table st !! sid') /\
    (forall r, table st !! sid = Some r ->
       out1 = [ConnEnd (conn r)] /\
       (sid <> "__proto__" -> table st1 !! sid = None) /\
       (sid = "__proto__" -> table st1 = table st) /\
       (forall cl, clients st !! conn r = Some cl ->
          exists cl', clients st1 !! conn r = Some cl' /\
                      (c_phase cl' = Ending \/ c_phase cl' = Closed))) /\
    (table st !! sid = None ->
       st1 = st /\
       (JsObject.get (table st) sid = JsObject.Undefined -> out1 = []) /\
       (JsObject.get (table st) sid = JsObject.Builtin ->
        out1 = [Raise "sshConnections[sessionId].conn.end"])) /\
    (JsObject.plain sid = true ->
       table st1 !! sid = None /\
       step st1 (SocketDisconnect sid) = Some (st1, [])).
Proof.
  destruct (table st !! sid) as [r|] eqn:H.
  - exists (forget (end_client st (conn r)) sid), [ConnEnd (conn r)].
    assert (Hstep : step st (SocketDisconnect sid) =
              Some (forget (end_client st (conn r)) sid, [ConnEnd (conn r)])).
    { simpl. now rewrite (get_own _ _ _ H). }
    split; [exact Hstep |]. cbn [forget table]. rewrite table_end_client.
    split; [intros sid' Hne; now apply delete_other |].
    split; [| split; [discriminate |]].
    + intros r0 [= <-]. split; [reflexivity |].
      split; [intros Hne; now apply delete_gone |].
      split; [intros ->; reflexivity |].
      intros cl Hcl. unfold end_client. rewrite Hcl.
      destruct (c_phase cl) eqn:Hp; simpl;
        try (rewrite lookup_insert_eq; eexists; split; [reflexivity | now left]).
      exists cl. split; [assumption | now right].
    + intros Hp.
      assert (Hgone : JsObject.delete (table st) sid !! sid = None) by now apply delete_plain.
      split; [exact Hgone |]. simpl.
      rewrite (get_plain _ sid Hp). cbn [forget table]. rewrite table_end_client.
      now rewrite Hgone.
  - destruct (JsObject.get (table st) sid) as [|r|h|h|h|] eqn:Hg.
    2: { apply get_stored in Hg. congruence. }
    all: eexists; eexists; (split; [simpl; rewrite Hg; reflexivity |]);
         (split; [reflexivity |]); (split; [discriminate |]);
         (split; [intros _; split; [reflexivity | split; intros Hv;
                                    first [reflexivity | discriminate Hv]] |]);
         intros Hp; (split; [exact H |]); simpl;
         rewrite (get_plain _ sid Hp), H; try reflexivity;
         rewrite (get_plain _ sid Hp), H in Hg; discriminate Hg.
Qed.

(** X5.  While the shell of a client is open, its output goes to the
    browser piece by piece, in the order it arrives, each piece as the
    text that toString('utf8') gives for that chunk alone, standard output
    as response and standard error as error; nothing else happens and the
    state stays as it is. *)
Theorem shell_output_relayed_in_order st c cl (outputs : list shell_output) :
  clients st !! c = Some cl ->
  c_kind cl = ShellConn ->
  is_Some (c_channel cl) ->
  run st (map (output_event c) outputs) = Some (st, map output_notification outputs).
Proof.
  intros Hc Hk [ch Hch].
  induction outputs as [|o outputs IH]; [reflexivity |].
  cbn [map run].
  assert (Hstep : step st (output_event c o) = Some (st, [output_notification o])).
  { destruct o; simpl; now rewrite Hc, Hk, Hch. }
  now rewrite Hstep, IH.
Qed.

Lemma shell_output_relayed_in_order_witness :
  run reconnected_state
    [StreamData 2 (Buffer.of_text "total 0");
     StreamStderr 2 (Buffer.of_text "ls: cannot access");
     StreamData 2 (Buffer.of_text "$ ")] =
  Some (reconnected_state,
        [Emit "response" (Text "total 0"); Emit "error" (Text "ls: cannot access");
         Emit "response" (Text "$ ")]).
Proof.
  refine (shell_output_relayed_in_order reconnected_state 2
            {| c_session := "sess"; c_kind := ShellConn; c_initialPath := "/home";
               c_phase := Open; c_channel := Some 3; c_opened := true |}
            [Stdout (Buffer.of_text "total 0");
             Stderr (Buffer.of_text "ls: cannot access");
             Stdout (Buffer.of_text "$ ")] _ eq_refl _).
  - vm_compute. reflexivity.
  - now exists 3.
Defined.

(** X6.  With a shell stream registered for the session, every command
    line is written to that stream as it is, followed by a newline, in the
    order the commands arrive; nothing is sent back and the state does not
    change. *)
Theorem commands_written_in_order st sid r h (cmds : list string) :
  table st !! sid = Some r ->
  stream r = Some h ->
  run st (map (SocketCommand sid) cmds) =
    Some (st, map (fun cmd => StreamWrite h (cmd +:+ nl)) cmds).
Proof.
  intros Hr Hs.
  induction cmds as [|cmd cmds IH]; [reflexivity |].
  cbn [map run]. cbn [step]. unfold command at 1.
  rewrite (get_own _ _ _ Hr). cbn [JsObject.stream_of]. rewrite Hs.
  now rewrite IH.
Qed.

Lemma commands_written_in_order_witness :
  run reconnected_state [SocketCommand "sess" "cd /srv"; SocketCommand "sess" "ls"] =
  Some (reconnected_state,
        [StreamWrite 3 ("cd /srv" +:+ nl); StreamWrite 3 ("ls" +:+ nl)]).
Proof.
  refine (commands_written_in_order reconnected_state "sess"
            {| conn := 2; stream := Some 3; sftp := None |} 3 ["cd /srv"; "ls"] _ eq_refl).
  vm_compute. reflexivity.
Defined.

(** X7.  One session identifier holds a shell or an SFTP session, not
    both: once the shell of a connect-ssh opens, every file request on
    that session is answered No active SFTP connection, also when an SFTP
    session was registered before; once the SFTP session of a connect-sftp
    opens, commands on that session are answered No active SSH
    connection. *)
Theorem shell_and_sftp_exclude_each_other st c cl st' out :
  clients st !! c = Some cl ->
  step st (ChannelOpened c) = Some (st', out) ->
  (c_kind cl = ShellConn ->
   (forall req env, on_request (table st') (c_session cl) req env = no_sftp) /\
   (forall cmd, exists h, command (table st') (c_session cl) cmd = [StreamWrite h (cmd +:+ nl)])) /\
  (c_kind cl = SftpConn ->
   (forall cmd, command (table st') (c_session cl) cmd =
                [Emit "error" (Text "No active SSH connection")]) /\
   (exists s, sftp_session (table st') (c_session cl) = Some (s, c))).
Proof.
  intros Hc Hstep.
  destruct (step_channel_opened st c cl st' out Hc Hstep) as [-> _].
  split; intros Hk.
  - assert (Hentry : table (register st c cl) !! c_session cl =
                     Some {| conn := c; stream := Some (next_handle st); sftp := None |}).
    { simpl. unfold JsObject.set. now rewrite lookup_insert_eq, Hk. }
    split.
    + intros req env. apply refused_request.
      unfold file_guard. now rewrite (get_own _ _ _ Hentry).
    + intros cmd. exists (next_handle st). unfold command.
      now rewrite (get_own _ _ _ Hentry).
  - assert (Hentry : table (register st c cl) !! c_session cl =
                     Some {| conn := c; stream := None; sftp := Some (next_handle st) |}).
    { simpl. unfold JsObject.set. now rewrite lookup_insert_eq, Hk. }
    split.
    + intros cmd. unfold command. now rewrite (get_own _ _ _ Hentry).
    + exists (next_handle st). unfold sftp_session, file_guard.
      now rewrite (get_own _ _ _ Hentry).
Qed.

Lemma shell_and_sftp_exclude_each_other_witness :
  on_request (table reconnected_state) "sess" (ListDirectory "/srv")
    (sample_env None (ExecRefused "unused")) = no_sftp.
Proof.
  refine (proj1 (proj1 (shell_and_sftp_exclude_each_other reconnecting_state 2 second_client
                          reconnected_state [] _ _) eq_refl)
            (ListDirectory "/srv") (sample_env None (ExecRefused "unused")));
    vm_compute; reflexivity.
Defined.

(** ** The update-or-append step of the stores *)

Section Upsert.

Context {A : Type}.
Variables (same : A -> bool) (x : A).

Lemma findIndex_none (l : list A) :
  JsArray.findIndex same l = (-1)%Z <-> Forall (fun y => same y = false) l.
Proof.
  induction l as [|y l IH]; simpl.
  - split; [constructor | reflexivity].
  - destruct (same y) eqn:E.
    + split; [discriminate |]. intros H. inversion H; congruence.
    + destruct (Z.eqb_spec (JsArray.findIndex same l) (-1)) as [Hi|Hi].
      * split; [| reflexivity]. intros _. constructor; [assumption | now apply IH].
      * split.
        -- intros H. exfalso.
           assert (0 <= JsArray.findIndex same l)%Z; [| lia].
           clear -Hi. induction l as [|z l IHl]; simpl in *; [congruence |].
           destruct (same z); [lia |].
           destruct (Z.eqb_spec (JsArray.findIndex same l) (-1)); [congruence |].
           specialize (IHl n). lia.
        -- intros H. inversion H; subst. exfalso. apply Hi. now apply IH.
Qed.

Lemma findIndex_found (l : list A) :
  JsArray.findIndex same l <> (-1)%Z ->
  exists pre y post,
    l = pre ++ y :: post /\
    Forall (fun z => same z = false) pre /\
    same y = true /\
    JsArray.findIndex same l = Z.of_nat (length pre).
Proof.
  induction l as [|z l IH]; simpl; [congruence |].
  destruct (same z) eqn:E.
  - intros _. exists [], z, l. repeat split; [constructor | assumption].
  - destruct (Z.eqb_spec (JsArray.findIndex same l) (-1)) as [Hi|Hi]; [congruence |].
    intros _. destruct (IH Hi) as (pre & y & post & -> & Hpre & Hy & Hidx).
    exists (z :: pre), y, post. repeat split; try assumption.
    + now constructor.
    + rewrite Hidx. simpl length. lia.
Qed.

(** The array after the step: the new record takes the place of the first
    record under its key, or goes at the end when there is none. *)
Lemma upsert_shape (l : list A) :
  (Forall (fun y => same y = false) l /\ upsert same x l = l ++ [x]) \/
  (exists pre y post,
     l = pre ++ y :: post /\
     Forall (fun z => same z = false) pre /\
     same y = true /\
     upsert same x l = pre ++ x :: post).
Proof.
  unfold upsert.
  destruct (Z.eqb_spec (JsArray.findIndex same l) (-1)) as [Hi|Hi]; simpl.
  - left. split; [now apply findIndex_none | reflexivity].
  - right. destruct (findIndex_found l Hi) as (pre & y & post & -> & Hpre & Hy & Hidx).
    exists pre, y, post. repeat split; try assumption.
    unfold JsArray.assign. rewrite Hidx, Nat2Z.id.
    rewrite insert_app_r_alt by lia. now rewrite Nat.sub_diag.
Qed.

Lemma find_skip (p : A -> bool) (pre rest : list A) :
  Forall (fun z => p z = false) pre -> JsArray.find p (pre ++ rest) = JsArray.find p rest.
Proof.
  induction 1 as [|z pre Hz _ IH]; [reflexivity |]. simpl. now rewrite Hz.
Qed.

Lemma find_upsert (l : list A) :
  same x = true -> JsArray.find same (upsert same x l) = Some x.
Proof.
  intros Hx.
  destruct (upsert_shape l) as [[Hnone ->] | (pre & y & post & -> & Hpre & Hy & ->)];
    rewrite find_skip by assumption; simpl; now rewrite Hx.
Qed.

Lemma filter_skip (q : A -> bool) (l : list A) :
  Forall (fun z => q z = false) l -> List.filter q l = [].
Proof.
  induction 1 as [|z l Hz _ IH]; [reflexivity |]. simpl. now rewrite Hz.
Qed.

(** Records the step does not aim at stay, in their order. *)
Lemma filter_upsert_other (q : A -> bool) (l : list A) :
  (forall y, same y = true -> q y = false) ->
  q x = false ->
  List.filter q (upsert same x l) = List.filter q l.
Proof.
  intros Hdisj Hx.
  destruct (upsert_shape l) as [[Hnone ->] | (pre & y & post & -> & Hpre & Hy & ->)];
    rewrite !List.filter_app; simpl; rewrite Hx.
  - now rewrite app_nil_r.
  - now rewrite (Hdisj y Hy).
Qed.

Lemma length_upsert (l : list A) :
  length (upsert same x l) =
  if (JsArray.findIndex same l =? -1)%Z then S (length l) else length l.
Proof.
  unfold upsert. destruct (JsArray.findIndex same l =? -1)%Z; simpl.
  - unfold JsArray.push. rewrite length_app. simpl. lia.
  - unfold JsArray.assign. apply length_insert.
Qed.

End Upsert.

(** With one record per key before the step, there is one per key after. *)
Lemma upsert_keys_unique {A : Type} (key : A -> string) (x : A) (l : list A) :
  NoDup (map key l) ->
  NoDup (map key (upsert (fun y => String.eqb (key y) (key x)) x l)).
Proof.
  intros Hnd.
  destruct (upsert_shape (fun y => String.eqb (key y) (key x)) x l)
    as [[Hnone ->] | (pre & y & post & -> & Hpre & Hy & ->)].
  - rewrite map_app. simpl. apply NoDup_app. split; [assumption |]. split.
    + intros k Hin [Hk|[]]%list_elem_of_In. subst k.
      apply list_elem_of_In, in_map_iff in Hin as (z & Hz & Hin).
      rewrite Forall_forall in Hnone.
      specialize (Hnone z (proj2 (list_elem_of_In _ _) Hin)). cbv beta in Hnone.
      apply String.eqb_neq in Hnone. congruence.
    + apply NoDup_singleton.
  - apply String.eqb_eq in Hy. rewrite map_app in *. simpl in *. now rewrite <- Hy.
Qed.

(** Deleting a key after the step gives what deleting it before gives. *)
Lemma delete_after_upsert {A : Type} (key : A -> string) (k : string) (x : A) (l : list A) :
  key x = k ->
  List.filter (fun y => negb (String.eqb (key y) k))
    (upsert (fun y => String.eqb (key y) k) x l) =
  List.filter (fun y => negb (String.eqb (key y) k)) l.
Proof.
  intros Hk. apply filter_upsert_other.
  - intros y Hy. now rewrite Hy.
  - now rewrite Hk, String.eqb_refl.
Qed.

Lemma filter_all {A : Type} (q : A -> bool) (l : list A) :
  Forall (fun y => q y = true) l -> List.filter q l = l.
Proof.
  induction 1 as [|z l Hz _ IH]; [reflexivity |]. simpl. now rewrite Hz, IH.
Qed.

Lemma delete_keeps_other_keys {A : Type} (key : A -> string) (k k' : string) (l : list A) :
  k' <> k ->
  with_key key k' (List.filter (fun y => negb (String.eqb (key y) k)) l) = with_key key k' l.
Proof.
  intros Hne. unfold with_key. induction l as [|z l IH]; [reflexivity |]. simpl.
  destruct (String.eqb_spec (key z) k) as [Hz|Hz]; simpl.
  - destruct (String.eqb_spec (key z) k'); [congruence | assumption].
  - now rewrite IH.
Qed.

Lemma delete_removes_key {A : Type} (key : A -> string) (k : string) (l : list A) :
  with_key key k (List.filter (fun y => negb (String.eqb (key y) k)) l) = [].
Proof.
  unfold with_key. induction l as [|z l IH]; [reflexivity |]. simpl.
  destruct (String.eqb_spec (key z) k) as [Hz|Hz]; simpl; [assumption |].
  destruct (String.eqb_spec (key z) k); [congruence | assumption].
Qed.

Lemma delete_twice {A : Type} (q : A -> bool) (l : list A) :
  List.filter q (List.filter q l) = List.filter q l.
Proof.
  induction l as [|z l IH]; [reflexivity |]. simpl.
  destruct (q z) eqn:E; simpl; [now rewrite E, IH | assumption].
Qed.

Lemma with_key_unique {A : Type} (key : A -> string) (x : A) (l : list A) :
  NoDup (map key l) -> In x l -> with_key key (key x) l = [x].
Proof.
  unfold with_key. induction l as [|z l IH]; simpl; [contradiction |].
  intros Hnd Hin. apply NoDup_cons in Hnd as [Hz Hnd].
  destruct Hin as [->|Hin].
  - rewrite String.eqb_refl. f_equal. apply filter_skip.
    rewrite Forall_forall. intros y Hy. apply String.eqb_neq. intros E.
    apply Hz. rewrite <- E. apply list_elem_of_In, in_map. now apply list_elem_of_In.
  - destruct (String.eqb_spec (key z) (key x)) as [E|_]; [| now apply IH].
    exfalso. apply Hz. rewrite E. now apply list_elem_of_In, in_map.
Qed.

Lemma find_some_in {A : Type} (p : A -> bool) (l : list A) (x : A) :
  JsArray.find p l = Some x -> In x l /\ p x = true.
Proof.
  induction l as [|z l IH]; simpl; [discriminate |].
  destruct (p z) eqn:E.
  - intros [= ->]. split; [now left | assumption].
  - intros H. destruct (IH H). split; [now right | assumption].
Qed.

Lemma find_none_iff {A : Type} (p : A -> bool) (l : list A) :
  JsArray.find p l = None <-> Forall (fun y => p y = false) l.
Proof.
  induction l as [|z l IH]; simpl.
  - split; [constructor | reflexivity].
  - destruct (p z) eqn:E.
    + split; [discriminate |]. intros H. inversion H; congruence.
    + rewrite IH. split; [now constructor |]. intros H. now inversion H.
Qed.

Lemma field_or_truthy (x : field) (dflt : string) :
  Js.truthy dflt = true -> Js.truthy (field_or x dflt) = true.
Proof.
  intros Hd. unfold field_or, missing.
  destruct x as [s|]; [| assumption]. simpl.
  destruct (Js.truthy s) eqn:E; simpl; assumption.
Qed.

Lemma present_truthy (x : field) : missing x = false -> Js.truthy (text_of x) = true.
Proof.
  destruct x as [s|]; simpl; [| discriminate]. now destruct (Js.truthy s).
Qed.

(** ** Saved connections *)

(** X8.  A POST /api/connections with name, host and username stores one
    record under that name: it takes the place of the first record that
    had the name, or goes at the end; a look-up by the name finds it, the
    records under other names stay as they were, and a file with one
    record per name still has one record per name.  Port, initial path
    and mode are never stored empty: they default to 22, /home and
    terminal. *)
Theorem connections_post_stores_one_record (b : Connections.body) (isoNow : string)
    (f : file Connections.entry) :
  missing (Connections.b_name b) = false ->
  missing (Connections.b_host b) = false ->
  missing (Connections.b_username b) = false ->
  let n := text_of (Connections.b_name b) in
  let before := Connections.getSavedConnections f in
  exists data after,
    Connections.post true b isoNow f true =
      (Holds after,
       Json 200 (JObj [("success", JBool true);
                       ("connection", Connections.entry_json data)])) /\
    Connections.name data = n /\
    Connections.host data = text_of (Connections.b_host b) /\
    Connections.username data = text_of (Connections.b_username b) /\
    Connections.password data = Connections.b_password b /\
    Js.truthy (Connections.port data) = true /\
    Js.truthy (Connections.initialPath data) = true /\
    Js.truthy (Connections.mode data) = true /\
    JsArray.find (fun conn => String.eqb (Connections.name conn) n) after = Some data /\
    (forall n', n' <> n ->
       with_key Connections.name n' after = with_key Connections.name n' before) /\
    (length before <= length after <= S (length before)) /\
    (NoDup (map Connections.name before) ->
     NoDup (map Connections.name after) /\ with_key Connections.name n after = [data]).
Proof.
  intros Hn Hh Hu n before. subst n before.
  unfold Connections.post. rewrite Hn, Hh, Hu. simpl negb. cbv iota. simpl orb. cbv iota.
  set (data := {| Connections.name := text_of (Connections.b_name b);
                  Connections.host := text_of (Connections.b_host b);
                  Connections.port := field_or (Connections.b_port b) "22";
                  Connections.username := text_of (Connections.b_username b);
                  Connections.password := Connections.b_password b;
                  Connections.initialPath := field_or (Connections.b_initialPath b) "/home";
                  Connections.mode := field_or (Connections.b_mode b) "terminal";
                  Connections.createdAt := isoNow |}).
  set (same := fun conn => String.eqb (Connections.name conn) (text_of (Connections.b_name b))).
  assert (Hsame : same data = true) by apply String.eqb_refl.
  exists data, (upsert same data (Connections.getSavedConnections f)).
  split; [reflexivity |].
  do 4 (split; [reflexivity |]).
  do 3 (split; [now apply field_or_truthy |]).
  split; [now apply find_upsert |].
  split; [| split].
  - intros n' Hne. unfold with_key. apply filter_upsert_other.
    + intros y Hy. apply String.eqb_eq in Hy. apply String.eqb_neq. congruence.
    + apply String.eqb_neq. simpl. congruence.
  - rewrite length_upsert. destruct (_ =? _)%Z; lia.
  - intros Hnd.
    assert (Hnd' : NoDup (map Connections.name
                            (upsert same data (Connections.getSavedConnections f))))
      by exact (upsert_keys_unique Connections.name data _ Hnd).
    split; [assumption |].
    apply (with_key_unique Connections.name data); [assumption |].
    now apply (find_some_in same), find_upsert.
Qed.

(** X9.  DELETE /api/connections/:name removes every record under the name
    and keeps the others in their order; deleting again changes nothing;
    deleting a name that is not there leaves the list as it is; and a
    POST of a name followed by its DELETE gives the list the DELETE alone
    gives. *)
Theorem connections_delete_removes_name (n : string) (f : file Connections.entry) :
  let before := Connections.getSavedConnections f in
  exists after,
    Connections.delete true n f true = (Holds after, Json 200 (JObj [("success", JBool true)])) /\
    with_key Connections.name n after = [] /\
    (forall n', n' <> n ->
       with_key Connections.name n' after = with_key Connections.name n' before) /\
    Connections.delete true n (Holds after) true =
      (Holds after, Json 200 (JObj [("success", JBool true)])) /\
    (with_key Connections.name n before = [] -> after = before) /\
    (forall b isoNow,
       missing (Connections.b_name b) = false ->
       missing (Connections.b_host b) = false ->
       missing (Connections.b_username b) = false ->
       text_of (Connections.b_name b) = n ->
       fst (Connections.delete true n (fst (Connections.post true b isoNow f true)) true) =
       Holds after).
Proof.
  intros before. subst before. unfold Connections.delete. simpl.
  eexists. split; [reflexivity |].
  split; [apply delete_removes_key |].
  split; [intros n' Hne; now apply delete_keeps_other_keys |].
  split; [now rewrite delete_twice |].
  split.
  - intros Hnone. apply filter_all. unfold with_key in Hnone.
    induction (Connections.getSavedConnections f) as [|z l IH]; [constructor |].
    simpl in Hnone. destruct (String.eqb (Connections.name z) n) eqn:E; [discriminate |].
    constructor; [now rewrite E | now apply IH].
  - intros b isoNow Hn Hh Hu Hname. unfold Connections.post.
    rewrite Hn, Hh, Hu. simpl. f_equal. rewrite Hname.
    now apply (delete_after_upsert Connections.name).
Qed.


Lemma connections_post_witness :
  exists data after,
    Connections.post true
      {| Connections.b_name := Some "web"; Connections.b_host := Some "10.0.0.5";
         Connections.b_port := None; Connections.b_username := Some "deploy";
         Connections.b_password := None; Connections.b_initialPath := Some EmptyString;
         Connections.b_mode := None |}
      "2024-05-01T10:00:00.000Z" Unreadable true =
      (Holds after,
       Json 200 (JObj [("success", JBool true);
                       ("connection", Connections.entry_json data)])) /\
    Connections.name data = "web" /\
    JsArray.find (fun conn => String.eqb (Connections.name conn) "web") after = Some data.
Proof.
  destruct (connections_post_stores_one_record
              {| Connections.b_name := Some "web"; Connections.b_host := Some "10.0.0.5";
                 Connections.b_port := None; Connections.b_username := Some "deploy";
                 Connections.b_password := None;
                 Connections.b_initialPath := Some EmptyString;
                 Connections.b_mode := None |}
              "2024-05-01T10:00:00.000Z" Unreadable eq_refl eq_refl eq_refl)
    as (data & after & Hpost & Hname & _ & _ & _ & _ & _ & _ & Hfind & _).
  exists data, after. split; [exact Hpost |]. split; [exact Hname | exact Hfind].
Defined.

Lemma connections_delete_witness :
  fst (Connections.delete true "web"
         (fst (Connections.post true
                 {| Connections.b_name := Some "web"; Connections.b_host := Some "10.0.0.5";
                    Connections.b_port := None; Connections.b_username := Some "deploy";
                    Connections.b_password := None; Connections.b_initialPath := None;
                    Connections.b_mode := None |}
                 "2024-05-01T10:00:00.000Z" (Holds []) true)) true) = Holds [].
Proof.
  destruct (connections_delete_removes_name "web" (Holds []))
    as (after & Hdel & _ & _ & _ & Hsame & Hround).
  rewrite (Hround {| Connections.b_name := Some "web"; Connections.b_host := Some "10.0.0.5";
                     Connections.b_port := None; Connections.b_username := Some "deploy";
                     Connections.b_password := None; Connections.b_initialPath := None;
                     Connections.b_mode := None |}
             "2024-05-01T10:00:00.000Z" eq_refl eq_refl eq_refl eq_refl).
  f_equal. now apply Hsame.
Defined.


(** ** API keys *)

(** X11.  POST /api/apikeys with a provider and a key keeps one key per
    provider: the new key replaces the key the provider had or is added, a
    look-up by provider finds it, the keys of other providers stay, and a
    file with one key per provider still has one per provider.
    DELETE /api/apikeys/:provider removes the keys of the provider and no
    other.  A missing provider or key gives status 400 and no write. *)
Theorem apikeys_one_key_per_provider (b_provider b_apiKey : field) (isoNow : string)
    (f : file ApiKeys.entry) :
  let p := text_of b_provider in
  let before := ApiKeys.getApiKeys f in
  (missing b_provider = false -> missing b_apiKey = false ->
   exists data after,
     ApiKeys.post true b_provider b_apiKey isoNow f true =
       (Holds after, Json 200 (JObj [("success", JBool true)])) /\
     data = {| ApiKeys.provider := p; ApiKeys.apiKey := text_of b_apiKey;
               ApiKeys.updatedAt := isoNow |} /\
     JsArray.find (fun key => String.eqb (ApiKeys.provider key) p) after = Some data /\
     (forall p', p' <> p ->
        with_key ApiKeys.provider p' after = with_key ApiKeys.provider p' before) /\
     (NoDup (map ApiKeys.provider before) ->
      NoDup (map ApiKeys.provider after) /\ with_key ApiKeys.provider p after = [data])) /\
  (missing b_provider || missing b_apiKey = true ->
   forall writable,
     ApiKeys.post true b_provider b_apiKey isoNow f writable =
       (f, Json 400 (JObj [("error", JStr "Provider and API key are required")]))) /\
  (forall q,
   exists after,
     ApiKeys.delete true q f true = (Holds after, Json 200 (JObj [("success", JBool true)])) /\
     with_key ApiKeys.provider q after = [] /\
     (forall p', p' <> q ->
        with_key ApiKeys.provider p' after = with_key ApiKeys.provider p' before)).
Proof.
  intros p before. subst p before. split; [| split].
  - intros Hp Hk. unfold ApiKeys.post. rewrite Hp, Hk. simpl.
    set (data := {| ApiKeys.provider := text_of b_provider;
                    ApiKeys.apiKey := text_of b_apiKey;
                    ApiKeys.updatedAt := isoNow |}).
    set (same := fun key => String.eqb (ApiKeys.provider key) (text_of b_provider)).
    assert (Hsame : same data = true) by apply String.eqb_refl.
    exists data, (upsert same data (ApiKeys.getApiKeys f)).
    split; [reflexivity |]. split; [reflexivity |].
    split; [now apply find_upsert |]. split.
    + intros p' Hne. unfold with_key. apply filter_upsert_other.
      * intros y Hy. apply String.eqb_eq in Hy. apply String.eqb_neq. congruence.
      * apply String.eqb_neq. simpl. congruence.
    + intros Hnd.
      assert (Hnd' : NoDup (map ApiKeys.provider (upsert same data (ApiKeys.getApiKeys f))))
        by exact (upsert_keys_unique ApiKeys.provider data _ Hnd).
      split; [assumption |].
      apply (with_key_unique ApiKeys.provider data); [assumption |].
      now apply (find_some_in same), find_upsert.
  - intros H writable. unfold ApiKeys.post. simpl. now rewrite H.
  - intros q. unfold ApiKeys.delete. simpl. eexists. split; [reflexivity |].
    split; [apply delete_removes_key |].
    intros p' Hne. now apply delete_keeps_other_keys.
Qed.

Lemma apikeys_witness :
  exists data after,
    ApiKeys.post true (Some "openai") (Some "sk-new") "2024-05-01T10:00:00.000Z"
      (Holds [{| ApiKeys.provider := "openai"; ApiKeys.apiKey := "sk-old";
                 ApiKeys.updatedAt := "2024-01-01T00:00:00.000Z" |}]) true =
      (Holds after, Json 200 (JObj [("success", JBool true)])) /\
    data = {| ApiKeys.provider := "openai"; ApiKeys.apiKey := "sk-new";
              ApiKeys.updatedAt := "2024-05-01T10:00:00.000Z" |} /\
    JsArray.find (fun key => String.eqb (ApiKeys.provider key) "openai") after = Some data.
Proof.
  destruct (proj1 (apikeys_one_key_per_provider (Some "openai") (Some "sk-new")
                     "2024-05-01T10:00:00.000Z"
                     (Holds [{| ApiKeys.provider := "openai"; ApiKeys.apiKey := "sk-old";
                                ApiKeys.updatedAt := "2024-01-01T00:00:00.000Z" |}]))
              eq_refl eq_refl)
    as (data & after & Hpost & Hdata & Hfind & _).
  exists data, after. split; [exact Hpost |]. split; [exact Hdata | exact Hfind].
Defined.

(** ** Chat history *)

(** X12.  After a POST /api/chat/:projectId, a GET of the same project
    returns the messages and file context that were posted (empty arrays
    for absent ones) with the time of the POST, and the histories of other
    projects are returned as before.  A GET of a project without a record
    returns an empty history stamped with the time of the GET and writes
    nothing; after a DELETE the project again has no record. *)
Theorem chat_post_then_get (projectId : string) (b_messages b_file_context : option (list json))
    (postedAt askedAt : string) (f : file Chat.entry) :
  Js.truthy projectId = true ->
  let stored := {| Chat.project_id := projectId; Chat.timestamp := postedAt;
                   Chat.messages := Chat.array_or_empty b_messages;
                   Chat.file_context := Chat.array_or_empty b_file_context |} in
  exists f',
    Chat.post true projectId b_messages b_file_context postedAt f true =
      (f', Json 200 (JObj [("success", JBool true)])) /\
    Chat.get true projectId askedAt f' = Json 200 (Chat.entry_json stored) /\
    (forall other, other <> projectId ->
       Chat.get true other askedAt f' = Chat.get true other askedAt f) /\
    (forall other,
       with_key Chat.project_id other (Chat.getChatHistory f) = [] ->
       Chat.get true other askedAt f =
         Json 200 (Chat.entry_json {| Chat.project_id := other; Chat.timestamp := askedAt;
                                      Chat.messages := []; Chat.file_context := [] |})) /\
    Chat.get true projectId askedAt (fst (Chat.delete true projectId f' true)) =
      Json 200 (Chat.entry_json {| Chat.project_id := projectId; Chat.timestamp := askedAt;
                                   Chat.messages := []; Chat.file_context := [] |}).
Proof.
  intros Hpid stored. unfold Chat.post. rewrite Hpid. simpl.
  set (same := fun chat => String.eqb (Chat.project_id chat) projectId).
  assert (Hsame : same stored = true) by apply String.eqb_refl.
  eexists. split; [reflexivity |].
  assert (Hfind : forall (q : Chat.entry -> bool) l,
            List.filter q l = [] -> JsArray.find q l = None).
  { intros q l. induction l as [|z l IH]; simpl; [reflexivity |].
    destruct (q z); [discriminate | assumption]. }
  assert (Hfilter : forall (q : Chat.entry -> bool) l l',
            List.filter q l = List.filter q l' -> JsArray.find q l = JsArray.find q l').
  { intros q l. induction l as [|z l IH]; intros l' H; simpl in *.
    - symmetry. now apply Hfind.
    - destruct (q z) eqn:E.
      + induction l' as [|z' l' IH']; simpl in *; [discriminate |].
        destruct (q z') eqn:E'; [congruence | now apply IH'].
      + now apply IH. }
  split; [| split; [| split]].
  - unfold Chat.get. simpl. fold same. now rewrite find_upsert.
  - intros other Hne. unfold Chat.get. simpl.
    rewrite (Hfilter _ (upsert same stored (Chat.getChatHistory f)) (Chat.getChatHistory f));
      [reflexivity |].
    apply filter_upsert_other.
    + intros y Hy. apply String.eqb_eq in Hy. apply String.eqb_neq. congruence.
    + apply String.eqb_neq. simpl. congruence.
  - intros other Hnone. unfold Chat.get. simpl. now rewrite (Hfind _ _ Hnone).
  - unfold Chat.get, Chat.delete. simpl.
    rewrite Hfind; [reflexivity |].
    exact (delete_removes_key Chat.project_id projectId _).
Qed.

Lemma chat_post_then_get_witness :
  exists f',
    Chat.post true "host_user_/srv" (Some [JStr "hello"]) None "2024-05-01T10:00:00.000Z"
      Unreadable true = (f', Json 200 (JObj [("success", JBool true)])) /\
    Chat.get true "host_user_/srv" "2024-05-02T08:00:00.000Z" f' =
      Json 200 (Chat.entry_json
                  {| Chat.project_id := "host_user_/srv";
                     Chat.timestamp := "2024-05-01T10:00:00.000Z";
                     Chat.messages := [JStr "hello"]; Chat.file_context := [] |}).
Proof.
  destruct (chat_post_then_get "host_user_/srv" (Some [JStr "hello"]) None
              "2024-05-01T10:00:00.000Z" "2024-05-02T08:00:00.000Z" Unreadable eq_refl)
    as (f' & Hpost & Hget & _).
  exists f'. split; [exact Hpost | exact Hget].
Defined.

(** X13.  save-chat-history on the socket stores the history the client
    sends under its project id, in the same place a POST would, and
    acknowledges with success; it asks for no authentication.  A GET of
    the project then returns that history.  When the write fails the file
    stays and the acknowledgement carries success false. *)
Theorem socket_chat_history_saved (history : Chat.entry) (askedAt : string)
    (f : file Chat.entry) :
  (exists f',
     Chat.save_chat_history history f true =
       (f', [Emit "chat-history-saved" (Fields [("success", "true")])]) /\
     Chat.get true (Chat.project_id history) askedAt f' = Json 200 (Chat.entry_json history) /\
     (forall other, other <> Chat.project_id history ->
        with_key Chat.project_id other (Chat.getChatHistory f') =
        with_key Chat.project_id other (Chat.getChatHistory f)) /\
     (Js.truthy (Chat.project_id history) = true ->
      f' = fst (Chat.post true (Chat.project_id history) (Some (Chat.messages history))
                  (Some (Chat.file_context history)) (Chat.timestamp history) f true))) /\
  Chat.save_chat_history history f false =
    (f, [Emit "chat-history-saved"
           (Fields [("success", "false"); ("error", "Failed to save chat history")])]).
Proof.
  split; [| reflexivity].
  unfold Chat.save_chat_history. eexists. split; [reflexivity |].
  split; [| split].
  - unfold Chat.get. simpl. rewrite find_upsert; [reflexivity | apply String.eqb_refl].
  - intros other Hne. unfold with_key. simpl. apply filter_upsert_other.
    + intros y Hy. apply String.eqb_eq in Hy. apply String.eqb_neq. congruence.
    + apply String.eqb_neq. congruence.
  - intros Hpid. unfold Chat.post. rewrite Hpid. simpl. now destruct history.
Qed.

Lemma socket_chat_history_saved_witness :
  exists f',
    Chat.save_chat_history
      {| Chat.project_id := "p1"; Chat.timestamp := "2024-05-01T10:00:00.000Z";
         Chat.messages := [JStr "hi"]; Chat.file_context := [] |} Unreadable true =
      (f', [Emit "chat-history-saved" (Fields [("success", "true")])]) /\
    f' = fst (Chat.post true "p1" (Some [JStr "hi"]) (Some [])
                "2024-05-01T10:00:00.000Z" Unreadable true).
Proof.
  destruct (proj1 (socket_chat_history_saved
                     {| Chat.project_id := "p1";
                        Chat.timestamp := "2024-05-01T10:00:00.000Z";
                        Chat.messages := [JStr "hi"]; Chat.file_context := [] |}
                     "2024-05-02T08:00:00.000Z" Unreadable))
    as (f' & Hsave & _ & _ & Hpost).
  exists f'. split; [exact Hsave | exact (Hpost eq_refl)].
Defined.

(** ** Login and the session *)

Lemma field_or_default_truthy (x : field) (dflt : string) :
  Js.truthy dflt = true -> field_or x dflt <> EmptyString.
Proof.
  intros Hd H. pose proof (field_or_truthy x dflt Hd) as Ht. now rewrite H in Ht.
Qed.

Lemma field_is_spec (x : field) (s : string) : field_is x s = true <-> x = Some s.
Proof.
  destruct x as [v|]; simpl; [| split; discriminate].
  rewrite String.eqb_eq. split; congruence.
Qed.

(** X14.  POST /login marks the session authenticated and redirects to the
    start page exactly when the user name and the password of the body
    equal the configured ones; otherwise the session stays as it is and
    the login page is rendered with an error.  An unset or empty
    ADMIN_USERNAME or ADMIN_PASSWORD falls back to admin and admin123, so
    the configured password is never empty and a body without a password,
    or with an empty one, is always refused. *)
Theorem login_needs_configured_credentials (e : environment) (b_username b_password : field)
    (s : Session.t) :
  (b_username = Some (ADMIN_USERNAME e) /\ b_password = Some (ADMIN_PASSWORD e) ->
   Session.post_login e b_username b_password s =
     ({| Session.isAuthenticated := true; Session.sshConfig := Session.sshConfig s |},
      RedirectTo "/")) /\
  (~ (b_username = Some (ADMIN_USERNAME e) /\ b_password = Some (ADMIN_PASSWORD e)) ->
   Session.post_login e b_username b_password s =
     (s, Render "app_login" [("error", JStr "Invalid username or password")])) /\
  (missing b_username || missing b_password = true ->
   Session.post_login e b_username b_password s =
     (s, Render "app_login" [("error", JStr "Invalid username or password")])) /\
  (missing (env_ADMIN_USERNAME e) = true -> ADMIN_USERNAME e = "admin") /\
  (missing (env_ADMIN_PASSWORD e) = true -> ADMIN_PASSWORD e = "admin123").
Proof.
  assert (Hno : ~ (b_username = Some (ADMIN_USERNAME e) /\ b_password = Some (ADMIN_PASSWORD e)) ->
                Session.post_login e b_username b_password s =
                  (s, Render "app_login" [("error", JStr "Invalid username or password")])).
  { intros Hneg. unfold Session.post_login.
    destruct (field_is b_username (ADMIN_USERNAME e)) eqn:Hu;
      destruct (field_is b_password (ADMIN_PASSWORD e)) eqn:Hp; try reflexivity.
    exfalso. apply Hneg. now rewrite <- !field_is_spec. }
  split; [| split; [exact Hno | split; [| split]]].
  - intros [Hu Hp]. unfold Session.post_login.
    now rewrite (proj2 (field_is_spec _ _) Hu), (proj2 (field_is_spec _ _) Hp).
  - intros Hmiss. apply Hno. intros [Hu Hp]. subst.
    apply orb_true_iff in Hmiss as [Hm|Hm]; simpl in Hm; apply negb_true_iff in Hm.
    + pose proof (field_or_truthy (env_ADMIN_USERNAME e) "admin" eq_refl) as Ht.
      unfold ADMIN_USERNAME in Hm. congruence.
    + pose proof (field_or_truthy (env_ADMIN_PASSWORD e) "admin123" eq_refl) as Ht.
      unfold ADMIN_PASSWORD in Hm. congruence.
  - intros Hm. unfold ADMIN_USERNAME, field_or. now rewrite Hm.
  - intros Hm. unfold ADMIN_PASSWORD, field_or. now rewrite Hm.
Qed.

Lemma login_witness :
  Session.post_login {| env_ADMIN_USERNAME := None; env_ADMIN_PASSWORD := Some EmptyString |}
    (Some "admin") (Some "admin123") Session.fresh_session =
  ({| Session.isAuthenticated := true; Session.sshConfig := None |}, RedirectTo "/").
Proof.
  exact (proj1 (login_needs_configured_credentials
                  {| env_ADMIN_USERNAME := None; env_ADMIN_PASSWORD := Some EmptyString |}
                  (Some "admin") (Some "admin123") Session.fresh_session)
           (conj eq_refl eq_refl)).
Defined.

(** *** Trimming *)

Lemma trim_start_head s :
  match JsTrim.trim_start s with
  | EmptyString => True
  | String ch _ => JsTrim.is_space ch = false
  end.
Proof.
  induction s as [|ch rest IH]; simpl; [exact I |].
  destruct (JsTrim.is_space ch) eqn:E; [exact IH | exact E].
Qed.

Lemma trim_start_fixed ch rest :
  JsTrim.is_space ch = false -> JsTrim.trim_start (String ch rest) = String ch rest.
Proof. intros H. simpl. now rewrite H. Qed.

Lemma trim_end_keeps_head ch rest :
  JsTrim.is_space ch = false ->
  exists kept, JsTrim.trim_end (String ch rest) = String ch kept.
Proof.
  intros H. simpl. destruct (JsTrim.trim_end rest); [rewrite H |]; eauto.
Qed.

Lemma trim_end_idempotent s : JsTrim.trim_end (JsTrim.trim_end s) = JsTrim.trim_end s.
Proof.
  induction s as [|ch rest IH]; [reflexivity |]. simpl.
  destruct (JsTrim.trim_end rest) as [|k kept] eqn:E.
  - destruct (JsTrim.is_space ch) eqn:Hs; [reflexivity |]. simpl. now rewrite Hs.
  - cbn [JsTrim.trim_end]. cbn [JsTrim.trim_end] in IH. now rewrite IH.
Qed.

(** A trimmed string has nothing left to trim. *)
Lemma trim_trimmed s : trimmed (JsTrim.trim s).
Proof.
  unfold trimmed, JsTrim.trim.
  pose proof (trim_start_head s) as Hhead.
  destruct (JsTrim.trim_start s) as [|ch rest] eqn:E; [reflexivity |].
  destruct (trim_end_keeps_head ch rest Hhead) as [kept Hk].
  rewrite Hk, (trim_start_fixed ch kept Hhead), <- Hk. apply trim_end_idempotent.
Qed.

Lemma missing_text_empty (x : field) : missing x = true -> text_of x = EmptyString.
Proof. destruct x as [[|ch rest]|]; simpl; congruence. Qed.

(** X15.  POST /connect with a host and a user name stores the host, the
    user name and the password as they are sent; the port as sent, or the
    number 22 when the form has none; the mode as sent, or terminal; and
    as initial directory the custom path without the white space around
    it when the custom option is chosen and the path is not blank, and
    /home in every other case, so never an empty one.  The answer
    redirects to the file manager or the chat when the mode says so and to
    the terminal otherwise.  Without a host or a user name the session
    keeps its configuration and the start page is rendered with an
    error. *)
Theorem connect_stores_configuration (b : Session.connect_body) (s : Session.t)
    (f : file Connections.entry) :
  Session.isAuthenticated s = true ->
  (missing (Session.b_host b) = false -> missing (Session.b_username b) = false ->
   exists c target,
     Session.post_connect b s f =
       ({| Session.isAuthenticated := true; Session.sshConfig := Some c |},
        RedirectTo target) /\
     Session.host c = text_of (Session.b_host b) /\
     Session.username c = text_of (Session.b_username b) /\
     Session.password c = Session.b_password b /\
     (missing (Session.b_port b) = true -> Session.port c = JNum 22) /\
     (missing (Session.b_port b) = false ->
      Session.port c = JStr (text_of (Session.b_port b))) /\
     (missing (Session.b_mode b) = true -> Session.mode c = "terminal") /\
     (missing (Session.b_mode b) = false -> Session.mode c = text_of (Session.b_mode b)) /\
     (Session.b_initialPathOption b = Some "custom" ->
      JsTrim.trim (text_of (Session.b_initialPath b)) <> EmptyString ->
      Session.initialPath c = JsTrim.trim (text_of (Session.b_initialPath b)) /\
      trimmed (Session.initialPath c)) /\
     (Session.b_initialPathOption b <> Some "custom" \/
      JsTrim.trim (text_of (Session.b_initialPath b)) = EmptyString ->
      Session.initialPath c = "/home") /\
     Js.truthy (Session.initialPath c) = true /\
     target = (if field_is (Session.b_mode b) "filemanager" then "/file_manager"
               else if field_is (Session.b_mode b) "chat" then "/chat"
               else "/terminal")) /\
  (missing (Session.b_host b) || missing (Session.b_username b) = true ->
   Session.post_connect b s f =
     (s, Render "login"
           [("error", JStr "Host and username are required");
            ("savedConnections",
             JArr (map Connections.entry_json (Connections.getSavedConnections f)))])).
Proof.
  intros Hauth. split.
  - intros Hh Hu.
    set (dir := if field_is (Session.b_initialPathOption b) "custom" &&
                   negb (missing (Session.b_initialPath b)) &&
                   Js.truthy (JsTrim.trim (text_of (Session.b_initialPath b)))
                then JsTrim.trim (text_of (Session.b_initialPath b))
                else "/home").
    exists {| Session.host := text_of (Session.b_host b);
              Session.port := if missing (Session.b_port b) then JNum 22
                              else JStr (text_of (Session.b_port b));
              Session.username := text_of (Session.b_username b);
              Session.password := Session.b_password b;
              Session.mode := field_or (Session.b_mode b) "terminal";
              Session.initialPath := dir |},
           (if field_is (Session.b_mode b) "filemanager" then "/file_manager"
            else if field_is (Session.b_mode b) "chat" then "/chat"
            else "/terminal").
    split.
    { unfold Session.post_connect. rewrite Hauth, Hh, Hu. simpl. fold dir.
      destruct (field_is (Session.b_mode b) "filemanager");
        [reflexivity | destruct (field_is (Session.b_mode b) "chat"); reflexivity]. }
    cbn [Session.host Session.port Session.username Session.password Session.mode
         Session.initialPath].
    split; [reflexivity |]. split; [reflexivity |]. split; [reflexivity |].
    split; [now intros -> |]. split; [now intros -> |].
    split; [unfold field_or; now intros -> |]. split; [unfold field_or; now intros -> |].
    subst dir. split; [| split; [| split; [| reflexivity]]].
    + intros Hopt Hpath. apply field_is_spec in Hopt. rewrite Hopt.
      destruct (missing (Session.b_initialPath b)) eqn:Hm.
      * apply missing_text_empty in Hm. rewrite Hm in Hpath. now contradiction Hpath.
      * destruct (JsTrim.trim (text_of (Session.b_initialPath b))) as [|ch rest] eqn:Ht;
          [congruence |].
        simpl. split; [reflexivity |]. rewrite <- Ht. apply trim_trimmed.
    + intros [Hopt | Hblank].
      * destruct (field_is (Session.b_initialPathOption b) "custom") eqn:E; [| reflexivity].
        apply field_is_spec in E. contradiction.
      * rewrite Hblank. simpl. now rewrite !andb_false_r.
    + destruct (field_is (Session.b_initialPathOption b) "custom" &&
                negb (missing (Session.b_initialPath b))); simpl; [| reflexivity].
      now destruct (Js.truthy (JsTrim.trim (text_of (Session.b_initialPath b)))) eqn:Ht.
  - intros Hm. unfold Session.post_connect. now rewrite Hauth, Hm.
Qed.

Lemma connect_witness :
  exists c,
    Session.post_connect sample_connect_body logged_in Unreadable =
      ({| Session.isAuthenticated := true; Session.sshConfig := Some c |},
       RedirectTo "/file_manager") /\
    Session.initialPath c = "/srv/www" /\ Session.port c = JNum 22.
Proof.
  destruct (proj1 (connect_stores_configuration sample_connect_body logged_in Unreadable
                     eq_refl) eq_refl eq_refl)
    as (c & target & Hpost & _ & _ & _ & Hport & _ & _ & _ & Hpath & _ & _ & Htarget).
  exists c. rewrite Htarget in Hpost. split; [exact Hpost |].
  split; [| exact (Hport eq_refl)].
  exact (proj1 (Hpath eq_refl ltac:(vm_compute; discriminate))).
Defined.

(** X16.  After a POST /connect that stored a configuration, the terminal,
    file manager and chat pages render with the stored host, port (the
    number 22 when the form had none), user name, password and initial
    directory and leave the session as it is (with no switchMode in the
    query); the chat page names its project host, user and directory
    joined by underscores.  After GET /disconnect for a session id under
    which the registry gives nothing the configuration is gone and the
    three pages redirect to the start page. *)
Theorem pages_follow_configuration (b : Session.connect_body) (s : Session.t)
    (f : file Connections.entry) (reg : registry) (sessionId : string) :
  Session.isAuthenticated s = true ->
  missing (Session.b_host b) = false ->
  missing (Session.b_username b) = false ->
  JsObject.get reg sessionId = JsObject.Undefined ->
  let s1 := fst (Session.post_connect b s f) in
  (exists directory,
     let locals :=
       [("host", JStr (text_of (Session.b_host b)));
        ("port", if missing (Session.b_port b) then JNum 22
                 else JStr (text_of (Session.b_port b)));
        ("username", JStr (text_of (Session.b_username b)))] ++
       match Session.b_password b with
       | Some p => [("password", JStr p)]
       | None => []
       end ++ [("initialPath", JStr directory)] in
     Session.initialPath <$> Session.sshConfig s1 = Some directory /\
     Session.get_terminal None s1 = (s1, Render "terminal" locals) /\
     Session.get_file_manager None s1 = (s1, Render "file_manager" locals) /\
     Session.get_chat None s1 =
       (s1, Render "chat"
              (locals ++
               [("projectId",
                 JStr (text_of (Session.b_host b) +:+ "_" +:+
                       text_of (Session.b_username b) +:+ "_" +:+ directory));
                ("aiModels", Session.AI_MODELS)]))) /\
  (exists s2,
     Session.get_disconnect reg sessionId s1 = Returned (s2, reg, RedirectTo "/") /\
     Session.sshConfig s2 = None /\
     Session.isAuthenticated s2 = true /\
     Session.get_terminal None s2 = (s2, RedirectTo "/") /\
     Session.get_file_manager None s2 = (s2, RedirectTo "/") /\
     Session.get_chat None s2 = (s2, RedirectTo "/")).
Proof.
  intros Hauth Hh Hu Hreg s1.
  destruct (proj1 (connect_stores_configuration b s f Hauth) Hh Hu)
    as (c & target & Hpost & Hhost & Huser & Hpass & Hp1 & Hp2 & _).
  assert (Hs1 : s1 = {| Session.isAuthenticated := true; Session.sshConfig := Some c |})
    by (subst s1; now rewrite Hpost).
  assert (Hport : Session.port c = if missing (Session.b_port b) then JNum 22
                                   else JStr (text_of (Session.b_port b))).
  { destruct (missing (Session.b_port b)); auto. }
  rewrite Hs1. split.
  - exists (Session.initialPath c). split; [reflexivity |].
    unfold Session.get_terminal, Session.get_file_manager, Session.get_page, Session.get_chat.
    cbn [Session.isAuthenticated Session.sshConfig negb missing].
    unfold Session.page_locals, Session.password_json, Session.projectId_of.
    rewrite Hhost, Huser, Hpass, Hport. repeat split.
  - unfold Session.get_disconnect, http_teardown. simpl. rewrite Hreg.
    eexists. split; [reflexivity |]. repeat split.
Qed.

Lemma pages_follow_configuration_witness :
  Session.get_file_manager None
    (fst (Session.post_connect sample_connect_body logged_in Unreadable)) =
    (fst (Session.post_connect sample_connect_body logged_in Unreadable),
     Render "file_manager"
       [("host", JStr "10.0.0.5"); ("port", JNum 22); ("username", JStr "deploy");
        ("password", JStr "secret"); ("initialPath", JStr "/srv/www")]).
Proof.
  assert (Hnone : JsObject.get (∅ : registry) "sess" = JsObject.Undefined)
    by (vm_compute; reflexivity).
  destruct (proj1 (pages_follow_configuration sample_connect_body logged_in Unreadable
                     ∅ "sess" eq_refl eq_refl eq_refl Hnone))
    as (directory & Hdir & _ & Hfm & _).
  vm_compute in Hdir. injection Hdir as <-. exact Hfm.
Defined.

(** ** The archive walk of /file/zip-download *)

Lemma remote_node_nested_ind (P : remote_node -> Prop) :
  (forall filename opens, P (RFile filename opens)) ->
  (forall filename, P (RDir filename None)) ->
  (forall filename items, Forall P items -> P (RDir filename (Some items))) ->
  forall item, P item.
Proof.
  intros Hfile Hnone Hsome.
  fix IH 1. intros [filename opens | filename [items|]].
  - apply Hfile.
  - apply Hsome. induction items as [|item items IHitems]; constructor.
    + apply IH.
    + exact IHitems.
  - apply Hnone.
Qed.

Lemma under_child root directoryPath relativePath filename :
  under root directoryPath relativePath ->
  Js.truthy filename = true ->
  let fullPath := directoryPath +:+ "/" +:+ filename in
  let archivePath :=
    if Js.truthy relativePath then relativePath +:+ "/" +:+ filename else filename in
  fullPath = root +:+ "/" +:+ archivePath /\ under root fullPath archivePath.
Proof.
  intros [[-> ->] | [Hne ->]] Hname; simpl.
  - split; [reflexivity |]. right. split; [| reflexivity]. now destruct filename.
  - destruct relativePath as [|ch rest]; [congruence |]. simpl.
    rewrite !append_assoc. split; [reflexivity |]. right. split; [discriminate |].
    reflexivity.
Qed.

Lemma for_each_facts root (visit : remote_node -> list archive_step * bool) items :
  Forall (fun item =>
            named item = true ->
            walk_facts root (fst (visit item)) (snd (visit item))
              (listable item) (readable_files item)) items ->
  forallb named items = true ->
  walk_facts root (fst (for_each visit items)) (snd (for_each visit items))
    (forallb listable items) (list_sum (map readable_files items)).
Proof.
  induction 1 as [|item items Hitem _ IH]; intros Hnamed.
  - simpl. repeat split; simpl; try tauto; try discriminate.
  - simpl in Hnamed. apply andb_true_iff in Hnamed as [Hn Hns].
    specialize (Hitem Hn). specialize (IH Hns).
    destruct Hitem as (Hrel & Hres & Hfin & Hcount & Hstop).
    destruct IH as (Hrel' & Hres' & Hfin' & Hcount' & Hstop').
    cbn [for_each]. fold (for_each visit).
    destruct (visit item) as [steps resolved]. simpl in *.
    destruct resolved.
    + destruct (for_each visit items) as [steps' resolved']. simpl in *.
      rewrite <- Hres. simpl. repeat split.
      * intros fullPath archivePath Hin. apply in_app_or in Hin as [Hin|Hin]; eauto.
      * exact Hres'.
      * intros Hin. apply in_app_or in Hin as [Hin|Hin]; tauto.
      * intros Hr. rewrite List.filter_app, length_app, Hcount, Hcount' by auto. reflexivity.
      * intros Hr. destruct (Hstop' Hr) as (before & path & ->).
        exists (steps ++ before), path. now rewrite <- app_assoc.
    + rewrite <- Hres. simpl. repeat split; try assumption; try discriminate.
Qed.

Lemma add_item_facts root item :
  forall directoryPath relativePath,
    under root directoryPath relativePath ->
    named item = true ->
    walk_facts root (fst (add_item directoryPath relativePath item))
      (snd (add_item directoryPath relativePath item))
      (listable item) (readable_files item).
Proof.
  induction item as [filename opens | filename | filename items IH]
    using remote_node_nested_ind; intros directoryPath relativePath Hunder Hnamed.
  - simpl in Hnamed. destruct (under_child _ _ _ _ Hunder Hnamed) as [Hfull _].
    unfold walk_facts. simpl.
    destruct opens; simpl;
      (split; [| split; [reflexivity | split; [| split; [reflexivity | discriminate]]]]).
    + intros fullPath archivePath [[= <- <-]|[]]. exact Hfull.
    + intros [H|[]]. discriminate.
    + intros fullPath archivePath [].
    + intros [].
  - unfold walk_facts. simpl.
    split; [| split; [reflexivity | split; [| split; [discriminate |]]]].
    + intros ? ? [H|[]]. discriminate.
    + intros [H|[]]. discriminate.
    + intros _. now exists [], (directoryPath +:+ "/" +:+ filename).
  - simpl in Hnamed. apply andb_true_iff in Hnamed as [Hname Hnames].
    destruct (under_child _ _ _ _ Hunder Hname) as [_ Hchild].
    cbn [add_item].
    set (fullPath := directoryPath +:+ "/" +:+ filename) in *.
    set (archivePath := if Js.truthy relativePath then relativePath +:+ "/" +:+ filename
                        else filename) in *.
    assert (Hall : Forall (fun item =>
                             named item = true ->
                             walk_facts root (fst (add_item fullPath archivePath item))
                               (snd (add_item fullPath archivePath item))
                               (listable item) (readable_files item)) items).
    { rewrite Forall_forall in *. intros item Hin Hn. now apply IH. }
    pose proof (for_each_facts root (add_item fullPath archivePath) items Hall Hnames)
      as (Hrel & Hres & Hfin & Hcount & Hstop).
    destruct (for_each (add_item fullPath archivePath) items) as [steps resolved].
    simpl in *. repeat split.
    + intros f a [H|Hin]; [discriminate | eauto].
    + exact Hres.
    + intros [H|Hin]; [discriminate | tauto].
    + intros Hr. now apply Hcount.
    + intros Hr. destruct (Hstop Hr) as (before & path & ->).
      now exists (ReadDirectory fullPath :: before), path.
Qed.

(** X17.  The walk of /file/zip-download over a tree whose entries have
    names: every file is appended under its path relative to the
    directory asked for, so the remote path of an appended file is that
    directory, a slash, and the name in the archive.  The walk resolves
    exactly when every directory of the tree can be listed, and then it
    has appended every file whose read stream could be created.  When a
    directory cannot be listed the walk stops at that readdir: nothing
    listed after it is read or appended. *)
Theorem archive_walk (root : string) (items : list remote_node) :
  forallb named items = true ->
  let walk := addDirectoryToArchive root EmptyString (Some items) in
  (forall fullPath archivePath,
     In (AppendFile fullPath archivePath) (fst walk) ->
     fullPath = root +:+ "/" +:+ archivePath) /\
  snd walk = forallb listable items /\
  (forallb listable items = true ->
   length (List.filter is_append (fst walk)) = list_sum (map readable_files items)) /\
  (forallb listable items = false ->
   exists before path, fst walk = before ++ [ReadDirectory path]).
Proof.
  intros Hnamed walk. subst walk. unfold addDirectoryToArchive.
  assert (Hall : Forall (fun item =>
                           named item = true ->
                           walk_facts root (fst (add_item root EmptyString item))
                             (snd (add_item root EmptyString item))
                             (listable item) (readable_files item)) items).
  { rewrite Forall_forall. intros item _ Hn. apply add_item_facts; [| assumption].
    left. now split. }
  pose proof (for_each_facts root (add_item root EmptyString) items Hall Hnamed)
    as (Hrel & Hres & Hfin & Hcount & Hstop).
  destruct (for_each (add_item root EmptyString) items) as [steps resolved]. simpl in *.
  repeat split.
  - intros f a [H|Hin]; [discriminate | eauto].
  - exact Hres.
  - intros Hl. apply Hcount. congruence.
  - intros Hl. destruct Hstop as (before & path & ->); [congruence |].
    now exists (ReadDirectory root :: before), path.
Qed.

Lemma archive_walk_witness :
  exists before path,
    fst (addDirectoryToArchive "/srv" EmptyString (Some broken_tree)) =
      before ++ [ReadDirectory path] /\
    fst (addDirectoryToArchive "/srv" EmptyString (Some broken_tree)) =
      [ReadDirectory "/srv"; AppendFile "/srv/a.txt" "a.txt"; ReadDirectory "/srv/locked"].
Proof.
  destruct (proj2 (proj2 (proj2 (archive_walk "/srv" broken_tree eq_refl))) eq_refl)
    as (before & path & H).
  exists before, path. split; [exact H | reflexivity].
Defined.

Lemma for_each_no_finalize (visit : remote_node -> list archive_step * bool) items :
  Forall (fun item => ~ In Finalize (fst (visit item))) items ->
  ~ In Finalize (fst (for_each visit items)).
Proof.
  induction 1 as [|item items Hitem _ IH]; simpl; [tauto |].
  destruct (visit item) as [steps resolved]. simpl in *.
  destruct resolved; [| assumption].
  destruct (for_each visit items) as [steps' resolved']. simpl in *.
  intros Hin. apply in_app_or in Hin. tauto.
Qed.

Lemma add_item_no_finalize item :
  forall directoryPath relativePath,
    ~ In Finalize (fst (add_item directoryPath relativePath item)).
Proof.
  induction item as [filename opens | filename | filename items IH]
    using remote_node_nested_ind; intros directoryPath relativePath.
  - simpl. destruct opens; simpl; [intros [H|[]]; discriminate | tauto].
  - simpl. intros [H|[]]. discriminate.
  - cbn [add_item].
    set (fullPath := directoryPath +:+ "/" +:+ filename).
    set (archivePath := if Js.truthy relativePath then relativePath +:+ "/" +:+ filename
                        else filename).
    assert (H : ~ In Finalize (fst (for_each (add_item fullPath archivePath) items))).
    { apply for_each_no_finalize. rewrite Forall_forall in *. intros item Hin. now apply IH. }
    destruct (for_each (add_item fullPath archivePath) items) as [steps resolved].
    simpl in *. intros [Habs|Hin]; [discriminate | tauto].
Qed.

(** X18.  /file/zip-download finalizes the archive once, as its last step,
    whether the walk resolves or rejects; the download is named after the
    last segment of the path (folder when that is empty) with the time
    stamp.  When the directory asked for cannot be listed the archive is
    finalized with nothing in it. *)
Theorem zip_download_finalizes (reg : registry) (b_path b_sessionId : field) (now : N)
    (listing : option (list remote_node)) (s c : handle) :
  missing b_path = false ->
  missing b_sessionId = false ->
  sftp_session reg (text_of b_sessionId) = Some (s, c) ->
  exists steps,
    zip_download true reg b_path b_sessionId now listing =
      (Streamed [("Content-Type", "application/zip");
                 ("Content-Disposition",
                  "attachment; filename=" +:+
                  Js.quoted (Js.or_else (Js.pop (Js.split Js.slash (text_of b_path))) "folder"
                             +:+ "-" +:+ Js.of_number now +:+ ".zip"))],
       steps ++ [Finalize]) /\
    ~ In Finalize steps /\
    (listing = None -> steps = [ReadDirectory (text_of b_path)]).
Proof.
  intros Hp Hs Hreg. unfold zip_download.
  rewrite Hp, Hs, (sftp_session_granted _ _ _ _ Hreg). simpl.
  eexists. split; [reflexivity |]. split.
  - destruct listing as [items|]; simpl.
    + assert (H : ~ In Finalize
                    (fst (for_each (add_item (text_of b_path) EmptyString) items))).
      { apply for_each_no_finalize. rewrite Forall_forall. intros item _.
        apply add_item_no_finalize. }
      destruct (for_each (add_item (text_of b_path) EmptyString) items) as [steps resolved].
      simpl in *. intros [Habs|Hin]; [discriminate | tauto].
    + intros [Habs|[]]. discriminate.
  - intros ->. reflexivity.
Qed.

Lemma zip_download_finalizes_witness :
  zip_download true demo_registry (Some "/srv/www") (Some "sess") 17%N None =
  (Streamed [("Content-Type", "application/zip");
             ("Content-Disposition", "attachment; filename=" +:+ Js.quoted "www-17.zip")],
   [ReadDirectory "/srv/www"; Finalize]).
Proof.
  destruct (zip_download_finalizes demo_registry (Some "/srv/www") (Some "sess") 17%N None
              1 0 eq_refl eq_refl demo_registered)
    as (steps & Hzip & _ & Hempty).
  rewrite Hzip, (Hempty eq_refl). reflexivity.
Defined.

(** ** Guards of the HTTP file endpoints *)

Lemma missing_text_of (x : field) : missing x = negb (Js.truthy (text_of x)).
Proof. now destruct x. Qed.

(** X19.  The four HTTP file endpoints (download, zip-download, content,
    save) answer 400 when the path or the session identifier is missing,
    and 404 when no SFTP session is registered under the session
    identifier; in both cases nothing is called on the remote side.  The
    session identifier conn is the exception once a record has been stored
    under __proto__: with nothing registered under conn the guard passes
    all the same, download, content and save throw a TypeError at the
    creation of the stream, and zip-download sends an archive with nothing
    in it. *)
Theorem http_file_routes_guarded (reg : registry) (q_path q_sessionId : field) :
  (missing q_path || missing q_sessionId = true ->
   file_download true reg q_path q_sessionId =
     Returned (SendText 400 "Missing path or session ID", []) /\
   (forall reading,
      file_content true reg q_path q_sessionId reading =
        Returned (Json 400 (JObj [("error", JStr "Missing path or session ID")]), [])) /\
   (forall now listing,
      zip_download true reg q_path q_sessionId now listing =
        (Json 400 (JObj [("error", JStr "Missing path or session ID")]), [])) /\
   (forall content err,
      http_file_save reg true (text_of q_path) content (text_of q_sessionId) err =
        [HttpReply 400 (Fields [("error", "Missing path, content, or session ID")])])) /\
  (missing q_path || missing q_sessionId = false ->
   ~ has_file_capability reg (text_of q_sessionId) ->
   JsObject.field_name (text_of q_sessionId) = false \/ reg !! "__proto__" = None ->
   file_download true reg q_path q_sessionId =
     Returned (SendText 404 "No active SFTP connection", []) /\
   (forall reading,
      file_content true reg q_path q_sessionId reading =
        Returned (Json 404 (JObj [("error", JStr "No active SFTP connection")]), [])) /\
   (forall now listing,
      zip_download true reg q_path q_sessionId now listing =
        (Json 404 (JObj [("error", JStr "No active SFTP connection")]), [])) /\
   (forall text err,
      http_file_save reg true (text_of q_path) (Some text) (text_of q_sessionId) err =
        [HttpReply 404 (Fields [("error", "No active SFTP connection")])])) /\
  (missing q_path = false ->
   q_sessionId = Some "conn" ->
   reg !! "conn" = None ->
   is_Some (reg !! "__proto__") ->
   file_download true reg q_path q_sessionId =
     Threw "TypeError: sshConn.sftp.createReadStream is not a function" /\
   (forall reading,
      file_content true reg q_path q_sessionId reading =
        Threw "TypeError: sshConn.sftp.createReadStream is not a function") /\
   (forall now listing,
      snd (zip_download true reg q_path q_sessionId now listing) = [Finalize]) /\
   (forall text err,
      http_file_save reg true (text_of q_path) (Some text) "conn" err =
        [Raise "sshConn.sftp.createWriteStream"])).
Proof.
  split; [| split].
  - intros Hm. unfold file_download, file_content, zip_download, http_file_save.
    rewrite Hm. simpl. repeat split.
    intros content err. rewrite !missing_text_of in Hm. rewrite Hm.
    now destruct content.
  - intros Hm Hno Hplain.
    assert (Hg : file_guard reg (text_of q_sessionId) = Refused).
    { apply file_guard_refused; [exact Hno |].
      destruct Hplain as [Hf | Hnone]; [left; now apply not_field_name | now right]. }
    unfold file_download, file_content, zip_download, http_file_save.
    rewrite Hm, Hg. simpl. repeat split.
    intros text err. rewrite !missing_text_of in Hm. now rewrite Hm.
  - intros Hp -> Hnone Hproto.
    assert (Hg : file_guard reg "conn" = Misled) by now apply file_guard_misled.
    unfold file_download, file_content, zip_download, http_file_save.
    cbn [text_of missing Js.truthy negb orb]. rewrite Hp, Hg. cbn [negb orb].
    repeat split.
    intros text err. rewrite missing_text_of in Hp. apply negb_false_iff in Hp.
    now rewrite Hp.
Qed.

Lemma http_file_routes_guarded_witness :
  file_download true demo_registry (Some "/srv/a.txt") None =
    Returned (SendText 400 "Missing path or session ID", []) /\
  file_download true demo_registry (Some "/srv/a.txt") (Some "other") =
    Returned (SendText 404 "No active SFTP connection", []) /\
  file_download true (JsObject.set ∅ "__proto__" {| conn := 0; stream := None; sftp := Some 1 |})
    (Some "/srv/a.txt") (Some "conn") =
    Threw "TypeError: sshConn.sftp.createReadStream is not a function".
Proof.
  split; [| split].
  - exact (proj1 (proj1 (http_file_routes_guarded demo_registry (Some "/srv/a.txt") None)
                    eq_refl)).
  - refine (proj1 (proj1 (proj2 (http_file_routes_guarded demo_registry (Some "/srv/a.txt")
                                   (Some "other"))) eq_refl _ _)).
    + intros (r & h & Hr & _). vm_compute in Hr. discriminate.
    + left. reflexivity.
  - refine (proj1 (proj2 (proj2 (http_file_routes_guarded _ (Some "/srv/a.txt")
                                   (Some "conn"))) eq_refl eq_refl _ _)).
    + vm_compute. reflexivity.
    + eexists. vm_compute. reflexivity.
Defined.

(** X20.  With an SFTP session registered, /file/content opens one read
    stream on the path and answers with the texts of the chunks, each
    decoded on its own, joined in the order of arrival; a stream error is
    answered with status 500 and the message of the error, and no shell
    command is tried.  /file/download opens one read stream on the path
    and names the attachment after the last segment of the path. *)
Theorem http_read_routes (reg : registry) (q_path q_sessionId : field) (s c : handle) :
  missing q_path = false ->
  missing q_sessionId = false ->
  sftp_session reg (text_of q_sessionId) = Some (s, c) ->
  (forall chunks,
     file_content true reg q_path q_sessionId (ReadEnd chunks) =
       Returned (Json 200
                   (JObj [("content",
                           JStr (String.concat EmptyString (map Buffer.toString chunks)))]),
                 [Sftp s (CreateReadStream (text_of q_path))])) /\
  (forall msg,
     file_content true reg q_path q_sessionId (ReadError msg) =
       Returned (Json 500 (JObj [("error", JStr ("Failed to read file: " +:+ msg))]),
                 [Sftp s (CreateReadStream (text_of q_path))])) /\
  (exists filename,
     file_download true reg q_path q_sessionId =
       Returned
         (Streamed [("Content-Disposition", "attachment; filename=" +:+ Js.quoted filename)],
          [Sftp s (CreateReadStream (text_of q_path))]) /\
     (exists directory, text_of q_path = directory +:+ filename) /\
     Js.lastIndexOf Js.slash filename = (-1)%Z).
Proof.
  intros Hp Hs Hreg. unfold file_content, file_download.
  rewrite Hp, Hs, (sftp_session_granted _ _ _ _ Hreg). simpl.
  split; [intros chunks; now rewrite collect_concat |]. split; [reflexivity |].
  eexists. split; [reflexivity |]. split.
  - eexists. symmetry. apply (directory_and_segment Js.slash).
  - generalize (text_of q_path). intros path.
    induction path as [|ch rest IH]; [reflexivity |].
    cbn [Js.split]. destruct (Ascii.eqb ch Js.slash) eqn:E.
    + destruct (Js.split Js.slash rest) as [|h tl] eqn:Hsp; [now apply split_nonempty in Hsp |].
      exact IH.
    + destruct (Js.split Js.slash rest) as [|h tl] eqn:Hsp; [now apply split_nonempty in Hsp |].
      destruct tl as [|h' tl'].
      * unfold Js.pop in *. simpl in *. rewrite IH.
        rewrite E. reflexivity.
      * exact IH.
Qed.

Lemma http_read_routes_witness :
  file_content true demo_registry (Some "/etc/motd") (Some "sess")
    (ReadEnd [Buffer.of_text "Welcome"; Buffer.of_text " to "; Buffer.of_text "srv"]) =
  Returned (Json 200 (JObj [("content", JStr "Welcome to srv")]),
            [Sftp 1 (CreateReadStream "/etc/motd")]).
Proof.
  exact (proj1 (http_read_routes demo_registry (Some "/etc/motd") (Some "sess") 1 0
                  eq_refl eq_refl demo_registered)
           [Buffer.of_text "Welcome"; Buffer.of_text " to "; Buffer.of_text "srv"]).
Defined.

(** ** Testing an API key *)

(** X21.  /api/apikeys/test asks no server for a provider other than
    openai, deepseek and anthropic and answers Unsupported provider.  The
    DeepSeek test reports failure only for status 401: any other status,
    and a request that fails altogether, is reported as success.  The
    Anthropic test reports failure only for status 401 or 403 with a JSON
    body other than null; with the body null, or one that is not JSON, a
    401 is reported as success.  The OpenAI test reports success only for
    a status from 200 to 299 with a body on which data.data.length can be
    evaluated, whatever it gives: the message then carries that value. *)
Theorem apikey_tests_classification (outcome : fetch_outcome) :
  (forall b_provider b_apiKey,
     missing b_provider = false -> missing b_apiKey = false ->
     text_of b_provider <> "openai" -> text_of b_provider <> "deepseek" ->
     text_of b_provider <> "anthropic" ->
     apikeys_test true b_provider b_apiKey outcome =
       (Json 200 (JObj [("success", JBool false); ("error", JStr "Unsupported provider")]),
        [])) /\
  (reports_success (testDeepseekKey outcome) = false <->
   exists body, outcome = Responds 401 body) /\
  (reports_success (testAnthropicKey outcome) = false <->
   exists status models message,
     outcome = Responds status (JsonData models message) /\
     (status = 401%N \/ status = 403%N)) /\
  (reports_success (testOpenAIKey outcome) = true <->
   exists status models message,
     outcome = Responds status (JsonData (Some models) message) /\
     (200 <= status <= 299)%N) /\
  (forall status models message,
     outcome = Responds status (JsonData (Some models) message) ->
     (200 <= status <= 299)%N ->
     testOpenAIKey outcome =
       JObj [("success", JBool true);
             ("message",
              JStr ("Connection successful. Available models: " +:+ models +:+
                    ". Using model: o3-mini-2025-01-31"))]).
Proof.
  split; [| split; [| split; [| split]]].
  - intros p k Hp Hk H1 H2 H3. unfold apikeys_test. rewrite Hp, Hk. simpl.
    apply String.eqb_neq in H1, H2, H3. now rewrite H1, H2, H3.
  - destruct outcome as [|status body]; simpl.
    + split; [discriminate | intros [body H]; discriminate].
    + destruct (N.eqb_spec status 401) as [->|Hne]; simpl.
      * split; [eauto | reflexivity].
      * split; [discriminate | intros [b [= H]]; congruence].
  - destruct outcome as [|status [| |models message]]; cbn [testAnthropicKey].
    + split; [discriminate | intros (st & m & e & H & _); discriminate].
    + split; [discriminate | intros (st & m & e & H & _); discriminate].
    + split; [| intros (st & m & e & H & _); discriminate].
      destruct ((status =? 401)%N || (status =? 403)%N); discriminate.
    + destruct (N.eqb_spec status 401) as [->|H1]; simpl.
      * split; [intros _; exists 401%N, models, message; auto | reflexivity].
      * destruct (N.eqb_spec status 403) as [->|H3]; simpl.
        -- split; [intros _; exists 403%N, models, message; auto | reflexivity].
        -- split; [discriminate |].
           intros (st & m & e & [= -> -> ->] & [->| ->]); congruence.
  - destruct outcome as [|status [| |models message]]; cbn [testOpenAIKey].
    + split; [discriminate | intros (st & m & e & H & _); discriminate].
    + split; [discriminate | intros (st & m & e & H & _); discriminate].
    + split; [discriminate | intros (st & m & e & H & _); discriminate].
    + unfold response_ok.
      destruct (N.leb_spec 200 status) as [Hlo|Hlo]; simpl.
      * destruct (N.leb_spec status 299) as [Hhi|Hhi]; simpl.
        -- destruct models as [n|]; simpl.
           ++ split; [intros _; exists status, n, message; repeat split; auto | reflexivity].
           ++ split; [discriminate |]. intros (st & m & e & H & _). discriminate.
        -- split; [discriminate |]. intros (st & m & e & [= -> _ _] & [_ Hle]). lia.
      * split; [discriminate |]. intros (st & m & e & [= -> _ _] & [Hle _]). lia.
  - intros status models message -> [Hlo Hhi]. cbn [testOpenAIKey]. unfold response_ok.
    apply N.leb_le in Hlo, Hhi. now rewrite Hlo, Hhi.
Qed.

Lemma apikey_tests_witness :
  apikeys_test true (Some "mistral") (Some "key") FetchFails =
    (Json 200 (JObj [("success", JBool false); ("error", JStr "Unsupported provider")]), []) /\
  testOpenAIKey (Responds 200 (JsonData (Some "undefined") None)) =
    JObj [("success", JBool true);
          ("message",
           JStr "Connection successful. Available models: undefined. Using model: o3-mini-2025-01-31")].
Proof.
  split.
  - refine (proj1 (apikey_tests_classification FetchFails) (Some "mistral") (Some "key")
              eq_refl eq_refl _ _ _); discriminate.
  - refine (proj2 (proj2 (proj2 (proj2
              (apikey_tests_classification
                 (Responds 200 (JsonData (Some "undefined") None))))))
              200%N "undefined" None eq_refl _).
    split; vm_compute; discriminate.
Defined.

(** ** The routes behind the login *)

(** X22.  Every route registered behind isAuthenticated, asked by a
    session that is not authenticated, answers with a redirect to /login
    and does nothing else: the session, the registry and the three files
    stay as they are, and there is no SFTP call, no archive step and no
    fetch. *)
Theorem protected_routes_need_login (e : environment) (w : world) (srv : server)
    (req : http_request) :
  Session.isAuthenticated (session srv) = false ->
  protected req = true ->
  serve e w srv req = Returned (srv, just (RedirectTo "/login")).
Proof.
  intros Hauth Hprot. destruct srv as [s reg fc fk fh]. simpl in Hauth.
  destruct req; try discriminate Hprot; unfold serve; cbn [session connections
    savedConnectionsFile apiKeysFile chatHistoryFile];
    unfold Session.get_root, Connections.get, Connections.post, Connections.delete,
      ApiKeys.get, ApiKeys.post, ApiKeys.delete, apikeys_test, Chat.get, Chat.post,
      Chat.delete, Session.post_connect, Session.get_terminal, Session.get_file_manager,
      Session.get_page, Session.get_chat, Session.get_disconnect, file_download,
      zip_download, file_content, http_file_save, with_session;
    rewrite Hauth; reflexivity.
Qed.

Lemma protected_routes_need_login_witness :
  serve default_environment sample_world guest_server
    (GET_file_download (Some "/etc/passwd") (Some "sess")) =
  Returned (guest_server, just (RedirectTo "/login")).
Proof.
  exact (protected_routes_need_login default_environment sample_world guest_server
           (GET_file_download (Some "/etc/passwd") (Some "sess")) eq_refl eq_refl).
Defined.

Lemma teardown_returns_same (reg reg' : registry) (sid : string) :
  http_teardown reg sid = Returned reg' -> reg' = reg.
Proof.
  unfold http_teardown.
  destruct (JsObject.get reg sid); try discriminate; now intros [= <-].
Qed.

(** X23.  No HTTP route adds, replaces or removes a registry entry: when
    a request returns, the registry is what it was.  (The teardown of
    /logout and /disconnect either finds no entry or throws.)  A transport
    registered through the socket therefore stays registered until a
    callback of the socket side removes it. *)
Theorem http_routes_keep_registry (e : environment) (w : world) (srv srv' : server)
    (req : http_request) (o : observed) :
  serve e w srv req = Returned (srv', o) -> connections srv' = connections srv.
Proof.
  destruct srv as [s reg fc fk fh]. unfold serve.
  cbn [session connections savedConnectionsFile apiKeysFile chatHistoryFile].
  destruct req;
    repeat match goal with
           | |- context [let (_, _) := ?x in _] => destruct x
           end;
    try (intros [= <- _]; reflexivity).
  - unfold Session.get_logout.
    destruct (http_teardown reg (w_sessionId w)) as [reg'|] eqn:Ht; [| discriminate].
    intros [= <- _]. simpl. now apply teardown_returns_same in Ht.
  - unfold Session.get_disconnect.
    destruct (negb (Session.isAuthenticated s)); [intros [= <- _]; reflexivity |].
    destruct (http_teardown reg (w_sessionId w)) as [reg'|] eqn:Ht; [| discriminate].
    intros [= <- _]. simpl. now apply teardown_returns_same in Ht.
  - destruct (file_download _ _ _ _) as [[r calls]|]; [| discriminate].
    intros [= <- _]. reflexivity.
  - destruct (file_content _ _ _ _ _) as [[r calls]|]; [| discriminate].
    intros [= <- _]. reflexivity.
  - destruct (raised _); [discriminate |]. intros [= <- _]. reflexivity.
Qed.

Lemma http_routes_keep_registry_witness :
  connections guest_server = demo_registry.
Proof.
  exact (http_routes_keep_registry default_environment sample_world guest_server
           guest_server GET_logout (just (RedirectTo "/login")) eq_refl).
Defined.

Lemma serve_unauthenticated (e : environment) (w : world) (srv srv' : server)
    (req : http_request) (o : observed) :
  Session.isAuthenticated (session srv) = false ->
  ~ good_login e req ->
  serve e w srv req = Returned (srv', o) ->
  Session.isAuthenticated (session srv') = false /\
  connections srv' = connections srv /\
  savedConnectionsFile srv' = savedConnectionsFile srv /\
  apiKeysFile srv' = apiKeysFile srv /\
  chatHistoryFile srv' = chatHistoryFile srv /\
  quiet o.
Proof.
  intros Hauth Hbad Hserve.
  destruct (protected req) eqn:Hprot.
  - rewrite (protected_routes_need_login e w srv req Hauth Hprot) in Hserve.
    injection Hserve as <- <-. repeat split. exact Hauth.
  - destruct req; try discriminate Hprot.
    + injection Hserve as <- <-. repeat split. exact Hauth.
    + unfold serve in Hserve.
      rewrite (proj1 (proj2 (login_needs_configured_credentials e username password
                               (session srv)))) in Hserve.
      * injection Hserve as <- <-. destruct srv. repeat split. exact Hauth.
      * intros [-> ->]. apply Hbad. reflexivity.
    + unfold serve, Session.get_logout in Hserve.
      destruct (http_teardown (connections srv) (w_sessionId w)) as [reg'|] eqn:Ht;
        [| discriminate].
      apply teardown_returns_same in Ht. subst reg'.
      injection Hserve as <- <-. repeat split.
Qed.

(** X24.  A session that is not authenticated stays so along any sequence
    of requests that contains no login with the configured user name and
    password: whatever it asks for, the registry and the three files are
    left as they were and nothing is called outside the process. *)
Theorem unauthenticated_session_stays_out (e : environment) (srv srv' : server)
    (reqs : list (world * http_request)) (os : list observed) :
  Session.isAuthenticated (session srv) = false ->
  Forall (fun wr => ~ good_login e (snd wr)) reqs ->
  serve_all e srv reqs = Returned (srv', os) ->
  Session.isAuthenticated (session srv') = false /\
  connections srv' = connections srv /\
  savedConnectionsFile srv' = savedConnectionsFile srv /\
  apiKeysFile srv' = apiKeysFile srv /\
  chatHistoryFile srv' = chatHistoryFile srv /\
  Forall quiet os.
Proof.
  intros Hauth Hbad. revert srv os Hauth.
  induction Hbad as [|[w req] reqs Hreq _ IH]; intros srv os Hauth Hrun; simpl in Hrun.
  - injection Hrun as <- <-. repeat split. exact Hauth. constructor.
  - destruct (serve e w srv req) as [[srv1 o]|] eqn:Hs; [| discriminate].
    destruct (serve_all e srv1 reqs) as [[srv2 os']|] eqn:Hrest; [| discriminate].
    injection Hrun as <- <-.
    destruct (serve_unauthenticated e w srv srv1 req o Hauth Hreq Hs)
      as (Ha & Hr & Hc & Hk & Hh & Hq).
    destruct (IH srv1 os' Ha Hrest) as (Ha' & Hr' & Hc' & Hk' & Hh' & Hq').
    repeat split; try congruence. now constructor.
Qed.

Lemma unauthenticated_session_stays_out_witness :
  serve_all default_environment guest_server guest_requests =
    Returned (guest_server,
              [just (Render "app_login" [("error", JStr "Invalid username or password")]);
               just (RedirectTo "/login"); just (RedirectTo "/login")]) /\
  connections guest_server = demo_registry /\
  Forall quiet
    [just (Render "app_login" [("error", JStr "Invalid username or password")]);
     just (RedirectTo "/login"); just (RedirectTo "/login")].
Proof.
  assert (Hrun : serve_all default_environment guest_server guest_requests =
                 Returned (guest_server,
                           [just (Render "app_login"
                                    [("error", JStr "Invalid username or password")]);
                            just (RedirectTo "/login"); just (RedirectTo "/login")]))
    by reflexivity.
  split; [exact Hrun |].
  destruct (unauthenticated_session_stays_out default_environment guest_server guest_server
              guest_requests _ eq_refl
              ltac:(repeat constructor; discriminate) Hrun)
    as (_ & Hreg & _ & _ & _ & Hq).
  split; [exact Hreg | exact Hq].
Defined.

Lemma socket_disconnect_teardown_witness :
  (exists st1 out1,
     step reconnected_state (SocketDisconnect "sess") = Some (st1, out1) /\
     out1 = [ConnEnd 2] /\
     table st1 !! "sess" = None /\
     step st1 (SocketDisconnect "sess") = Some (st1, [])) /\
  step initial (SocketDisconnect "constructor") =
    Some (initial, [Raise "sshConnections[sessionId].conn.end"]).
Proof.
  split.
  - destruct (socket_disconnect_teardown reconnected_state "sess")
      as (st1 & out1 & Hstep & _ & Hrec & _ & Hplain).
    exists st1, out1. split; [exact Hstep |].
    split; [exact (proj1 (Hrec {| conn := 2; stream := Some 3; sftp := None |}
                            ltac:(vm_compute; reflexivity))) |].
    exact (Hplain eq_refl).
  - destruct (socket_disconnect_teardown initial "constructor")
      as (st1 & out1 & Hstep & _ & _ & Hnone & _).
    destruct (Hnone ltac:(vm_compute; reflexivity)) as (-> & _ & Hraise).
    rewrite Hstep, (Hraise ltac:(vm_compute; reflexivity)). reflexivity.
Defined.

(** X25.  When the first zip command of zip-directory counts as failed,
    the command in /tmp decides: it counts as failed when its exit code is
    not zero or its output contains TEMP_ZIP_FAILED, and then the client
    gets one sftp-error whose text carries the standard error output of
    the first command (that of the second is not collected); otherwise the
    client gets zip-complete with the same archive path the first command
    would have reported. *)
Theorem zip_retry_decides (reg : registry) (sid : string) (s c : handle)
    (path : string) (stamp : N) (code : exit_code) (stdout stderr : list Buffer.t)
    (code2 : exit_code) (stdout2 stderr2 : list Buffer.t) :
  sftp_session reg sid = Some (s, c) ->
  fallback_failed code (Js.collect stdout) "ZIP_FAILED" ->
  let t := zip_directory reg sid path stamp (ExecClosed code stdout stderr)
             (ExecClosed code2 stdout2 stderr2) in
  commands t =
    [zip_command (zip_dir path +:+ zip_name path stamp) path;
     temp_zip_command ("/tmp/" +:+ zip_name path stamp) path (zip_dir path)] /\
  (fallback_failed code2 (Js.collect stdout2) "TEMP_ZIP_FAILED" ->
   emitted t =
     [Emit "zip-started" (Fields [("path", path); ("message", "Creating zip file...")]);
      Emit "sftp-error" (Text ("Failed to create zip file: " +:+ Js.collect stderr))]) /\
  (~ fallback_failed code2 (Js.collect stdout2) "TEMP_ZIP_FAILED" ->
   emitted t =
     [Emit "zip-started" (Fields [("path", path); ("message", "Creating zip file...")]);
      Emit "zip-complete" (Fields [("path", zip_dir path +:+ zip_name path stamp)])]).
Proof.
  intros Hreg F t. subst t.
  apply (proj2 (failure_test_spec _ _ _)) in F.
  rewrite (zip_directory_closed reg sid s c Hreg), F.
  split; [| split].
  - simpl. now destruct (code_nonzero code2 || _).
  - intros F2. apply (proj2 (failure_test_spec _ _ _)) in F2. simpl. now rewrite F2.
  - intros F2. apply not_failed_iff, failure_test_false in F2. simpl. now rewrite F2.
Qed.

Lemma zip_retry_decides_witness :
  emitted (zip_directory demo_registry "sess" "/var/www" 17%N
             (ExecClosed (Some 12%Z) [] [Buffer.of_text "zip error: Permission denied"])
             (ExecClosed (Some 0%Z) [] [])) =
  [Emit "zip-started" (Fields [("path", "/var/www"); ("message", "Creating zip file...")]);
   Emit "zip-complete" (Fields [("path", "/var/www-17.zip")])].
Proof.
  refine (proj2 (proj2 (zip_retry_decides demo_registry "sess" 1 0 "/var/www" 17%N
                          (Some 12%Z) [] [Buffer.of_text "zip error: Permission denied"]
                          (Some 0%Z) [] [] demo_registered _)) _).
  - left. discriminate.
  - apply not_failed_iff. split; [reflexivity |].
    apply no_sentinel_in_empty. discriminate.
Defined.

(** ** The generators of the setup scripts *)

Lemma hex_digit_drawn (n : N) :
  Js.includes Secrets.hex_digits (String (Secrets.hex_digit n) EmptyString) = true.
Proof.
  unfold Secrets.hex_digit. remember (N.to_nat n) as k eqn:Hk. clear Hk.
  do 16 (destruct k as [|k]; [reflexivity|]). reflexivity.
Qed.

Lemma hex_digit_inj (a b : N) :
  (a < 16)%N -> (b < 16)%N -> Secrets.hex_digit a = Secrets.hex_digit b -> a = b.
Proof.
  intros Ha Hb H. apply N2Nat.inj. unfold Secrets.hex_digit in H.
  assert (Ka : (N.to_nat a < 16)%nat) by lia.
  assert (Kb : (N.to_nat b < 16)%nat) by lia.
  remember (N.to_nat a) as ka eqn:Ea. remember (N.to_nat b) as kb eqn:Eb.
  clear Ea Eb Ha Hb.
  do 16 (destruct ka as [|ka];
    [do 16 (destruct kb as [|kb]; [first [reflexivity | cbv in H; discriminate H]|]); lia|]).
  lia.
Qed.

Lemma to_hex_app (a b : list N) :
  Secrets.to_hex (a ++ b) = Secrets.to_hex a +:+ Secrets.to_hex b.
Proof.
  induction a as [|x a IH]; simpl; [reflexivity | now rewrite IH].
Qed.

Lemma to_hex_length (a : list N) :
  String.length (Secrets.to_hex a) = (2 * length a)%nat.
Proof.
  induction a as [|x a IH]; simpl; [reflexivity | rewrite IH; lia].
Qed.

Lemma to_hex_drawn (a : list N) :
  drawn_from Secrets.hex_digits (Secrets.to_hex a) = true.
Proof.
  induction a as [|x a IH]; [reflexivity|].
  cbn [Secrets.to_hex fold_right drawn_from].
  rewrite !hex_digit_drawn. exact IH.
Qed.

Lemma to_hex_inj (a b : list N) :
  Forall is_byte a -> Forall is_byte b ->
  Secrets.to_hex a = Secrets.to_hex b -> a = b.
Proof.
  intros Ha. revert b. induction Ha as [|x a Hx Ha IH]; intros b Hb H.
  - destruct b; [reflexivity | discriminate H].
  - destruct Hb as [|y b Hy Hb]; [discriminate H|].
    cbn [Secrets.to_hex fold_right] in H. injection H as Hhi Hlo Hrest.
    unfold is_byte in Hx, Hy.
    apply hex_digit_inj in Hhi;
      [| apply N.Div0.div_lt_upper_bound; lia | apply N.Div0.div_lt_upper_bound; lia].
    apply hex_digit_inj in Hlo; [| apply N.mod_lt; lia | apply N.mod_lt; lia].
    f_equal; [| now apply IH].
    rewrite (N.div_mod x 16), (N.div_mod y 16) by lia. now rewrite Hhi, Hlo.
Qed.

Lemma substring_prefix_length (n : nat) (s : string) :
  (n <= String.length s)%nat -> String.length (String.substring 0 n s) = n.
Proof.
  revert s. induction n as [|n IH]; intros s H.
  - now destruct s.
  - destruct s as [|ch s]; simpl in *; [lia|]. rewrite IH; [reflexivity | lia].
Qed.

Lemma substring_prefix_app (n : nat) (s t : string) :
  (n <= String.length s)%nat ->
  String.substring 0 n (s +:+ t) = String.substring 0 n s.
Proof.
  revert s. induction n as [|n IH]; intros s H.
  - destruct s; simpl; [now destruct t | reflexivity].
  - destruct s as [|ch s]; simpl in *; [lia|]. rewrite IH; [reflexivity | lia].
Qed.

Lemma substring_prefix_drawn (alphabet : string) (n : nat) (s : string) :
  drawn_from alphabet s = true ->
  drawn_from alphabet (String.substring 0 n s) = true.
Proof.
  revert s. induction n as [|n IH]; intros s H.
  - now destruct s.
  - destruct s as [|ch s]; [reflexivity|]. cbn [drawn_from] in H.
    apply andb_true_iff in H as [Hc Hs].
    cbn [String.substring drawn_from]. rewrite Hc. now apply IH.
Qed.

Lemma half_rounded_up (n : nat) :
  (n <= 2 * Nat.div2 (S n) /\ Nat.div2 (S n) <= n)%nat.
Proof.
  pose proof (Nat.div2_odd (S n)) as Hd.
  destruct (Nat.odd (S n)); unfold Nat.b2n in Hd; lia.
Qed.

Lemma randomIndex_bound (b : N) :
  (Secrets.randomIndex b < String.length Secrets.chars)%nat.
Proof.
  unfold Secrets.randomIndex.
  assert ((b mod N.of_nat (String.length Secrets.chars) <
           N.of_nat (String.length Secrets.chars))%N) by (apply N.mod_lt; discriminate).
  lia.
Qed.

Lemma charAt_chars (b : N) :
  exists ch,
    String.get (Secrets.randomIndex b) Secrets.chars = Some ch /\
    Secrets.charAt Secrets.chars (Secrets.randomIndex b) = String ch EmptyString /\
    Js.includes Secrets.chars (String ch EmptyString) = true.
Proof.
  pose proof (randomIndex_bound b) as Hb.
  remember (Secrets.randomIndex b) as k eqn:Hk. clear Hk.
  change (String.length Secrets.chars) with 76%nat in Hb.
  do 76 (destruct k as [|k]; [eexists; repeat split; reflexivity|]).
  lia.
Qed.

Lemma password_fold (bytes : list N) (acc : string) :
  fold_left (fun password b =>
               password +:+ Secrets.charAt Secrets.chars (Secrets.randomIndex b))
    bytes acc
  = acc +:+ Secrets.generateSecurePassword bytes.
Proof.
  unfold Secrets.generateSecurePassword. revert acc.
  induction bytes as [|b bytes IH]; intros acc.
  - simpl. now rewrite append_empty_r.
  - cbn [fold_left]. rewrite IH. rewrite (IH (EmptyString +:+ _)).
    cbn [String.append]. now rewrite append_assoc.
Qed.

Lemma password_cons (b : N) (bytes : list N) :
  Secrets.generateSecurePassword (b :: bytes)
  = Secrets.charAt Secrets.chars (Secrets.randomIndex b)
    +:+ Secrets.generateSecurePassword bytes.
Proof.
  unfold Secrets.generateSecurePassword at 1. cbn [fold_left].
  now rewrite password_fold.
Qed.

(** X26. The session secret of the env-file generator,
    [generateRandomString], is the hexadecimal writing of the random bytes:
    two lower-case hexadecimal digits for a byte, and two different byte
    sequences never give the same secret. *)
Theorem random_string_identifies_bytes (a b : list N) :
  Forall is_byte a -> Forall is_byte b ->
  String.length (Secrets.generateRandomString a) = (2 * length a)%nat /\
  drawn_from Secrets.hex_digits (Secrets.generateRandomString a) = true /\
  (Secrets.generateRandomString a = Secrets.generateRandomString b -> a = b).
Proof.
  intros Ha Hb. unfold Secrets.generateRandomString. split; [|split].
  - apply to_hex_length.
  - apply to_hex_drawn.
  - now apply to_hex_inj.
Qed.

Lemma random_string_identifies_bytes_witness :
  String.length (Secrets.generateRandomString [0; 171; 255]%N) = 6%nat /\
  (Secrets.generateRandomString [0; 171; 255]%N
   = Secrets.generateRandomString [0; 171; 254]%N ->
   [0; 171; 255]%N = [0; 171; 254]%N).
Proof.
  destruct (random_string_identifies_bytes [0; 171; 255]%N [0; 171; 254]%N)
    as [Hlen [_ Hinj]].
  - repeat constructor.
  - repeat constructor.
  - split; [exact Hlen | exact Hinj].
Defined.

Lemma password_by_position (bytes : list N) :
  String.length (Secrets.generateSecurePassword bytes) = length bytes /\
  drawn_from Secrets.chars (Secrets.generateSecurePassword bytes) = true /\
  forall k b, nth_error bytes k = Some b ->
    String.get k (Secrets.generateSecurePassword bytes)
    = String.get (Secrets.randomIndex b) Secrets.chars.
Proof.
  induction bytes as [|x bytes [IHlen [IHdrawn IHpos]]].
  - split; [reflexivity | split; [reflexivity|]]. intros [|k] b H; discriminate H.
  - rewrite password_cons. destruct (charAt_chars x) as [ch [Hget [Hat Hin]]].
    rewrite Hat. cbn [String.append String.length drawn_from].
    split; [now rewrite IHlen | split].
    + now rewrite Hin.
    + intros [|k] b H; simpl in H.
      * injection H as <-. now rewrite Hget.
      * cbn [String.get]. now apply IHpos.
Qed.

Lemma selectors_count (i : nat) :
  selectors i = if (i <? 28)%nat then 4%nat
                else if (i <? String.length Secrets.chars)%nat then 3%nat
                else 0%nat.
Proof.
  destruct (le_lt_dec (String.length Secrets.chars) i) as [Hout | Hin].
  - change (String.length Secrets.chars) with 76%nat in *.
    destruct (Nat.ltb_spec i 28); [lia|]. destruct (Nat.ltb_spec i 76); [lia|].
    unfold selectors.
    assert (Hnone : forall l,
      List.filter (fun b => Nat.eqb (Secrets.randomIndex b) i) l = []).
    { induction l as [|b l IH]; [reflexivity|]. cbn [List.filter].
      pose proof (randomIndex_bound b) as Hb.
      change (String.length Secrets.chars) with 76%nat in Hb.
      destruct (Nat.eqb_spec (Secrets.randomIndex b) i); [lia | exact IH]. }
    now rewrite Hnone.
  - change (String.length Secrets.chars) with 76%nat in *.
    do 76 (destruct i as [|i]; [vm_compute; reflexivity|]). lia.
Qed.

(** X27. The administrator password of the env-file generator,
    [generateSecurePassword], has one character for each random byte, every
    character comes from the 76-character alphabet, and the character at
    position [k] is the one the byte at position [k] selects, its value
    modulo 76.  A byte has 256 values, so the selection is not uniform: each
    of the first 28 characters of the alphabet is selected by four byte
    values, each of the other 48 by three, and no byte value selects
    anything else. *)
Theorem secure_password_alphabet_and_bias (bytes : list N) (i : nat) :
  (String.length (Secrets.generateSecurePassword bytes) = length bytes /\
   drawn_from Secrets.chars (Secrets.generateSecurePassword bytes) = true /\
   forall k b, nth_error bytes k = Some b ->
     String.get k (Secrets.generateSecurePassword bytes)
     = String.get (Secrets.randomIndex b) Secrets.chars) /\
  selectors i = if (i <? 28)%nat then 4%nat
                else if (i <? String.length Secrets.chars)%nat then 3%nat
                else 0%nat.
Proof.
  split; [apply password_by_position | apply selectors_count].
Qed.

Lemma secure_password_alphabet_and_bias_witness :
  String.get 1 (Secrets.generateSecurePassword [0; 77; 255]%N) = Some "B"%char /\
  selectors 1 = 4%nat.
Proof.
  destruct (secure_password_alphabet_and_bias [0; 77; 255]%N 1) as [[_ [_ Hpos]] Hcount].
  split; [exact (Hpos 1%nat 77%N eq_refl) | exact Hcount].
Defined.

(** X28. The password of the production setup script,
    [randomBytes(length).toString('hex').slice(0, length)], has [length]
    characters, all of them hexadecimal digits, and is decided by the first
    half of the random bytes (rounded up): the other bytes are cut off. *)
Theorem setup_password_uses_half_the_bytes (n : nat) (bytes other : list N) :
  length bytes = n -> length other = n ->
  String.length (Secrets.generateSecurePassword_setup n bytes) = n /\
  drawn_from Secrets.hex_digits (Secrets.generateSecurePassword_setup n bytes) = true /\
  (firstn (Nat.div2 (S n)) bytes = firstn (Nat.div2 (S n)) other ->
   Secrets.generateSecurePassword_setup n bytes
   = Secrets.generateSecurePassword_setup n other).
Proof.
  intros Hb Ho. unfold Secrets.generateSecurePassword_setup, Secrets.slice_to.
  split; [|split].
  - apply substring_prefix_length. rewrite to_hex_length. lia.
  - apply substring_prefix_drawn, to_hex_drawn.
  - intros Hsame.
    assert (Hcut : forall l, length l = n ->
      String.substring 0 n (Secrets.to_hex l)
      = String.substring 0 n (Secrets.to_hex (firstn (Nat.div2 (S n)) l))).
    { intros l Hl. rewrite <- (firstn_skipn (Nat.div2 (S n)) l) at 1.
      rewrite to_hex_app. apply substring_prefix_app.
      rewrite to_hex_length, length_firstn.
      pose proof (half_rounded_up n). lia. }
    rewrite (Hcut bytes Hb), (Hcut other Ho). now rewrite Hsame.
Qed.

Lemma setup_password_uses_half_the_bytes_witness :
  String.length (Secrets.generateSecurePassword_setup 4 [18; 52; 86; 120]%N) = 4%nat /\
  Secrets.generateSecurePassword_setup 4 [18; 52; 86; 120]%N
  = Secrets.generateSecurePassword_setup 4 [18; 52; 0; 255]%N.
Proof.
  destruct (setup_password_uses_half_the_bytes 4 [18; 52; 86; 120]%N [18; 52; 0; 255]%N
              eq_refl eq_refl) as [Hlen [_ Hsame]].
  split; [exact Hlen | exact (Hsame eq_refl)].
Defined.

(** ** Pruning of old backups *)

Lemma has_spec (names : list string) (name : string) :
  Backup.has names name = true <-> In name names.
Proof.
  unfold Backup.has. rewrite existsb_exists. split.
  - intros [x [Hin Heq]]. apply String.eqb_eq in Heq. now subst.
  - intros Hin. exists name. split; [exact Hin | apply String.eqb_refl].
Qed.

Lemma number_eqb_eq (a b : Backup.number) :
  Backup.number_eqb a b = true -> a = b.
Proof.
  destruct a as [x|], b as [y|]; simpl; try discriminate.
  intros H. apply Z.eqb_eq in H. now subst.
Qed.

Lemma first_of_each_incl {A : Type} (eqb : A -> A -> bool)
    (in_period : Backup.backup -> bool) (key : Backup.backup -> A)
    (older : list Backup.backup) :
  forall current k,
    In k (Backup.first_of_each eqb in_period key current older) ->
    In k older /\ in_period k = true.
Proof.
  induction older as [|h rest IH]; intros current k Hk; [contradiction|].
  cbn [Backup.first_of_each] in Hk.
  destruct (in_period h) eqn:Hp.
  - destruct (Backup.differs eqb current (key h)).
    + destruct Hk as [<- | Hk]; [split; [now left | exact Hp]|].
      apply IH in Hk as [Hin Hper]. split; [now right | exact Hper].
    + apply IH in Hk as [Hin Hper]. split; [now right | exact Hper].
  - apply IH in Hk as [Hin Hper]. split; [now right | exact Hper].
Qed.

Lemma first_of_each_covers {A : Type} (eqb : A -> A -> bool)
    (in_period : Backup.backup -> bool) (key : Backup.backup -> A)
    (older : list Backup.backup) :
  forall current b,
    In b older -> in_period b = true ->
    (exists k, In k (Backup.first_of_each eqb in_period key current older) /\
               (k = b \/ eqb (key k) (key b) = true)) \/
    (exists c, current = Some c /\ eqb c (key b) = true).
Proof.
  induction older as [|h rest IH]; intros current b Hb Hper; [contradiction|].
  cbn [Backup.first_of_each]. destruct Hb as [-> | Hb].
  - rewrite Hper. destruct (Backup.differs eqb current (key b)) eqn:Hd.
    + left. exists b. split; [now left | now left].
    + right. destruct current as [c|]; [|discriminate Hd].
      exists c. split; [reflexivity|]. simpl in Hd. now apply negb_false_iff in Hd.
  - destruct (in_period h) eqn:Hp.
    + destruct (Backup.differs eqb current (key h)) eqn:Hd.
      * left. destruct (IH (Some (key h)) b Hb Hper) as [[k [Hk Hsame]] | [c [Hc Hsame]]].
        -- exists k. split; [now right | exact Hsame].
        -- injection Hc as <-. exists h. split; [now left | now right].
      * destruct (IH current b Hb Hper) as [[k [Hk Hsame]] | Hcur].
        -- left. exists k. split; [exact Hk | exact Hsame].
        -- now right.
    + destruct (IH current b Hb Hper) as [[k [Hk Hsame]] | Hcur].
      * left. exists k. split; [exact Hk | exact Hsame].
      * now right.
Qed.

Lemma kept_not_deleted (sevenDaysAgo oneMonthAgo : Z) (backups : list Backup.backup)
    (k : Backup.backup) :
  In (Backup.file k) (Backup.toKeep sevenDaysAgo oneMonthAgo backups) ->
  ~ In k (Backup.pruneOldBackups sevenDaysAgo oneMonthAgo backups).
Proof.
  intros Hkeep Hdel. unfold Backup.pruneOldBackups in Hdel.
  destruct (length backups <=? 7)%nat; [contradiction|].
  unfold Backup.toDelete in Hdel. apply filter_In in Hdel as [_ Hneg].
  apply negb_true_iff in Hneg. apply has_spec in Hkeep. congruence.
Qed.

Lemma same_name_same_backup (backups : list Backup.backup) (a b : Backup.backup) :
  List.NoDup (map Backup.file backups) ->
  In a backups -> In b backups -> Backup.file a = Backup.file b -> a = b.
Proof.
  induction backups as [|h rest IH]; intros Hnd Ha Hb Hsame; [contradiction|].
  cbn [map] in Hnd. apply NoDup_cons_iff in Hnd as [Hfresh Hnd].
  destruct Ha as [<- | Ha], Hb as [<- | Hb].
  - reflexivity.
  - exfalso. apply Hfresh. rewrite Hsame. now apply in_map.
  - exfalso. apply Hfresh. rewrite <- Hsame. now apply in_map.
  - now apply IH.
Qed.

Lemma filter_nothing {A : Type} (f : A -> bool) (l : list A) :
  (forall x, In x l -> f x = false) -> List.filter f l = [].
Proof.
  induction l as [|x l IH]; intros H; [reflexivity|].
  cbn [List.filter]. rewrite (H x (or_introl eq_refl)).
  apply IH. intros y Hy. apply H. now right.
Qed.

Lemma filter_everything {A : Type} (f : A -> bool) (l : list A) :
  (forall x, In x l -> f x = true) -> List.filter f l = l.
Proof.
  induction l as [|x l IH]; intros H; [reflexivity|].
  cbn [List.filter]. rewrite (H x (or_introl eq_refl)). f_equal.
  apply IH. intros y Hy. apply H. now right.
Qed.

Lemma kept_is_dated (sevenDaysAgo oneMonthAgo : Z) (backups : list Backup.backup)
    (name : string) :
  In name (Backup.toKeep sevenDaysAgo oneMonthAgo backups) ->
  exists k, In k backups /\ Backup.file k = name /\ Backup.timestamp k <> None.
Proof.
  unfold Backup.toKeep. rewrite !in_app_iff, !in_map_iff.
  intros [[k [Hname Hk]] | [[k [Hname Hk]] | [k [Hname Hk]]]].
  - unfold Backup.recentBackups in Hk. apply filter_In in Hk as [Hin Hge].
    exists k. repeat split; [exact Hin | exact Hname|].
    intros Hnone. rewrite Hnone in Hge. discriminate Hge.
  - apply first_of_each_incl in Hk as [Hk _].
    unfold Backup.olderBackups in Hk. apply filter_In in Hk as [Hin Hlt].
    exists k. repeat split; [exact Hin | exact Hname|].
    intros Hnone. rewrite Hnone in Hlt. discriminate Hlt.
  - apply first_of_each_incl in Hk as [Hk _].
    unfold Backup.olderBackups in Hk. apply filter_In in Hk as [Hin Hlt].
    exists k. repeat split; [exact Hin | exact Hname|].
    intros Hnone. rewrite Hnone in Hlt. discriminate Hlt.
Qed.

(** X29. What [pruneOldBackups] of the backup script never deletes.  With
    seven backups or fewer it deletes nothing.  It deletes only backups of
    the directory, and none whose timestamp is within the last seven days.
    Every older backup is itself kept or represented by a kept one: a
    backup of the last month by a kept backup of the last month with the
    same week number, a backup from before by a kept backup from before
    with the same month and year. *)
Theorem prune_keeps_recent_and_one_per_period
    (sevenDaysAgo oneMonthAgo : Z) (backups : list Backup.backup) :
  ((length backups <= 7)%nat ->
   Backup.pruneOldBackups sevenDaysAgo oneMonthAgo backups = []) /\
  (forall b, In b (Backup.pruneOldBackups sevenDaysAgo oneMonthAgo backups) ->
     In b backups /\ Backup.ge (Backup.timestamp b) sevenDaysAgo = false) /\
  (forall b, In b backups ->
     Backup.lt (Backup.timestamp b) sevenDaysAgo = true ->
     exists k,
       In k backups /\
       ~ In k (Backup.pruneOldBackups sevenDaysAgo oneMonthAgo backups) /\
       Backup.lt (Backup.timestamp k) sevenDaysAgo = true /\
       if Backup.ge (Backup.timestamp b) oneMonthAgo then
         Backup.ge (Backup.timestamp k) oneMonthAgo = true /\
         (k = b \/
          Backup.weekNumber (Backup.date k) = Backup.weekNumber (Backup.date b))
       else
         Backup.lt (Backup.timestamp k) oneMonthAgo = true /\
         (k = b \/
          Backup.monthKey (Backup.date k) = Backup.monthKey (Backup.date b))).
Proof.
  split; [|split].
  - intros Hfew. unfold Backup.pruneOldBackups.
    destruct (Nat.leb_spec (length backups) 7); [reflexivity | lia].
  - intros b Hdel. unfold Backup.pruneOldBackups in Hdel.
    destruct (length backups <=? 7)%nat; [contradiction|].
    unfold Backup.toDelete in Hdel. apply filter_In in Hdel as [Hin Hneg].
    split; [exact Hin|].
    destruct (Backup.ge (Backup.timestamp b) sevenDaysAgo) eqn:Hge; [|reflexivity].
    apply negb_true_iff in Hneg.
    assert (Hkeep : Backup.has (Backup.toKeep sevenDaysAgo oneMonthAgo backups)
                      (Backup.file b) = true).
    { apply has_spec. unfold Backup.toKeep. apply in_or_app. left.
      apply in_map. unfold Backup.recentBackups. apply filter_In. now split. }
    congruence.
  - intros b Hin Hlt.
    assert (Holder : In b (Backup.olderBackups sevenDaysAgo backups)).
    { unfold Backup.olderBackups. apply filter_In. now split. }
    destruct (Backup.ge (Backup.timestamp b) oneMonthAgo) eqn:Hge.
    + destruct (first_of_each_covers Backup.number_eqb
                  (fun b => Backup.ge (Backup.timestamp b) oneMonthAgo)
                  (fun b => Backup.weekNumber (Backup.date b))
                  (Backup.olderBackups sevenDaysAgo backups) None b Holder Hge)
        as [[k [Hk Hsame]] | [c [Hc _]]]; [|discriminate Hc].
      exists k. pose proof Hk as Hk'.
      apply first_of_each_incl in Hk' as [Hold Hper].
      unfold Backup.olderBackups in Hold. apply filter_In in Hold as [Hkin Hklt].
      split; [exact Hkin | split; [|split; [exact Hklt | split; [exact Hper|]]]].
      * apply kept_not_deleted. unfold Backup.toKeep.
        apply in_or_app. right. apply in_or_app. left. now apply in_map.
      * destruct Hsame as [-> | Hsame]; [now left | right; now apply number_eqb_eq].
    + assert (Hmonth : Backup.lt (Backup.timestamp b) oneMonthAgo = true).
      { destruct (Backup.timestamp b) as [x|]; [|discriminate Hlt].
        simpl in *. lia. }
      destruct (first_of_each_covers String.eqb
                  (fun b => Backup.lt (Backup.timestamp b) oneMonthAgo)
                  (fun b => Backup.monthKey (Backup.date b))
                  (Backup.olderBackups sevenDaysAgo backups) None b Holder Hmonth)
        as [[k [Hk Hsame]] | [c [Hc _]]]; [|discriminate Hc].
      exists k. pose proof Hk as Hk'.
      apply first_of_each_incl in Hk' as [Hold Hper].
      unfold Backup.olderBackups in Hold. apply filter_In in Hold as [Hkin Hklt].
      split; [exact Hkin | split; [|split; [exact Hklt | split; [exact Hper|]]]].
      * apply kept_not_deleted. unfold Backup.toKeep.
        apply in_or_app. right. apply in_or_app. right. now apply in_map.
      * destruct Hsame as [-> | Hsame]; [now left | right; now apply String.eqb_eq].
Qed.

Lemma prune_keeps_recent_and_one_per_period_witness :
  exists k,
    In k sample_backups /\
    ~ In k (Backup.pruneOldBackups 930 700 sample_backups) /\
    (k = backup_at "b4" 12 "2-2024" (Some 800%Z) \/
     Backup.weekNumber (Backup.date k) = Some 12%Z).
Proof.
  destruct (prune_keeps_recent_and_one_per_period 930 700 sample_backups)
    as [_ [_ Hrep]].
  destruct (Hrep (backup_at "b4" 12 "2-2024" (Some 800%Z))) as [k [Hin [Hkept [_ Hsame]]]].
  - vm_compute. tauto.
  - reflexivity.
  - exists k. split; [exact Hin | split; [exact Hkept|]].
    exact (proj2 Hsame).
Defined.

(** X30. What [pruneOldBackups] does with a backup whose timestamp is not
    a date (NaN): it is neither recent nor older, so nothing keeps it.
    With more than seven backups under different names, every such backup
    is deleted; and when no backup has a valid timestamp, all of them are
    deleted. *)
Theorem prune_deletes_undated
    (sevenDaysAgo oneMonthAgo : Z) (backups : list Backup.backup) :
  (7 < length backups)%nat ->
  (List.NoDup (map Backup.file backups) ->
   forall b, In b backups -> Backup.timestamp b = None ->
     In b (Backup.pruneOldBackups sevenDaysAgo oneMonthAgo backups)) /\
  ((forall b, In b backups -> Backup.timestamp b = None) ->
   Backup.pruneOldBackups sevenDaysAgo oneMonthAgo backups = backups).
Proof.
  intros Hmany. unfold Backup.pruneOldBackups.
  destruct (Nat.leb_spec (length backups) 7); [lia|]. split.
  - intros Hnames b Hin Hnone. unfold Backup.toDelete. apply filter_In.
    split; [exact Hin|]. apply negb_true_iff.
    destruct (Backup.has _ (Backup.file b)) eqn:Hhas; [|reflexivity].
    apply has_spec, kept_is_dated in Hhas as [k [Hk [Hname Hdated]]].
    assert (k = b) by now apply (same_name_same_backup backups).
    subst k. contradiction.
  - intros Hall. unfold Backup.toDelete. apply filter_everything.
    intros b Hin. apply negb_true_iff.
    destruct (Backup.has _ (Backup.file b)) eqn:Hhas; [|reflexivity].
    apply has_spec, kept_is_dated in Hhas as [k [Hk [_ Hdated]]].
    now apply Hall in Hk.
Qed.

Lemma prune_deletes_undated_witness :
  In (backup_at "b1" 8 "1-2024" None) (Backup.pruneOldBackups 930 700 sample_backups) /\
  Backup.pruneOldBackups 930 700 undated_backups = undated_backups.
Proof.
  split.
  - refine (proj1 (prune_deletes_undated 930 700 sample_backups _) _
              (backup_at "b1" 8 "1-2024" None) _ eq_refl).
    + vm_compute. lia.
    + vm_compute. repeat constructor; simpl; intuition discriminate.
    + vm_compute. tauto.
  - refine (proj2 (prune_deletes_undated 930 700 undated_backups _) _).
    + vm_compute. lia.
    + intros b Hb. vm_compute in Hb.
      repeat (destruct Hb as [<- | Hb]; [reflexivity|]). contradiction.
Defined.
